(** * Hubble go-node: account tree store and event reconciler

    A shallow embedding of the state-tracking core of the node:

    - [Common]   : package [common]   (byte and digit helpers);
    - [Core]     : package [core]     (the account tree store of
                   [core/account.go], on top of a model of the gorm calls
                   it makes);
    - [Listener] : package [listener] (the syncer's event handlers and
                   [EventByID]).

    Go values are modelled as follows.  Machine integers ([int], [uint32],
    [uint64], [byte]) are [Z] with their wrap-around written out; byte
    slices are [list Z]; Go strings are [string], except tree paths, which
    are scanned from the right and are kept as [list ascii]; a table of
    the database is the list of its rows, in the order the database
    returns them; Go's [error] results are values of [error], and a
    [panic] is the [Panic] outcome of the state monad [M]. *)

From Stdlib Require Import ZArith Lia Ascii String List.
From stdpp Require Import gmap strings list fin_maps.

Local Open Scope Z_scope.

(** ** Machine integers *)

Definition int_min : Z := - 2 ^ 63.
Definition int_max : Z := 2 ^ 63 - 1.
Definition uint64_max : Z := 2 ^ 64 - 1.

Definition in_int (z : Z) : Prop := int_min <= z <= int_max.
Definition in_uint32 (z : Z) : Prop := 0 <= z < 2 ^ 32.
Definition in_uint64 (z : Z) : Prop := 0 <= z <= uint64_max.

(** Two's complement wrap-around of 64-bit signed arithmetic. *)
Definition wrap_int (z : Z) : Z := (z + 2 ^ 63) mod 2 ^ 64 - 2 ^ 63.

(** [int(f)] for a float64 [f] whose exact value is the integer [z].  The
    Go specification leaves the result implementation-dependent when [z]
    does not fit; on amd64 the conversion instruction then yields the
    "integer indefinite" value, the smallest int64. *)
Definition int_of_float (z : Z) : Z :=
  if (int_min <=? z) && (z <=? int_max) then z else int_min.

(** [x / y] and [x % y] on [int]: truncated towards zero, a run-time panic
    ([None]) on a zero divisor, and the quotient wraps (only for
    [int_min / -1]). *)
Definition go_quot (x y : Z) : option Z :=
  if y =? 0 then None else Some (wrap_int (Z.quot x y)).

Definition go_rem (x y : Z) : option Z :=
  if y =? 0 then None else Some (Z.rem x y).

(** ** Package common *)

Module Common.

(** [byte(v)]: the low eight bits. *)
Definition byte (v : Z) : Z := Z.land v 255.

(** [make([]byte, n)] *)
Definition make (n : nat) : list Z := replicate n 0.

(** [binary.LittleEndian.PutUint32(b, v)]: writes [b[0..3]] in place. *)
Definition PutUint32 (b : list Z) (v : Z) : list Z :=
  <[3%nat := byte (Z.shiftr v 24)]>
    (<[2%nat := byte (Z.shiftr v 16)]>
       (<[1%nat := byte (Z.shiftr v 8)]>
          (<[0%nat := byte v]> b))).

(** The builtin [copy(dst, src)]: copies [min(len(dst), len(src))]
    elements and leaves the rest of [dst] alone. *)
Definition copy (dst src : list Z) : list Z :=
  let n := Nat.min (length dst) (length src) in
  take n src ++ drop n dst.

Definition UintTo2Byte (a : Z) : list Z :=
  let b := PutUint32 (make 4) a in
  let c := make 2 in
  copy c b.

Definition UintToByte (a : Z) : list Z :=
  PutUint32 (make 4) a.

(** [AppendSlices] *)
Definition AppendSlices (dataSlices : list (list Z)) : list Z :=
  foldl (fun result data => result ++ data) [] dataSlices.

(** [int(math.Pow(10, float64(e)))].  [math.Pow(10, e)] is exact for
    [0 <= e <= 22]; from [e = 19] on the power exceeds every int64; for
    [e < 0] it lies in [[0, 1)] and truncates to [0]. *)
Definition pow10_int (e : Z) : Z :=
  if e <? 0 then 0 else int_of_float (10 ^ e).

(** [ExtractBit]; [None] is the integer-divide-by-zero panic. *)
Definition ExtractBit (num place : Z) : option Z :=
  match go_rem num (pow10_int place) with
  | None => None
  | Some r => go_quot r (pow10_int (wrap_int (place - 1)))
  end.

Definition FlipBit (bit : Z) : Z :=
  if bit =? 1 then 0 else 1.

(** The SHA-256 digest of the empty input: what a fresh [sha256.New()]
    holds. *)
Definition sha256_of_empty : list Z :=
  [227; 176; 196; 66; 152; 252; 28; 20; 154; 251; 244; 200; 153; 111; 185; 36;
   39; 174; 65; 228; 100; 155; 147; 76; 164; 149; 153; 27; 120; 82; 184; 85].

(** [Hash]: [h.Sum(data)] appends the digest [h] holds to [data]; nothing
    was written to [h]. *)
Definition Hash (data : list Z) : list Z :=
  data ++ sha256_of_empty.

(** The little-endian value of a byte string. *)
Fixpoint le_value (bs : list Z) : Z :=
  match bs with
  | [] => 0
  | b :: rest => b + 256 * le_value rest
  end.

(** The digit the name of [ExtractBit] does not promise: the [place]-th
    decimal digit from the right, with the remainder and the quotient
    truncated as Go computes them ... *)
Definition decimal_digit_trunc (num place : Z) : Z :=
  Z.quot (Z.rem num (10 ^ place)) (10 ^ (place - 1)).

(** ... and with the mathematical (floored) [mod] and division. *)
Definition decimal_digit (num place : Z) : Z :=
  (num mod 10 ^ place) / 10 ^ (place - 1).

End Common.

(** ** Errors, outcomes and the state monad *)

(** The [error] values the modelled code creates or passes on.  The text
    built with [fmt.Sprintf] is kept as a short tag. *)
Inductive error : Type :=
| ErrDepthLeavesMismatch      (* errors.New("Depth and number of leaves do not match") *)
| ErrUnableToInsertAccounts   (* errors.New("Unable to insert accounts") *)
| ErrRecordNotFound (msg : string) (* core.ErrRecordNotFound(msg) *)
| GormRecordNotFound          (* gorm.ErrRecordNotFound *)
| ErrDuplicateBatch           (* the ledger refuses a batch id it already has *)
| ErrInvalidTransition        (* the ledger refuses a status that is not a step forward *)
| ErrHeightExceeded           (* the deposit accumulator is full *)
| ErrCollaborator (msg : string) (* an error made outside the modelled packages *)
| RuntimeError (msg : string).   (* the value of a run-time panic *)

(** A Go result [(T, error)]. *)
Inductive result (A : Type) : Type :=
| Ok (a : A)
| Err (e : error).
Arguments Ok {A} a.
Arguments Err {A} e.

Definition result_map {A B : Type} (f : A -> B) (r : result A) : result B :=
  match r with
  | Ok a => Ok (f a)
  | Err e => Err e
  end.

(** The result of a call into code that is not modelled here: its errors
    are values made there, [ErrCollaborator] on this side. *)
Inductive external (A : Type) : Type :=
| Done (a : A)
| Failed (msg : string).
Arguments Done {A} a.
Arguments Failed {A} msg.

Definition from_external {A : Type} (r : external A) : result A :=
  match r with
  | Done a => Ok a
  | Failed msg => Err (ErrCollaborator msg)
  end.

(** How a call ends: it returns, or it panics. *)
Inductive outcome (A : Type) : Type :=
| Return (a : A)
| Panic (e : error).
Arguments Return {A} a.
Arguments Panic {A} e.

(** A computation on a store [S]: the store is threaded through, and what
    was written before a panic stays written. *)
Definition M (S A : Type) : Type := S -> outcome A * S.

Definition ret {S A : Type} (a : A) : M S A := fun s => (Return a, s).

Definition bind {S A B : Type} (m : M S A) (k : A -> M S B) : M S B :=
  fun s =>
    match m s with
    | (Return a, s') => k a s'
    | (Panic e, s') => (Panic e, s')
    end.

Definition panic {S A : Type} (e : error) : M S A := fun s => (Panic e, s).

(** Reading from and writing to the store. *)
Definition gets {S A : Type} (f : S -> A) : M S A := fun s => (Return (f s), s).
Definition modify {S : Type} (f : S -> S) : M S unit := fun s => (Return tt, f s).

Declare Scope go_scope.
Delimit Scope go_scope with go.
Notation "'let*' x ':=' m 'in' k" := (bind m (fun x => k))
  (at level 10, x name, m at level 100, k at level 200, only parsing) : go_scope.
Local Open Scope go_scope.

(** ** Package core: the account tree store *)

Module Core.

(** Constants of the package, with the values the comments on
    [UserAccount] give them. *)
Definition ZERO : Z := 0.
Definition STATUS_PENDING : Z := 0.
Definition STATUS_ACTIVE : Z := 1.
Definition STATUS_INACTIVE : Z := 2.
Definition TYPE_ROOT : Z := 0.
Definition TYPE_TERMINAL : Z := 1.
Definition TYPE_NON_TERMINAL : Z := 2.

(** [type ByteArray [32]byte] *)
Definition ByteArray : Type := list Z.

(** A path: the characters of the Go string, root end first. *)
Definition pathstring : Type := list ascii.

(** A [[]byte] field.  Go tells the nil slice from a slice of no bytes,
    and so does gorm, for which only the nil slice is blank: [None] is
    the nil slice, [Some bs] a slice holding the bytes [bs].  Code that
    reads the bytes ([len], hashing, decoding) sees none in both. *)
Definition ByteSlice : Type := option (list Z).
Definition bytes_of (b : ByteSlice) : list Z :=
  match b with
  | Some bs => bs
  | None => []
  end.

Record UserAccount : Type := mkUserAccount {
  AccountID : Z;
  Data : ByteSlice;
  Path : pathstring;
  Status : Z;
  Type_ : Z;
  Hash : string;
  Level : Z;
  CreatedByDepositSubTree : string
}.

(** The zero value [var account UserAccount]. *)
Definition zeroAccount : UserAccount :=
  mkUserAccount 0 None [] 0 0 EmptyString 0 EmptyString.

Definition set_Data (acc : UserAccount) (d : ByteSlice) : UserAccount :=
  mkUserAccount (AccountID acc) d (Path acc) (Status acc) (Type_ acc)
    (Hash acc) (Level acc) (CreatedByDepositSubTree acc).
Definition set_Hash (acc : UserAccount) (h : string) : UserAccount :=
  mkUserAccount (AccountID acc) (Data acc) (Path acc) (Status acc) (Type_ acc)
    h (Level acc) (CreatedByDepositSubTree acc).
Definition set_Type (acc : UserAccount) (t : Z) : UserAccount :=
  mkUserAccount (AccountID acc) (Data acc) (Path acc) (Status acc) t
    (Hash acc) (Level acc) (CreatedByDepositSubTree acc).
Definition set_CreatedByDepositSubTree (acc : UserAccount) (root : string)
  : UserAccount :=
  mkUserAccount (AccountID acc) (Data acc) (Path acc) (Status acc) (Type_ acc)
    (Hash acc) (Level acc) root.

(** The batch ledger's record ([Batch_Status] is the field [Status]). *)
Record Batch : Type := mkBatch {
  BatchID : Z;
  StateRoot : string;
  TxRoot : string;
  TransactionsIncluded : list Z;
  Committer : string;
  StakeAmount : Z;
  FinalisesOn : Z;
  Batch_Status : Z
}.

Definition set_Batch_Status (batch : Batch) (status : Z) : Batch :=
  mkBatch (BatchID batch) (StateRoot batch) (TxRoot batch) (TransactionsIncluded batch)
    (Committer batch) (StakeAmount batch) (FinalisesOn batch) status.

Record Params : Type := mkParams {
  Params_StakeAmount : Z;
  MaxDepth : Z;
  MaxDepositSubTreeHeight : Z;
  FinalisationTime : Z
}.

(** The deposit accumulator of the spec's 3: a height and a root. *)
Record DepositSubtree : Type := mkDepositSubtree {
  height : Z;
  root : string
}.

(** The database behind [*DB]: the table [user_accounts] as the list of its
    rows, the batch ledger keyed by batch id, the parameters row (if it
    was written) and the deposit accumulator. *)
Record DB : Type := mkDB {
  user_accounts : list UserAccount;
  batches : gmap Z Batch;
  params : option Params;
  deposits : DepositSubtree
}.

Definition set_user_accounts (db : DB) (rows : list UserAccount) : DB :=
  mkDB rows (batches db) (params db) (deposits db).
Definition set_batches (db : DB) (bs : gmap Z Batch) : DB :=
  mkDB (user_accounts db) bs (params db) (deposits db).
Definition set_deposits (db : DB) (d : DepositSubtree) : DB :=
  mkDB (user_accounts db) (batches db) (params db) d.

(** *** The gorm calls of the package

    What [jinzhu/gorm] does for the calls [core/account.go] makes, on a
    table given as its rows.  The store is taken to be reliable: a call
    reports an error only where the library makes one up itself, which is
    [ErrRecordNotFound] when a query into a single struct finds no row. *)
Module Gorm.

(** [Where(cond).Find(&row)] into a struct: every row the query returns is
    scanned into the same struct, so the last one stays;
    [ErrRecordNotFound] when there is none. *)
Definition Find {A : Type} (cond : A -> bool) (rows : list A) : result A :=
  match last (filter cond rows) with
  | Some row => Ok row
  | None => Err GormRecordNotFound
  end.

(** [Where(cond).First(&row)]: the first row; [ErrRecordNotFound] when
    there is none. *)
Definition First {A : Type} (cond : A -> bool) (rows : list A) : result A :=
  match head (filter cond rows) with
  | Some row => Ok row
  | None => Err GormRecordNotFound
  end.

(** [Where(cond).Find(&rows)] into a slice: all the rows, never an error. *)
Definition FindAll {A : Type} (cond : A -> bool) (rows : list A) : result (list A) :=
  Ok (filter cond rows).

(** [Create(&row)] and [gormbulk.BulkInsert]: the new rows come last.  A
    blank field whose column has a default value is not written as it
    is: [Create] leaves it out of the INSERT and the database fills in
    the default, [BulkInsert] writes the default itself.  [defaults row]
    is the row as it is stored. *)
Definition Create {A : Type} (defaults : A -> A) (row : A) (rows : list A)
  : option error * list A :=
  (None, rows ++ [defaults row]).

Definition BulkInsert {A : Type} (defaults : A -> A) (records : list A) (rows : list A)
  : option error * list A :=
  (None, rows ++ map defaults records).

(** [Model(&v).Where(cond).Update(v)]: every row of the query takes the
    fields of [v] that are not blank ([assign v row]); no error when the
    query has no row. *)
Definition Update {A : Type} (cond : A -> bool) (assign : A -> A) (rows : list A)
  : option error * list A :=
  (None, map (fun row => if cond row then assign row else row) rows).

(** [Where(cond).Delete(&v)] with a blank [v]: removes every row of the
    query; no error when the query has no row. *)
Definition Delete {A : Type} (cond : A -> bool) (rows : list A) : option error * list A :=
  (None, filter (fun row => negb (cond row)) rows).

(** A field is written by [Update] unless it is blank: a number that is
    0, a string of length 0, a byte slice that is nil (a slice of no
    bytes that is not nil is written). *)
Definition assign_Z (new old : Z) : Z := if new =? 0 then old else new.
Definition assign_bytes (new old : ByteSlice) : ByteSlice :=
  match new with None => old | Some _ => new end.
Definition assign_path (new old : pathstring) : pathstring :=
  match new with [] => old | _ => new end.
Definition assign_string (new old : string) : string :=
  match new with EmptyString => old | _ => new end.

Definition assign (v row : UserAccount) : UserAccount :=
  mkUserAccount
    (assign_Z (AccountID v) (AccountID row))
    (assign_bytes (Data v) (Data row))
    (assign_path (Path v) (Path row))
    (assign_Z (Status v) (Status row))
    (assign_Z (Type_ v) (Type_ row))
    (assign_string (Hash v) (Hash row))
    (assign_Z (Level v) (Level row))
    (assign_string (CreatedByDepositSubTree v) (CreatedByDepositSubTree row)).

(** The one column of [user_accounts] with a default value is [Data],
    tagged [sql:"DEFAULT:0"]: a row whose [Data] is nil is stored with the
    one byte of the string "0". *)
Definition defaults (row : UserAccount) : UserAccount :=
  match Data row with
  | None => set_Data row (Some [48])
  | Some _ => row
  end.

(** After [Create], gorm reads the columns it left to their defaults
    back into the value it was given.  The table has no primary key to
    find the new row by, so the query has no condition and, as with
    [Find], of the rows it returns the last one stays in the value. *)
Definition reload (v : UserAccount) (rows : list UserAccount) : UserAccount :=
  match Data v, last rows with
  | None, Some row => set_Data v (Data row)
  | _, _ => v
  end.

End Gorm.

(** The conditions of the queries. *)
Definition path_is (path : pathstring) (row : UserAccount) : bool :=
  bool_decide (Path row = path).
Definition level_is (level : Z) (row : UserAccount) : bool :=
  Level row =? level.
Definition id_status_is (ID status : Z) (row : UserAccount) : bool :=
  (AccountID row =? ID) && (Status row =? status).
Definition level_hash_is (level : Z) (hash : string) (row : UserAccount) : bool :=
  (Level row =? level) && String.eqb (Hash row) hash.
Definition status_is (status : Z) (row : UserAccount) : bool :=
  Status row =? status.
Definition deposit_status_is (root : string) (status : Z) (row : UserAccount) : bool :=
  String.eqb (CreatedByDepositSubTree row) root && (Status row =? status).

(** *** Path helpers

    [GetParentPath], [GetOtherChild] and [GetNthBitFromRight] belong to the
    package but are not among the sources. *)

Definition flip_char (c : ascii) : ascii :=
  if Ascii.eqb c "1" then "0"%char else "1"%char.

Definition bit_of_char (c : ascii) : Z :=
  if Ascii.eqb c "1" then 1 else 0.

(** Modelled from the spec: [GetParentPath] is missing; by 4.1 a parent's
    path is the prefix of its children's, the path without its last bit. *)
Definition GetParentPath (path : pathstring) : pathstring := removelast path.

(** Modelled from the spec: [GetOtherChild] is missing; by 4.1 the sibling
    is "the node obtained by flipping the last bit of the current
    prefix". *)
Definition GetOtherChild (path : pathstring) : pathstring :=
  match last path with
  | Some c => removelast path ++ [flip_char c]
  | None => []
  end.

(** Modelled from the spec: [GetNthBitFromRight] is missing; by 4.1 the
    bits are taken leaf to root, "bit 0 => updated node is left child;
    bit 1 => right child".  Reading past the path is an index out of
    range. *)
Definition GetNthBitFromRight (path : pathstring) (i : nat) : result Z :=
  match rev path !! i with
  | Some c => Ok (bit_of_char c)
  | None => Err (RuntimeError "index out of range")
  end.

(** *** What the package takes from elsewhere

    Hashing ([common.Keccak256], [GetParent]), the hex rendering of a
    [ByteArray] and its parser, and the two path generators of
    [InitBalancesTree] are not among the sources; neither is the value of
    [UNINITIALIZED_PATH].  They are the fields of [Primitives]. *)
Record Primitives : Type := mkPrimitives {
  Keccak256 : list Z -> ByteArray;
  prim_GetParent : ByteArray -> ByteArray -> external ByteArray;
  ByteArray_String : ByteArray -> string;
  prim_HexToByteArray : string -> external ByteArray;
  GenCoordinatorPath : Z -> pathstring;
  prim_GetAdjacentNodePath : pathstring -> external pathstring;
  UNINITIALIZED_PATH : pathstring
}.

Definition GetParent (prim : Primitives) (l r : ByteArray) : result ByteArray :=
  from_external (prim_GetParent prim l r).
Definition HexToByteArray (prim : Primitives) (s : string) : result ByteArray :=
  from_external (prim_HexToByteArray prim s).
Definition GetAdjacentNodePath (prim : Primitives) (path : pathstring)
  : result pathstring :=
  from_external (prim_GetAdjacentNodePath prim path).

Section Account.
Context (prim : Primitives).

Definition UpdatePath (acc : UserAccount) (path : pathstring) : UserAccount :=
  mkUserAccount (AccountID acc) (Data acc) path (Status acc) (Type_ acc)
    (Hash acc) (Z.of_nat (length path)) (CreatedByDepositSubTree acc).

Definition CreateAccountHash (acc : UserAccount) : UserAccount :=
  let accountHash := Keccak256 prim (bytes_of (Data acc)) in
  set_Hash acc (ByteArray_String prim accountHash).

Definition NewUserAccount (id status : Z) (path : pathstring) (data : ByteSlice)
  : UserAccount :=
  let newAcccount :=
    mkUserAccount id data path status TYPE_TERMINAL EmptyString 0 EmptyString in
  let newAcccount := UpdatePath newAcccount (Path newAcccount) in
  CreateAccountHash newAcccount.

Definition NewAccountNode (path : pathstring) (hash : string) : UserAccount :=
  let newAcccount :=
    mkUserAccount ZERO None path STATUS_ACTIVE TYPE_NON_TERMINAL EmptyString 0
      EmptyString in
  let newAcccount := UpdatePath newAcccount (Path newAcccount) in
  set_Hash newAcccount hash.

Definition NewPendingUserAccount (id : Z) (data : ByteSlice) : UserAccount :=
  let newAcccount :=
    mkUserAccount id data (UNINITIALIZED_PATH prim) STATUS_PENDING TYPE_TERMINAL
      EmptyString 0 EmptyString in
  let newAcccount := UpdatePath newAcccount (Path newAcccount) in
  CreateAccountHash newAcccount.

(** [HashToByteArray] panics on a hash that does not parse. *)
Definition HashToByteArray (acc : UserAccount) : M DB ByteArray :=
  match HexToByteArray prim (Hash acc) with
  | Ok ba => ret ba
  | Err err => panic err
  end.

Definition IsCoordinator (acc : UserAccount) : bool :=
  if negb (bool_decide (Path acc = [])) then false
  else if negb (Status acc =? 1) then false
  else if negb (Type_ acc =? 0) then false
  else true.

Definition EmptyAccount : UserAccount :=
  NewUserAccount ZERO STATUS_INACTIVE [] (Some []).

(** *** Queries *)

Definition GetAccountsAtDepth (depth : Z) (db : DB) : result (list UserAccount) :=
  Gorm.FindAll (level_is depth) (user_accounts db).

Definition GetAccountByPath (path : pathstring) (db : DB) : result UserAccount :=
  match Gorm.Find (path_is path) (user_accounts db) with
  | Ok account => Ok account
  | Err _ => Err (ErrRecordNotFound "unable to find record for path")
  end.

Definition GetAccountByID (ID : Z) (db : DB) : result UserAccount :=
  match Gorm.Find (id_status_is ID STATUS_ACTIVE) (user_accounts db) with
  | Ok account => Ok account
  | Err _ => Err (ErrRecordNotFound "unable to find record for ID")
  end.

Definition GetDepositSubTreeRoot (hash : string) (level : Z) (db : DB)
  : result UserAccount :=
  match Gorm.First (level_hash_is level hash) (user_accounts db) with
  | Ok account => Ok account
  | Err _ => Err (ErrRecordNotFound "unable to find record for hash")
  end.

Definition GetRoot (db : DB) : result UserAccount :=
  match Gorm.Find (level_is 0) (user_accounts db) with
  | Ok account => Ok account
  | Err _ => Err (ErrRecordNotFound "unable to find record")
  end.

Definition GetAccountCount (db : DB) : Z :=
  Z.of_nat (length (user_accounts db)).

Fixpoint GetSiblings_loop (i : nat) (relativePath : pathstring)
    (siblings : list UserAccount) (db : DB) : list UserAccount * option error :=
  match i with
  | O => (siblings, None)
  | S i' =>
      let otherChild := GetOtherChild relativePath in
      match GetAccountByPath otherChild db with
      | Err err => (siblings, Some err)
      | Ok otherNode =>
          GetSiblings_loop i' (GetParentPath relativePath)
            (siblings ++ [otherNode]) db
      end
  end.

Definition GetSiblings (path : pathstring) (db : DB)
  : list UserAccount * option error :=
  GetSiblings_loop (length path) path [] db.

(** *** Sibling proofs

    The check of a sibling proof as 8 words it: the leaf's hash is folded
    with the siblings, leaf to root, the computed hash on the left of its
    sibling where the path has bit 0 and on the right where it has bit
    1. *)
Fixpoint recompute (path : pathstring) (i : nat) (computed : ByteArray)
    (siblings : list UserAccount) : result ByteArray :=
  match siblings with
  | [] => Ok computed
  | sibling :: rest =>
      match GetNthBitFromRight path i with
      | Err e => Err e
      | Ok bit =>
          match HexToByteArray prim (Hash sibling) with
          | Err e => Err e
          | Ok s =>
              match (if bit =? 0 then GetParent prim computed s
                     else GetParent prim s computed) with
              | Err e => Err e
              | Ok parent => recompute path (S i) parent rest
              end
          end
      end
  end.

Definition recomputeRoot (path : pathstring) (leafHash : ByteArray)
    (siblings : list UserAccount) : result ByteArray :=
  recompute path 0 leafHash siblings.

(** A path of the tree is a string of the characters 0 and 1. *)
Definition is_bitpath (path : pathstring) : Prop :=
  Forall (fun ch => ch = "0"%char \/ ch = "1"%char) path.

(** Root consistency (8): wherever the store holds both children of a
    path, it holds the node of the path, and the node's hash is the
    parent hash of the children's hashes. *)
Definition root_consistent (db : DB) : Prop :=
  forall (q : pathstring) (l r : UserAccount),
    GetAccountByPath (q ++ ["0"%char]) db = Ok l ->
    GetAccountByPath (q ++ ["1"%char]) db = Ok r ->
    exists n hl hr hn,
      GetAccountByPath q db = Ok n /\
      HexToByteArray prim (Hash l) = Ok hl /\
      HexToByteArray prim (Hash r) = Ok hr /\
      GetParent prim hl hr = Ok hn /\
      HexToByteArray prim (Hash n) = Ok hn.

(** Every row's level is the length of its path, as [UpdatePath] sets
    it. *)
Definition levels_match (db : DB) : Prop :=
  Forall (fun row => Level row = Z.of_nat (length (Path row))) (user_accounts db).

(** Root consistency can be checked row by row: the constraint on the
    parent of each stored row. *)
Definition check_parent (q : pathstring) (db : DB) : bool :=
  match GetAccountByPath (q ++ ["0"%char]) db, GetAccountByPath (q ++ ["1"%char]) db with
  | Ok l, Ok r =>
      match GetAccountByPath q db, HexToByteArray prim (Hash l),
            HexToByteArray prim (Hash r) with
      | Ok n, Ok hl, Ok hr =>
          match GetParent prim hl hr, HexToByteArray prim (Hash n) with
          | Ok hn, Ok hn' => bool_decide (hn = hn')
          | _, _ => false
          end
      | _, _, _ => false
      end
  | _, _ => true
  end.

Definition root_consistentb (db : DB) : bool :=
  forallb (fun row => check_parent (GetParentPath (Path row)) db) (user_accounts db).

(** A node of the tree is a leaf when the store does not hold both of its
    children. *)
Definition is_leaf_path (path : pathstring) (db : DB) : Prop :=
  ~ (exists l r,
        GetAccountByPath (path ++ ["0"%char]) db = Ok l /\
        GetAccountByPath (path ++ ["1"%char]) db = Ok r).

(** What the store relies on in the hashes it is given: the rendering of a
    hash is never the empty string, and it parses back to the hash. *)
Definition hash_renders (b : ByteArray) : Prop :=
  ByteArray_String prim b <> EmptyString /\
  HexToByteArray prim (ByteArray_String prim b) = Ok b.

Definition hashes_render : Prop :=
  (forall data, hash_renders (Keccak256 prim data)) /\
  (forall l r h, GetParent prim l r = Ok h -> hash_renders h).

(** A node whose hash is the rendering of a hash that renders. *)
Definition renders_hash (acc : UserAccount) : Prop :=
  exists h, Hash acc = ByteArray_String prim h /\ hash_renders h.

(** Root consistency while [StoreLeaf] is at work: the node [computed]
    stands in for the one stored at its path, and the one constraint that
    is not required is the one on the parent of that path, which the next
    round of the loop restores. *)
Definition consistent_but (computed : UserAccount) (db : DB) : Prop :=
  forall x l r,
    x ++ ["0"%char] <> Path computed -> x ++ ["1"%char] <> Path computed ->
    GetAccountByPath (x ++ ["0"%char]) db = Ok l ->
    GetAccountByPath (x ++ ["1"%char]) db = Ok r ->
    exists n hl hr hn,
      GetAccountByPath x db = Ok n /\
      HexToByteArray prim (Hash l) = Ok hl /\
      HexToByteArray prim (Hash r) = Ok hr /\
      GetParent prim hl hr = Ok hn /\
      HexToByteArray prim
        (Hash (if bool_decide (x = Path computed) then computed else n)) = Ok hn.

(** Two stores whose account rows have the same paths, row by row, and
    whose other tables are the same. *)
Definition same_paths (db db' : DB) : Prop :=
  map Path (user_accounts db') = map Path (user_accounts db) /\
  batches db' = batches db /\ params db' = params db /\ deposits db' = deposits db.

(** A node whose level is unset or is the length of its path. *)
Definition level_fits (acc : UserAccount) : Prop :=
  Level acc = 0 \/ Level acc = Z.of_nat (length (Path acc)).

(** Every node above a path is stored. *)
Definition ancestors_stored (path : pathstring) (db : DB) : Prop :=
  forall x, x `prefix_of` path -> x <> path -> exists n, GetAccountByPath x db = Ok n.

(** A node whose hash parses. *)
Definition hash_parses (acc : UserAccount) : Prop :=
  exists h, HexToByteArray prim (Hash acc) = Ok h.

(** The paths of the two children of each of the nodes [qs], left to
    right, and the paths of the nodes at depth [d], left to right. *)
Definition child_paths (qs : list pathstring) : list pathstring :=
  flat_map (fun q => [q ++ ["0"%char]; q ++ ["1"%char]]) qs.

Fixpoint all_paths (d : nat) : list pathstring :=
  match d with
  | O => [[]]
  | S d' => child_paths (all_paths d')
  end.

(** The rows [nodes] hold a parent for every pair of children among the
    rows [accs]: for each path of [qs], its two children are rows of
    [accs], its node is a row of [nodes], and the node's hash is the
    parent hash of the children's. *)
Definition parents_of (qs : list pathstring) (accs nodes : list UserAccount) : Prop :=
  forall q, q ∈ qs ->
    exists l r n hl hr hn,
      l ∈ accs /\ Path l = q ++ ["0"%char] /\
      r ∈ accs /\ Path r = q ++ ["1"%char] /\
      n ∈ nodes /\ Path n = q /\
      HexToByteArray prim (Hash l) = Ok hl /\
      HexToByteArray prim (Hash r) = Ok hr /\
      GetParent prim hl hr = Ok hn /\
      HexToByteArray prim (Hash n) = Ok hn.

(** The rows of a tree of depth [d] built from the leaves up to depth [n]:
    no path is stored twice, every row's level is the length of its path
    and its hash parses, no row lies above depth [n] or below depth [d],
    every path of the depths [n] to [d] is stored, the rows of depth [n]
    come in the order of their paths, and every stored pair of children
    below depth [n] has its parent. *)
Definition built_down_to (d n : nat) (rows : list UserAccount) : Prop :=
  NoDup (map Path rows) /\
  Forall (fun row => Level row = Z.of_nat (length (Path row))) rows /\
  Forall hash_parses rows /\
  Forall (fun row => (n <= length (Path row) <= d)%nat) rows /\
  (forall k p, (n <= k <= d)%nat -> p ∈ all_paths k ->
               exists row, row ∈ rows /\ Path row = p) /\
  map Path (filter (level_is (Z.of_nat n)) rows) = all_paths n /\
  (forall q l r,
      (n <= length q)%nat ->
      l ∈ rows -> Path l = q ++ ["0"%char] ->
      r ∈ rows -> Path r = q ++ ["1"%char] ->
      exists nd hl hr hn,
        nd ∈ rows /\ Path nd = q /\
        HexToByteArray prim (Hash l) = Ok hl /\
        HexToByteArray prim (Hash r) = Ok hr /\
        GetParent prim hl hr = Ok hn /\
        HexToByteArray prim (Hash nd) = Ok hn).

(** A tree of depth [d] as the store is meant to hold it: it is
    root-consistent, every row's level is the length of its path, a node
    is found at every path of at most [d] bits and at no longer path, and
    the hash of every node that is found parses. *)
Definition well_formed_tree (d : nat) (db : DB) : Prop :=
  root_consistent db /\
  levels_match db /\
  (forall p, is_bitpath p -> (length p <= d)%nat ->
             exists n, GetAccountByPath p db = Ok n) /\
  (forall p n, GetAccountByPath p db = Ok n ->
               (length p <= d)%nat /\ hash_parses n).

(** *** Writes *)

(** Runs a gorm write on the table [user_accounts]. *)
Definition on_accounts
    (w : list UserAccount -> option error * list UserAccount) : M DB (option error) :=
  fun db =>
    let '(err, rows) := w (user_accounts db) in
    (Return err, set_user_accounts db rows).

Definition updateAccount (newAcc : UserAccount) (path : pathstring)
  : M DB (option error) :=
  on_accounts (Gorm.Update (path_is path) (Gorm.assign newAcc)).

Definition UpdateParentWithHash (pathToParent : pathstring) (newHash : ByteArray)
  : M DB (option error) :=
  let tempAccount :=
    mkUserAccount 0 None pathToParent 0 0 (ByteArray_String prim newHash) 0
      EmptyString in
  updateAccount tempAccount pathToParent.

Definition UpdateRootNodeHashes (newRoot : ByteArray) : M DB (option error) :=
  let tempAccount :=
    mkUserAccount 0 None [] 0 0 (ByteArray_String prim newRoot) 0 EmptyString in
  updateAccount tempAccount (Path tempAccount).

Definition StoreNode (parentHash : ByteArray) (leftNode rightNode : UserAccount)
  : M DB (option error) :=
  let* err := updateAccount leftNode (Path leftNode) in
  match err with
  | Some e => ret (Some e)
  | None =>
      let* err := updateAccount rightNode (Path rightNode) in
      match err with
      | Some e => ret (Some e)
      | None => UpdateParentWithHash (GetParentPath (Path leftNode)) parentHash
      end
  end.

(** The loop of [StoreLeaf], from its [i]-th round on; it returns the node
    the loop ends on. *)
Fixpoint StoreLeaf_loop (path : pathstring) (i : nat) (siblings : list UserAccount)
    (computedNode : UserAccount) : M DB (result UserAccount) :=
  match siblings with
  | [] => ret (Ok computedNode)
  | sibling :: rest =>
      match GetNthBitFromRight path i with
      | Err e => panic e
      | Ok isComputedRightSibling =>
          let* stored :=
            (if isComputedRightSibling =? 0 then
               let* c := HashToByteArray computedNode in
               let* s := HashToByteArray sibling in
               match GetParent prim c s with
               | Err err => ret (Some err)
               | Ok parentHash => StoreNode parentHash computedNode sibling
               end
             else
               let* s := HashToByteArray sibling in
               let* c := HashToByteArray computedNode in
               match GetParent prim s c with
               | Err err => ret (Some err)
               | Ok parentHash => StoreNode parentHash sibling computedNode
               end) in
          match stored with
          | Some err => ret (Err err)
          | None =>
              let* parentAccount := gets (GetAccountByPath (GetParentPath (Path computedNode))) in
              match parentAccount with
              | Err err => ret (Err err)
              | Ok parentAccount => StoreLeaf_loop path (S i) rest parentAccount
              end
          end
      end
  end.

Definition StoreLeaf (account : UserAccount) (path : pathstring)
    (siblings : list UserAccount) : M DB (option error) :=
  let* computedNode := StoreLeaf_loop path 0 siblings account in
  match computedNode with
  | Err err => ret (Some err)
  | Ok computedNode =>
      let* newRoot := HashToByteArray computedNode in
      UpdateRootNodeHashes newRoot
  end.

Definition UpdateAccount (account : UserAccount) : M DB (option error) :=
  let account := CreateAccountHash account in
  let* siblingsErr := gets (GetSiblings (Path account)) in
  match siblingsErr with
  | (_, Some err) => ret (Some err)
  | (siblings, None) => StoreLeaf account (Path account) siblings
  end.

Definition AddNewPendingAccount (acc : UserAccount) : M DB (option error) :=
  on_accounts (Gorm.Create Gorm.defaults acc).

(** [InsertCoordinatorAccounts] works through a pointer: it also returns
    the account as it leaves it, which is as [Create] leaves it. *)
Definition InsertCoordinatorAccounts (acc : UserAccount) (depth : Z)
  : M DB (option error * UserAccount) :=
  let acc := UpdatePath acc (GenCoordinatorPath prim depth) in
  let acc := CreateAccountHash acc in
  let acc := set_Type acc TYPE_TERMINAL in
  let* err := on_accounts (Gorm.Create Gorm.defaults acc) in
  let* rows := gets user_accounts in
  ret (err, Gorm.reload acc rows).

Definition DeletePendingAccount (ID : Z) : M DB (option error) :=
  let* err := on_accounts (Gorm.Delete (id_status_is ID STATUS_PENDING)) in
  match err with
  | Some _ => ret (Some (ErrRecordNotFound "unable to delete record for ID"))
  | None => ret None
  end.

(** *** Deposit account handling *)

Definition AttachDepositInfo (root : ByteArray) : M DB (option error) :=
  let account :=
    mkUserAccount 0 None [] 0 0 EmptyString 0 (ByteArray_String prim root) in
  let* err :=
    on_accounts (Gorm.Update (status_is STATUS_PENDING) (Gorm.assign account)) in
  match err with
  | Some err => ret (Some err)
  | None => ret None
  end.

Definition GetPendingAccByDepositRoot (root : ByteArray) (db : DB)
  : result (list UserAccount) :=
  Gorm.FindAll (deposit_status_is (ByteArray_String prim root) STATUS_PENDING)
    (user_accounts db).

(** *** InitBalancesTree *)

(** [int(math.Exp2(float64(depth)))]: the power is exact as long as it is
    finite, and finite or not it does not fit an [int] from [depth = 63]
    on. *)
Definition exp2_int (depth : Z) : Z := int_of_float (2 ^ depth).

(** The first loop: [genesisAccounts[1..]] get their paths in place, each
    next to the one before.  It returns the slice as the loop leaves it. *)
Fixpoint assignPaths (accounts : list UserAccount) (prevNodePath : pathstring)
  : list UserAccount * option error :=
  match accounts with
  | [] => ([], None)
  | acc :: rest =>
      match GetAdjacentNodePath prim prevNodePath with
      | Err err => (acc :: rest, Some err)
      | Ok pathToAdjacentNode =>
          let acc := UpdatePath acc pathToAdjacentNode in
          let '(rest, err) := assignPaths rest (Path acc) in
          (acc :: rest, err)
      end
  end.

(** The inner loop of the second part: the parents of the rows [accs] of
    one level, two rows at a time.  [accs[i+1]] panics when a row is left
    without its neighbour. *)
Fixpoint nextLevel (accs : list UserAccount) : outcome (result (list UserAccount)) :=
  match accs with
  | [] => Return (Ok [])
  | l :: rest =>
      match HexToByteArray prim (Hash l) with
      | Err err => Return (Err err)
      | Ok leftHash =>
          match rest with
          | [] => Panic (RuntimeError "index out of range")
          | r :: rest' =>
              match HexToByteArray prim (Hash r) with
              | Err err => Return (Err err)
              | Ok rightHash =>
                  match GetParent prim leftHash rightHash with
                  | Err err => Return (Err err)
                  | Ok parentHash =>
                      let parentPath := GetParentPath (Path l) in
                      let newAccNode :=
                        NewAccountNode parentPath (ByteArray_String prim parentHash) in
                      match nextLevel rest' with
                      | Return (Ok nextLevelAccounts) =>
                          Return (Ok (newAccNode :: nextLevelAccounts))
                      | other => other
                      end
                  end
              end
          end
      end
  end.

(** The second part, [for i := depth; i > 0; i--], with [n] levels left. *)
Fixpoint merkelise (n : nat) : M DB (option error) :=
  match n with
  | O => ret None
  | S n' =>
      let* accs := gets (GetAccountsAtDepth (Z.of_nat n)) in
      match accs with
      | Err err => ret (Some err)
      | Ok accs =>
          match nextLevel accs with
          | Panic e => panic e
          | Return (Err err) => ret (Some err)
          | Return (Ok nextLevelAccounts) =>
              let* err := on_accounts (Gorm.BulkInsert Gorm.defaults nextLevelAccounts) in
              match err with
              | Some _ => ret (Some ErrUnableToInsertAccounts)
              | None => merkelise n'
              end
          end
      end
  end.

(** [InitBalancesTree] writes into the caller's slice: it returns the
    slice as it leaves it next to its error. *)
Definition InitBalancesTree (depth : Z) (genesisAccounts : list UserAccount)
  : M DB (option error * list UserAccount) :=
  let totalLeaves := exp2_int depth in
  if negb (totalLeaves =? Z.of_nat (length genesisAccounts)) then
    ret (Some ErrDepthLeavesMismatch, genesisAccounts)
  else
    match genesisAccounts with
    | [] => panic (RuntimeError "index out of range")
    | coordinator :: others =>
        let* inserted := InsertCoordinatorAccounts coordinator depth in
        let '(err, coordinator) := inserted in
        match err with
        | Some err => ret (Some err, coordinator :: others)
        | None =>
            let '(others, err) := assignPaths others (Path coordinator) in
            match err with
            | Some err => ret (Some err, coordinator :: others)
            | None =>
                let insertRecords := others in
                let* err := on_accounts (Gorm.BulkInsert Gorm.defaults insertRecords) in
                match err with
                | Some _ => ret (Some ErrUnableToInsertAccounts, coordinator :: others)
                | None =>
                    let* err := merkelise (Z.to_nat depth) in
                    ret (err, coordinator :: others)
                end
            end
        end
    end.

End Account.

End Core.

(** ** Package listener: the syncer *)

Module Listener.
Import Core.

Definition ZEROROOT : string :=
  "0x0000000000000000000000000000000000000000000000000000000000000000".

(** [x.Uint64()] and [x.Int64()] of a [*big.Int]: the low 64 bits of the
    magnitude, for [Int64] with the sign put back. *)
Definition BigInt_Uint64 (x : Z) : Z := Z.abs x mod 2 ^ 64.
Definition BigInt_Int64 (x : Z) : Z :=
  let v := wrap_int (Z.abs x mod 2 ^ 64) in
  if x <? 0 then wrap_int (- v) else v.

(** *** EventByID *)

(** [abi.Event], as far as the syncer looks at it. *)
Record Event : Type := mkEvent {
  Event_Name : string;
  Event_Inputs : list string
}.

(** [abi.ABI] *)
Record ABI : Type := mkABI {
  Events : gmap string Event
}.

Section EventByID.
(** [event.ID().Bytes()], a hash of the event's signature computed by
    go-ethereum. *)
Context (Event_ID : Event -> list Z).
(** The order in which a [for ... range] visits the entries of a map; Go
    leaves it open. *)
Context (range_map : gmap string Event -> list (string * Event)).

(** [bytes.Equal] *)
Definition bytes_Equal (a b : list Z) : bool := bool_decide (a = b).

Fixpoint EventByID_loop (entries : list (string * Event)) (sigdata : list Z)
  : option Event :=
  match entries with
  | [] => None
  | (_, event) :: rest =>
      if bytes_Equal (Event_ID event) sigdata then Some event
      else EventByID_loop rest sigdata
  end.

(** [None] is the [nil] result. *)
Definition EventByID (abiObject : ABI) (sigdata : list Z) : option Event :=
  EventByID_loop (range_map (Events abiObject)) sigdata.

End EventByID.

(** *** Events and collaborators *)

(** [ethTypes.Log] *)
Record Log : Type := mkLog {
  Topics : list (list Z);
  Log_Data : list Z;
  TxHash : list Z
}.

Record LoggerDepositLeafMerged : Type := mkLoggerDepositLeafMerged {
  Left : ByteArray;
  Right : ByteArray;
  NewRoot : ByteArray
}.

Record LoggerNewBatch : Type := mkLoggerNewBatch {
  Event_Committer : string;
  Txroot : ByteArray;
  UpdatedRoot : ByteArray;
  Index : Z
}.

(** What the syncer takes from elsewhere: two constants of [core], the log
    decoder [common.UnpackLog], the calls on [loadedBazooka], and the
    parts of [core] that are not among the sources ([core.Tx] with
    [NewTx], [GetVerificationData] and [Apply]; [OnDepositLeafMerge],
    [GetDepositNodeAndSiblings] and [ConcatTxs]). *)
Record Collaborators : Type := mkCollaborators {
  BATCH_COMMITTED : Z;
  TX_TRANSFER_TYPE : Z;
  UnpackLog_DepositLeafMerged : ABI -> string -> Log -> result LoggerDepositLeafMerged;
  UnpackLog_NewBatch : ABI -> string -> Log -> result LoggerNewBatch;
  hex_EncodeToString : list Z -> string;
  FetchBatchInputData : list Z -> result (list (list Z));
  DecompressTransferTxs :
    list (list Z) -> result (list Z * list Z * list Z * list (list Z));
  DecodeAccount : list Z -> result (Z * Z * Z * Z);
  EncodeTransferTx : Z -> Z -> Z -> Z -> Z -> Z -> result (list Z);
  Tx : Type;
  AccountMerkleProof : Type;
  NewTx : Z -> Z -> Z -> list Z -> string -> Tx;
  GetVerificationData : Tx -> DB -> result (AccountMerkleProof * AccountMerkleProof);
  ApplyTx : AccountMerkleProof -> Tx -> result (list Z * ByteArray);
  Tx_Apply : Tx -> list Z -> list Z -> M DB (option error);
  OnDepositLeafMerge : ByteArray -> ByteArray -> ByteArray -> M DB (result Z);
  GetDepositNodeAndSiblings : DB -> result (UserAccount * list UserAccount);
  ConcatTxs : list (list Z) -> list Z
}.

(** The syncer: its database, and what it sent out -- the finalisation
    requests handed to [FireDepositFinalisation] and the lines written with
    [Logger.Error] (the [Info] and [Debug] lines are left out). *)
Record Syncer : Type := mkSyncer {
  DBInstance : DB;
  fired : list (UserAccount * list UserAccount * Z);
  logged_errors : list string
}.

Definition liftDB {A : Type} (m : M DB A) : M Syncer A :=
  fun s =>
    let '(r, db) := m (DBInstance s) in
    (r, mkSyncer db (fired s) (logged_errors s)).

Definition fire (request : UserAccount * list UserAccount * Z) : M Syncer unit :=
  modify (fun s => mkSyncer (DBInstance s) (fired s ++ [request]) (logged_errors s)).

Definition Logger_Error (msg : string) : M Syncer unit :=
  modify (fun s => mkSyncer (DBInstance s) (fired s) (logged_errors s ++ [msg])).

(** [gorm.IsRecordNotFoundError] *)
Definition IsRecordNotFoundError (err : error) : bool :=
  match err with
  | GormRecordNotFound => true
  | _ => false
  end.

(** *** The batch ledger and the parameters

    [GetParams], [GetBatchByIndex], [AddNewBatch] and [CommitBatch] are
    methods of [*DB] that are not among the sources. *)

(** Modelled from the spec: [GetParams] is missing; by 3 the parameters are
    a "configuration snapshot" read from the store, which may not hold
    one yet. *)
Definition GetParams (db : DB) : result Params :=
  match params db with
  | Some p => Ok p
  | None => Err GormRecordNotFound
  end.

(** Modelled from the spec: [GetBatchByIndex] is missing; by 4.3
    [getByIndex] "fails with NotFound if absent", the signal the
    reconciler tests with [gorm.IsRecordNotFoundError]. *)
Definition GetBatchByIndex (index : Z) (db : DB) : result Batch :=
  match batches db !! index with
  | Some batch => Ok batch
  | None => Err GormRecordNotFound
  end.

(** Modelled from the spec: [AddNewBatch] is missing; by 4.3
    [recordCommitted] "inserts a new batch; fails with DuplicateBatch if
    batchID already exists". *)
Definition AddNewBatch (batch : Batch) : M DB (option error) :=
  fun db =>
    match batches db !! BatchID batch with
    | Some _ => (Return (Some ErrDuplicateBatch), db)
    | None => (Return None, set_batches db (<[BatchID batch := batch]> (batches db)))
    end.

(** Modelled from the spec: [CommitBatch] is missing; by 4.3 the ledger's
    [transitionStatus] "enforces forward-only transition; fails with
    InvalidTransition on regression or no-op", and by 3 "no batch
    regresses status".  The batch kept under the id takes the status of
    the committed one where that is a step forward, the statuses being
    numbered in the order of the lifecycle, and keeps the rest of its
    record; an id the ledger does not have is not found. *)
Definition CommitBatch (batch : Batch) : M DB (option error) :=
  fun db =>
    match batches db !! BatchID batch with
    | Some old =>
        if Batch_Status old <? Batch_Status batch then
          (Return None,
           set_batches db
             (<[BatchID batch := set_Batch_Status old (Batch_Status batch)]> (batches db)))
        else (Return (Some ErrInvalidTransition), db)
    | None => (Return (Some GormRecordNotFound), db)
    end.

(** Modelled from the spec: [Tx.Apply] is missing; by 4.4 step 2 the
    sender's and the receiver's leaves are loaded by account id and "both
    updated leaves" are persisted "via the Account Tree Store's
    updateLeaf".  [from] and [to] are the transaction's two account ids. *)
Definition Tx_Apply_spec (prim : Primitives) (from to : Z)
    (updatedFrom updatedTo : list Z) : M DB (option error) :=
  let* fromAcc := gets (GetAccountByID from) in
  match fromAcc with
  | Err err => ret (Some err)
  | Ok fromAcc =>
      let* err := UpdateAccount prim (set_Data fromAcc (Some updatedFrom)) in
      match err with
      | Some err => ret (Some err)
      | None =>
          let* toAcc := gets (GetAccountByID to) in
          match toAcc with
          | Err err => ret (Some err)
          | Ok toAcc => UpdateAccount prim (set_Data toAcc (Some updatedTo))
          end
      end
  end.

(** Modelled from the spec: [OnDepositLeafMerge] is missing; by 4.2
    [mergeLeaf] "increments height by one level" and "fails with
    HeightExceeded if newHeight > maxDepositSubTreeHeight". *)
Definition OnDepositLeafMerge_spec (prim : Primitives)
    (left right newRoot : ByteArray) : M DB (result Z) :=
  fun db =>
    match GetParams db with
    | Err err => (Return (Err err), db)
    | Ok p =>
        let newHeight := (height (deposits db) + 1) mod 2 ^ 64 in
        if MaxDepositSubTreeHeight p <? newHeight then
          (Return (Err ErrHeightExceeded), db)
        else
          (Return (Ok newHeight),
           set_deposits db (mkDepositSubtree newHeight (ByteArray_String prim newRoot)))
    end.

(** *** The handlers *)

Section Handlers.
Context (prim : Primitives) (c : Collaborators).

Definition SendDepositFinalisationTx : M Syncer unit :=
  let* params := gets (fun s => GetParams (DBInstance s)) in
  match params with
  | Err _ => ret tt
  | Ok params =>
      let* found := gets (fun s => GetDepositNodeAndSiblings c (DBInstance s)) in
      match found with
      | Err _ => ret tt
      | Ok (nodeToBeReplaced, siblings) =>
          fire (nodeToBeReplaced, siblings, MaxDepositSubTreeHeight params)
      end
  end.

Definition processDepositLeafMerged (eventName : string) (abiObject : ABI)
    (vLog : Log) : M Syncer unit :=
  match UnpackLog_DepositLeafMerged c abiObject eventName vLog with
  | Err err => panic err
  | Ok event =>
      let leftLeaf := Left event in
      let rightLeaf := Right event in
      let newRoot := NewRoot event in
      let* merged := liftDB (OnDepositLeafMerge c leftLeaf rightLeaf newRoot) in
      match merged with
      | Err err => panic err
      | Ok newheight =>
          let* params := gets (fun s => GetParams (DBInstance s)) in
          match params with
          | Err err => panic err
          | Ok params =>
              if newheight =? MaxDepositSubTreeHeight params then
                SendDepositFinalisationTx
              else ret tt
          end
      end
  end.

(** One round of the loop of [ApplyTxsFromBatch]. *)
Definition applyTx (from to amount : list Z) (sig : list (list Z)) (i : nat)
  : M DB (option error) :=
  match from !! i with
  | None => panic (RuntimeError "index out of range")
  | Some from_i =>
  let* fromAccount := gets (GetAccountByID (BigInt_Uint64 from_i)) in
  match fromAccount with
  | Err err => ret (Some err)
  | Ok fromAccount =>
  match DecodeAccount c (bytes_of (Data fromAccount)) with
  | Err err => ret (Some err)
  | Ok (_, _, nonce, token) =>
  match to !! i with
  | None => panic (RuntimeError "index out of range")
  | Some to_i =>
  match amount !! i with
  | None => panic (RuntimeError "index out of range")
  | Some amount_i =>
  match EncodeTransferTx c (BigInt_Int64 from_i) (BigInt_Int64 to_i)
          (BigInt_Int64 token) (BigInt_Int64 nonce) (BigInt_Int64 amount_i)
          (TX_TRANSFER_TYPE c) with
  | Err err => ret (Some err)
  | Ok txData =>
  match sig !! i with
  | None => panic (RuntimeError "index out of range")
  | Some sig_i =>
  let coreTx :=
    NewTx c (AccountID fromAccount) (BigInt_Uint64 to_i) (TX_TRANSFER_TYPE c)
      txData (hex_EncodeToString c sig_i) in
  let* proofs := gets (GetVerificationData c coreTx) in
  match proofs with
  | Err err => ret (Some err)
  | Ok (fromMP, toMP) =>
  match ApplyTx c fromMP coreTx with
  | Err err => ret (Some err)
  | Ok (updatedFromAccData, _) =>
  match ApplyTx c toMP coreTx with
  | Err err => ret (Some err)
  | Ok (updatedToAccData, _) =>
      Tx_Apply c coreTx updatedFromAccData updatedToAccData
  end end end end end end end end end end.

(** [for i := range txs], over the indices still to visit. *)
Fixpoint applyTxs (from to amount : list Z) (sig : list (list Z))
    (indices : list nat) : M DB (option error) :=
  match indices with
  | [] => ret None
  | i :: rest =>
      let* err := applyTx from to amount sig i in
      match err with
      | Some err => ret (Some err)
      | None => applyTxs from to amount sig rest
      end
  end.

Definition ApplyTxsFromBatch (txs : list (list Z)) : M DB (option error) :=
  if (length txs =? 0)%nat then ret None
  else
    match DecompressTransferTxs c txs with
    | Err err => ret (Some err)
    | Ok (from, to, amount, sig) =>
        applyTxs from to amount sig (seq 0 (length txs))
    end.

(** The batch both branches of [processNewBatch] build. *)
Definition newBatchOf (event : LoggerNewBatch) (txs : list (list Z))
    (params : Params) : Batch :=
  mkBatch
    (BigInt_Uint64 (Index event))
    (ByteArray_String prim (UpdatedRoot event))
    (ByteArray_String prim (Txroot event))
    (ConcatTxs c txs)
    (Event_Committer event)
    (Params_StakeAmount params)
    (wrap_int (FinalisationTime params))
    (BATCH_COMMITTED c).

Definition processNewBatch (eventName : string) (abiObject : ABI) (vLog : Log)
  : M Syncer unit :=
  match UnpackLog_NewBatch c abiObject eventName vLog with
  | Err err => panic err
  | Ok event =>
  let* params := gets (fun s => GetParams (DBInstance s)) in
  match params with
  | Err _ => ret tt
  | Ok params =>
  let* txs :=
    (if negb (String.eqb ZEROROOT (ByteArray_String prim (Txroot event))) then
       match FetchBatchInputData c (TxHash vLog) with
       | Err err => panic err
       | Ok txs => ret txs
       end
     else ret []) in
  let* batch := gets (fun s => GetBatchByIndex (BigInt_Uint64 (Index event)) (DBInstance s)) in
  match batch with
  | Err err =>
      if IsRecordNotFoundError err then
        let* err := liftDB (ApplyTxsFromBatch txs) in
        match err with
        | Some err => panic err
        | None =>
            let newBatch := newBatchOf event txs params in
            let* err := liftDB (AddNewBatch newBatch) in
            match err with
            | Some err => panic err
            | None => ret tt
            end
        end
      else
        Logger_Error "Unable to fetch batch"
  | Ok batch =>
      if negb (Batch_Status batch =? BATCH_COMMITTED c) then
        let* _ :=
          (if negb (String.eqb (StateRoot batch)
                      (ByteArray_String prim (UpdatedRoot event)))
           then ret tt (* the branch holds only the comment "State root mismatch error" *)
           else ret tt) in
        let newBatch := newBatchOf event txs params in
        let* _ := liftDB (CommitBatch newBatch) in
        ret tt
      else ret tt
  end end end.

End Handlers.

End Listener.

(** ** A small instance

    Stand-ins for the collaborators, simple enough to run the handlers on
    a two-leaf tree: an account's data is [[id; balance; nonce; token]], a
    compressed transfer is [[from; to; amount]], a hash is the bytes it
    was taken of (each cut to eight bits), the parent of two hashes is the
    two put together, and a
    [ByteArray] is rendered as "0x" and two hex digits for each byte. *)

Module Demo.
Import Core Listener.

Definition hex_digit (n : Z) : ascii :=
  nth (Z.to_nat n) (list_ascii_of_string "0123456789abcdef") "0"%char.

Definition hex_value (ch : ascii) : option Z :=
  let n := Z.of_N (N_of_ascii ch) in
  if (48 <=? n) && (n <=? 57) then Some (n - 48)
  else if (97 <=? n) && (n <=? 102) then Some (n - 87)
  else None.

Definition demoString (b : ByteArray) : string :=
  String "0" (String "x"
    (string_of_list_ascii
       (concat (map (fun z => [hex_digit (z / 16 mod 16); hex_digit (z mod 16)]) b)))).

Fixpoint parse_hex (digits : list ascii) : option (list Z) :=
  match digits with
  | [] => Some []
  | hi :: lo :: rest =>
      match hex_value hi, hex_value lo, parse_hex rest with
      | Some h, Some l, Some bytes => Some (16 * h + l :: bytes)
      | _, _, _ => None
      end
  | [_] => None
  end.

Definition demoHex (s : string) : external ByteArray :=
  match s with
  | String "0" (String "x" rest) =>
      match parse_hex (list_ascii_of_string rest) with
      | Some bytes => Done bytes
      | None => Failed "invalid hex string"
      end
  | _ => Failed "invalid hex string"
  end.

Fixpoint increment (bits : list ascii) : option (list ascii) :=
  match bits with
  | [] => None
  | b :: rest =>
      if Ascii.eqb b "0" then Some ("1"%char :: rest)
      else match increment rest with
           | Some rest' => Some ("0"%char :: rest')
           | None => None
           end
  end.

Definition demoAdjacent (path : pathstring) : external pathstring :=
  match increment (rev path) with
  | Some bits => Done (rev bits)
  | None => Failed "no adjacent node"
  end.

Definition to_bytes (zs : list Z) : list Z := map (fun z => z mod 256) zs.

Definition demoPrim : Primitives :=
  mkPrimitives
    (fun data => to_bytes data)
    (fun l r => Done (to_bytes (l ++ r)))
    demoString
    demoHex
    (fun depth => replicate (Z.to_nat depth) "0"%char)
    demoAdjacent
    (replicate 8 "1"%char).

Record demoTx : Type := mkDemoTx {
  From : Z;
  To : Z;
  Tx_Type : Z;
  Tx_Data : list Z;
  Signature : string
}.

Definition demoDecompress (txs : list (list Z))
  : result (list Z * list Z * list Z * list (list Z)) :=
  Ok (map (fun tx => nth 0 tx 0) txs,
      map (fun tx => nth 1 tx 0) txs,
      map (fun tx => nth 2 tx 0) txs,
      map (fun tx => []) txs).

Definition demoDecodeAccount (data : list Z) : result (Z * Z * Z * Z) :=
  match data with
  | [id; balance; nonce; token] => Ok (id, balance, nonce, token)
  | _ => Err (ErrCollaborator "invalid account data")
  end.

Definition demoVerificationData (tx : demoTx) (db : DB)
  : result (list Z * list Z) :=
  match GetAccountByID (From tx) db with
  | Err err => Err err
  | Ok fromAcc =>
      match GetAccountByID (To tx) db with
      | Err err => Err err
      | Ok toAcc => Ok (bytes_of (Data fromAcc), bytes_of (Data toAcc))
      end
  end.

(** The amount is the fifth field of the encoded transfer. *)
Definition demoApplyTx (account : list Z) (tx : demoTx)
  : result (list Z * ByteArray) :=
  let amount := nth 4 (Tx_Data tx) 0 in
  match account with
  | [id; balance; nonce; token] =>
      if id =? From tx then
        if balance <? amount then Err (ErrCollaborator "insufficient balance")
        else Ok ([id; balance - amount; nonce + 1; token], [])
      else Ok ([id; balance + amount; nonce; token], [])
  | _ => Err (ErrCollaborator "invalid account data")
  end.

(** The node a deposit subtree would replace is looked up as an empty node
    ([emptyHash]) at [level], with its siblings. *)
Definition demoDepositNode (emptyHash : string) (level : Z) (db : DB)
  : result (UserAccount * list UserAccount) :=
  match GetDepositSubTreeRoot emptyHash level db with
  | Err err => Err err
  | Ok node =>
      match GetSiblings (Path node) db with
      | (_, Some err) => Err err
      | (siblings, None) => Ok (node, siblings)
      end
  end.

(** A [NewBatch] log carries [[index; txroot; updatedRoot]] and a
    [DepositLeafMerged] log [[left; right; newRoot]], one byte each; the
    call data of a batch is handed over as [calldata]. *)
Definition demoUnpackNewBatch (_ : ABI) (_ : string) (vLog : Log)
  : result LoggerNewBatch :=
  match Log_Data vLog with
  | [index; txroot; updatedRoot] =>
      Ok (mkLoggerNewBatch "0xc0" [txroot] [updatedRoot] index)
  | _ => Err (ErrCollaborator "abi: cannot unpack")
  end.

Definition demoUnpackDepositLeafMerged (_ : ABI) (_ : string) (vLog : Log)
  : result LoggerDepositLeafMerged :=
  match Log_Data vLog with
  | [l; r; newRoot] => Ok (mkLoggerDepositLeafMerged [l] [r] [newRoot])
  | _ => Err (ErrCollaborator "abi: cannot unpack")
  end.

Definition demoCollab (calldata : list (list Z)) : Collaborators :=
  mkCollaborators
    1 1
    demoUnpackDepositLeafMerged
    demoUnpackNewBatch
    demoString
    (fun _ => Ok calldata)
    demoDecompress
    demoDecodeAccount
    (fun from to token nonce amount txType =>
       Ok [from; to; token; nonce; amount; txType])
    demoTx
    (list Z)
    mkDemoTx
    demoVerificationData
    demoApplyTx
    (fun tx updatedFrom updatedTo =>
       Tx_Apply_spec demoPrim (From tx) (To tx) updatedFrom updatedTo)
    (OnDepositLeafMerge_spec demoPrim)
    (demoDepositNode (demoString []) 0)
    (fun txs => concat txs).

Definition demoParams : Params := mkParams 32 2 1 100.

Definition emptyDB : DB :=
  mkDB [] (∅ : gmap Z Batch) (Some demoParams) (mkDepositSubtree 0 EmptyString).

(** Four genesis accounts, as in the scenario of 8: account 1 holds 100,
    the others hold nothing. *)
Definition genesisAccount (id balance : Z) : UserAccount :=
  NewUserAccount demoPrim id STATUS_ACTIVE [] (Some [id; balance; 0; 7]).

Definition genesisAccounts : list UserAccount :=
  [genesisAccount 1 100; genesisAccount 2 0; genesisAccount 3 0; genesisAccount 4 0].

(** The store after [InitBalancesTree(2, genesisAccounts)]. *)
Definition genesisDB : DB :=
  snd (InitBalancesTree demoPrim 2 genesisAccounts emptyDB).

(** Two events, told apart by the length of their names. *)
Definition demoEventID (event : Event) : list Z :=
  [Z.of_nat (String.length (Event_Name event))].

Definition demoABI : ABI :=
  mkABI (<["NewBatch" := mkEvent "NewBatch" ["uint256"]]>
           (<["RegisteredToken" := mkEvent "RegisteredToken" ["address"]]> ∅)).

(** A ledger that holds batch 5 as committed with state root "0xaa". *)
Definition committedDB : DB :=
  set_batches genesisDB
    (<[5 := mkBatch 5 "0xaa" "0x01" [] "0xc0" 32 100 1]> ∅).

Definition demoSyncer (db : DB) : Syncer := mkSyncer db [] [].

(** The [NewBatch] log of batch 5, with state root "0xbb", whose call data
    is one transfer of 30 from account 1 to account 2. *)
Definition batchLog : Log := mkLog [] [5; 1; 187] [].
Definition batchCollab : Collaborators := demoCollab [[1; 2; 30]].

(** The syncer after the event was processed once on the genesis store. *)
Definition afterBatch : Syncer :=
  snd (processNewBatch demoPrim batchCollab "NewBatch" demoABI batchLog
         (demoSyncer genesisDB)).

(** The genesis store after the transfer of 30 from account 1 to account
    2. *)
Definition afterTransfer : DB :=
  snd (ApplyTxsFromBatch batchCollab [[1; 2; 30]] genesisDB).

(** A tree of depth 0 whose only node is empty: the place a deposit
    subtree of height 0 can take. *)
Definition emptyTreeDB : DB :=
  mkDB [EmptyAccount demoPrim] (∅ : gmap Z Batch) (Some demoParams)
    (mkDepositSubtree 0 EmptyString).

Definition mergeLog : Log := mkLog [] [1; 2; 3] [].

(** The first leaf of the genesis store with 30 taken from its balance,
    and the store once it is written. *)
Definition updatedSender : UserAccount :=
  mkUserAccount 1 (Some [1; 70; 1; 7]) ["0"; "0"]%char 1 1 "0x01640007" 2 EmptyString.

Definition afterUpdate : DB := snd (UpdateAccount demoPrim updatedSender genesisDB).

(** The genesis store with two deposits waiting, the first of them tagged
    with the deposit root [[7]]. *)
Definition pendingDB : DB :=
  snd (AddNewPendingAccount (NewPendingUserAccount demoPrim 9 (Some [9; 5; 0; 7]))
         (snd (AttachDepositInfo demoPrim [7]
                 (snd (AddNewPendingAccount
                         (NewPendingUserAccount demoPrim 8 (Some [8; 5; 0; 7])) genesisDB))))).

(** The root of the store after the transfer, and a collaborator whose log
    decoder reads it off the [NewBatch] log as the state root of batch
    5. *)
Definition transferRoot : ByteArray :=
  [1; 70; 1; 7; 2; 30; 0; 7; 3; 0; 0; 7; 4; 0; 0; 7].

Definition selfSubmittedCollab : Collaborators :=
  mkCollaborators
    (BATCH_COMMITTED batchCollab) (TX_TRANSFER_TYPE batchCollab)
    (UnpackLog_DepositLeafMerged batchCollab)
    (fun _ _ _ => Ok (mkLoggerNewBatch "0xc0" [1] transferRoot 5))
    (hex_EncodeToString batchCollab) (FetchBatchInputData batchCollab)
    (DecompressTransferTxs batchCollab)
    (DecodeAccount batchCollab) (EncodeTransferTx batchCollab)
    (Tx batchCollab) (AccountMerkleProof batchCollab) (NewTx batchCollab)
    (GetVerificationData batchCollab) (ApplyTx batchCollab) (Tx_Apply batchCollab)
    (OnDepositLeafMerge batchCollab) (GetDepositNodeAndSiblings batchCollab)
    (ConcatTxs batchCollab).

(** A collaborator whose decoder returns one transfer, of 30 from account
    1 to account 2, however many transactions it is given. *)
Definition shortCollab : Collaborators :=
  mkCollaborators
    (BATCH_COMMITTED batchCollab) (TX_TRANSFER_TYPE batchCollab)
    (UnpackLog_DepositLeafMerged batchCollab) (UnpackLog_NewBatch batchCollab)
    (hex_EncodeToString batchCollab) (FetchBatchInputData batchCollab)
    (fun _ => Ok ([1], [2], [30], [[]]))
    (DecodeAccount batchCollab) (EncodeTransferTx batchCollab)
    (Tx batchCollab) (AccountMerkleProof batchCollab) (NewTx batchCollab)
    (GetVerificationData batchCollab) (ApplyTx batchCollab) (Tx_Apply batchCollab)
    (OnDepositLeafMerge batchCollab) (GetDepositNodeAndSiblings batchCollab)
    (ConcatTxs batchCollab).

(** The entries of a map, last to first. *)
Definition reversed_range (m : gmap string Event) : list (string * Event) :=
  reverse (map_to_list m).

End Demo.

(** * Theorems *)

(** ** Package common *)

Section CommonFacts.
Import Common.

Lemma byte_mod (v : Z) : byte v = v mod 256.
Proof.
  unfold byte. change 255 with (Z.ones 8).
  rewrite Z.land_ones by lia. reflexivity.
Qed.

Lemma UintToByte_bytes (a : Z) :
  UintToByte a =
  [a mod 256; (a / 2 ^ 8) mod 256; (a / 2 ^ 16) mod 256; (a / 2 ^ 24) mod 256].
Proof.
  unfold UintToByte, PutUint32, make. cbn [replicate].
  rewrite !byte_mod, !Z.shiftr_div_pow2 by lia. reflexivity.
Qed.

Lemma UintTo2Byte_bytes (a : Z) :
  UintTo2Byte a = [a mod 256; (a / 2 ^ 8) mod 256].
Proof.
  unfold UintTo2Byte. fold (UintToByte a). rewrite UintToByte_bytes. reflexivity.
Qed.

Lemma le_value_two_bytes (a : Z) :
  le_value [a mod 256; (a / 2 ^ 8) mod 256] = a mod 2 ^ 16.
Proof.
  cbn [le_value]. change (2 ^ 16) with (256 * 256). change (2 ^ 8) with 256.
  rewrite Z.rem_mul_r by lia. lia.
Qed.

(** C10.  [UintTo2Byte] truncates without any error: for every 32-bit
    unsigned [a] the result is the first two bytes of the four-byte
    little-endian encoding of [a], it is the little-endian encoding of
    [a mod 2^16], so the upper sixteen bits of [a] play no part in it, and
    from 65536 on the two bytes no longer encode [a]. *)
Theorem UintTo2Byte_truncates (a : Z) :
  in_uint32 a ->
  UintTo2Byte a = take 2 (UintToByte a) /\
  length (UintTo2Byte a) = 2%nat /\
  le_value (UintTo2Byte a) = a mod 2 ^ 16 /\
  UintTo2Byte a = UintTo2Byte (a mod 2 ^ 16) /\
  (65536 <= a -> le_value (UintTo2Byte a) <> a).
Proof.
  intros [Hlo Hhi].
  assert (Hval : le_value (UintTo2Byte a) = a mod 2 ^ 16)
    by (rewrite UintTo2Byte_bytes; apply le_value_two_bytes).
  split; [|split; [|split; [|split]]].
  - rewrite UintTo2Byte_bytes, UintToByte_bytes. reflexivity.
  - rewrite UintTo2Byte_bytes. reflexivity.
  - exact Hval.
  - rewrite !UintTo2Byte_bytes. change (2 ^ 16) with (256 * 256).
    change (2 ^ 8) with 256. f_equal; [|f_equal].
    + Z.to_euclidean_division_equations; lia.
    + Z.to_euclidean_division_equations; lia.
  - intros Hbig. rewrite Hval.
    pose proof (Z.mod_pos_bound a (2 ^ 16) ltac:(lia)). lia.
Qed.

Lemma UintTo2Byte_truncates_witness :
  UintTo2Byte 305419896 = [120; 86] /\
  le_value (UintTo2Byte 305419896) = 305419896 mod 2 ^ 16.
Proof.
  split; [reflexivity|].
  apply (UintTo2Byte_truncates 305419896). unfold in_uint32. lia.
Defined.

Lemma pow10_int_small (e : Z) : 0 <= e <= 18 -> pow10_int e = 10 ^ e.
Proof.
  intros He. unfold pow10_int, int_of_float, int_min, int_max.
  assert (0 < 10 ^ e) by (apply Z.pow_pos_nonneg; lia).
  assert (10 ^ e <= 10 ^ 18) by (apply Z.pow_le_mono_r; lia).
  destruct (Z.ltb_spec e 0); [lia|].
  destruct (Z.leb_spec (- 2 ^ 63) (10 ^ e)); [|lia].
  destruct (Z.leb_spec (10 ^ e) (2 ^ 63 - 1)); [reflexivity|lia].
Qed.

Lemma wrap_int_id (z : Z) : in_int z -> wrap_int z = z.
Proof.
  unfold in_int, int_min, int_max, wrap_int. intros Hz.
  rewrite Z.mod_small by lia. lia.
Qed.

Lemma digit_trunc_bound (num d e : Z) :
  0 < d -> 0 < e ->
  Z.min 0 num <= Z.quot (Z.rem num d) e <= Z.max 0 num.
Proof.
  intros Hd He.
  destruct (Z.le_gt_cases 0 num) as [Hn|Hn].
  - rewrite Z.rem_mod_nonneg by lia.
    pose proof (Z.mod_le num d ltac:(lia) ltac:(lia)).
    pose proof (Z.mod_pos_bound num d ltac:(lia)).
    set (r := num mod d) in *. clearbody r.
    rewrite Z.quot_div_nonneg by lia.
    pose proof (Z.div_le_upper_bound r e r ltac:(lia) ltac:(nia)).
    pose proof (Z.div_pos r e ltac:(lia) ltac:(lia)). lia.
  - assert (Hr : Z.rem num d = - ((- num) mod d)).
    { replace num with (- (- num)) at 1 by lia. rewrite Z.rem_opp_l by lia.
      rewrite Z.rem_mod_nonneg by lia. reflexivity. }
    rewrite Hr. clear Hr.
    pose proof (Z.mod_le (- num) d ltac:(lia) ltac:(lia)).
    pose proof (Z.mod_pos_bound (- num) d ltac:(lia)).
    set (r := (- num) mod d) in *. clearbody r.
    rewrite Z.quot_opp_l by lia.
    rewrite Z.quot_div_nonneg by lia.
    pose proof (Z.div_le_upper_bound r e r ltac:(lia) ltac:(nia)).
    pose proof (Z.div_pos r e ltac:(lia) ltac:(lia)). lia.
Qed.

Lemma decimal_digit_nonneg (num place : Z) :
  0 <= num -> 1 <= place ->
  decimal_digit_trunc num place = decimal_digit num place /\
  decimal_digit num place = (num / 10 ^ (place - 1)) mod 10 /\
  0 <= decimal_digit num place <= 9.
Proof.
  intros Hn Hp. unfold decimal_digit_trunc, decimal_digit.
  assert (He : 0 < 10 ^ (place - 1)) by (apply Z.pow_pos_nonneg; lia).
  assert (Hd : 10 ^ place = 10 ^ (place - 1) * 10).
  { replace place with ((place - 1) + 1) at 1 by lia.
    rewrite Z.pow_add_r by lia. reflexivity. }
  assert (Hm : 0 <= num mod 10 ^ place).
  { apply Z.mod_pos_bound. lia. }
  assert (Hdig : num mod 10 ^ place / 10 ^ (place - 1) = (num / 10 ^ (place - 1)) mod 10).
  { rewrite Hd, Z.rem_mul_r by lia.
    rewrite Z.add_comm, Z.mul_comm, Z.div_add_l by lia.
    rewrite (Z.div_small (num mod 10 ^ (place - 1))) by (apply Z.mod_pos_bound; lia).
    lia. }
  split; [|split].
  - rewrite Z.rem_mod_nonneg by lia. rewrite Z.quot_div_nonneg by lia. reflexivity.
  - exact Hdig.
  - rewrite Hdig. pose proof (Z.mod_pos_bound (num / 10 ^ (place - 1)) 10 ltac:(lia)). lia.
Qed.

Lemma decimal_digit_trunc_opp (num place : Z) :
  1 <= place ->
  decimal_digit_trunc num place = - decimal_digit_trunc (- num) place.
Proof.
  intros Hp. unfold decimal_digit_trunc.
  assert (Hd : 0 < 10 ^ place) by (apply Z.pow_pos_nonneg; lia).
  assert (He : 0 < 10 ^ (place - 1)) by (apply Z.pow_pos_nonneg; lia).
  rewrite Z.rem_opp_l by lia. rewrite Z.quot_opp_l by lia. lia.
Qed.

(** C8 (amended).  For every [int] [num] and every [place] from 1 to 18
    (the places whose power of ten fits an [int]), [ExtractBit] returns
    the remainder of [num] by [10^place] divided by [10^(place-1)], both
    truncated towards zero as Go computes them; for [num >= 0] this is
    the [place]-th decimal digit of [num] from the right, a number from 0
    to 9 -- a decimal digit, not a binary bit -- and for [num < 0] it is
    the negated digit of [-num]. *)
Theorem ExtractBit_decimal_digit (num place : Z) :
  in_int num -> 1 <= place <= 18 ->
  ExtractBit num place = Some (decimal_digit_trunc num place) /\
  (0 <= num ->
   ExtractBit num place = Some (decimal_digit num place) /\
   decimal_digit num place = (num / 10 ^ (place - 1)) mod 10 /\
   0 <= decimal_digit num place <= 9) /\
  (num < 0 -> ExtractBit num place = Some (- decimal_digit (- num) place)).
Proof.
  intros Hnum Hp.
  assert (Hd : 0 < 10 ^ place) by (apply Z.pow_pos_nonneg; lia).
  assert (He : 0 < 10 ^ (place - 1)) by (apply Z.pow_pos_nonneg; lia).
  assert (Hcode : ExtractBit num place = Some (decimal_digit_trunc num place)).
  { unfold ExtractBit, go_rem, go_quot.
    rewrite (wrap_int_id (place - 1)) by (unfold in_int, int_min, int_max; lia).
    rewrite !pow10_int_small by lia.
    destruct (Z.eqb_spec (10 ^ place) 0); [lia|].
    destruct (Z.eqb_spec (10 ^ (place - 1)) 0); [lia|].
    f_equal. apply wrap_int_id.
    pose proof (digit_trunc_bound num _ _ Hd He) as Hb.
    unfold decimal_digit_trunc, in_int, int_min, int_max in *.
    set (q := Z.quot _ _) in *. clearbody q. clear - Hnum Hb. lia. }
  split; [exact Hcode|]. split.
  - intros Hn. destruct (decimal_digit_nonneg num place Hn ltac:(lia)) as (E1 & E2 & E3).
    rewrite Hcode, E1. auto.
  - intros Hn. rewrite Hcode, decimal_digit_trunc_opp by lia.
    destruct (decimal_digit_nonneg (- num) place ltac:(lia) ltac:(lia)) as (E1 & _).
    rewrite E1. reflexivity.
Qed.

Lemma ExtractBit_decimal_digit_witness :
  ExtractBit 10110 3 = Some 1 /\ ExtractBit 4711 3 = Some (decimal_digit_trunc 4711 3).
Proof.
  split; [reflexivity|].
  apply (ExtractBit_decimal_digit 4711 3); unfold in_int, int_min, int_max; lia.
Defined.

(** C8 as stated fails.  With Go's truncated operators the formula is
    missed at place 19, where [10^19] does not fit an [int]; with the
    mathematical [mod] it is missed on every negative [num] whose digit is
    not zero, where [ExtractBit] returns a negative "digit". *)
Lemma ExtractBit_not_decimal_digit :
  ExtractBit int_min 19 = Some 0 /\
  ExtractBit int_min 19 <> Some (decimal_digit_trunc int_min 19) /\
  ExtractBit (-123) 2 = Some (-2) /\
  ExtractBit (-123) 2 <> Some (decimal_digit (-123) 2).
Proof. repeat split; vm_compute; congruence. Qed.

End CommonFacts.

(** ** The account tree store *)

Section CoreFacts.
Import Core.

Lemma exp2_int_mismatch (depth n : Z) :
  0 <= depth -> 0 <= n <= int_max ->
  (exp2_int depth =? n) = false <-> n <> 2 ^ depth.
Proof.
  intros Hd Hn. unfold exp2_int, int_of_float.
  assert (0 < 2 ^ depth) by (apply Z.pow_pos_nonneg; lia).
  unfold int_min, int_max in *.
  destruct (Z.leb_spec (- 2 ^ 63) (2 ^ depth)); [|lia].
  destruct (Z.leb_spec (2 ^ depth) (2 ^ 63 - 1)); cbn [andb];
    rewrite Z.eqb_neq; lia.
Qed.

Lemma assignPaths_error (prim : Primitives) (accounts : list UserAccount) :
  forall prev accounts' e,
    assignPaths prim accounts prev = (accounts', Some e) ->
    exists msg, e = ErrCollaborator msg.
Proof.
  induction accounts as [|acc rest IH]; intros prev accounts' e; cbn.
  - discriminate.
  - unfold GetAdjacentNodePath.
    destruct (prim_GetAdjacentNodePath prim prev) as [p|msg]; cbn.
    + destruct (assignPaths prim rest _) as [rest' [e'|]] eqn:Hrest;
        intros [= _ <-]. eapply IH; eassumption.
    + intros [= _ <-]. eauto.
Qed.

Lemma nextLevel_error (prim : Primitives) (n : nat) :
  forall accs e,
    (length accs <= n)%nat ->
    nextLevel prim accs = Return (Err e) -> exists msg, e = ErrCollaborator msg.
Proof.
  induction n as [|n IH]; intros [|l [|r rest]] e Hlen; cbn in *;
    try discriminate; try lia.
  - unfold HexToByteArray.
    destruct (prim_HexToByteArray prim (Hash l)); cbn; [discriminate|].
    intros [= <-]. eauto.
  - unfold HexToByteArray, GetParent.
    destruct (prim_HexToByteArray prim (Hash l)); cbn; [|intros [= <-]; eauto].
    destruct (prim_HexToByteArray prim (Hash r)); cbn; [|intros [= <-]; eauto].
    destruct (prim_GetParent prim _ _); cbn; [|intros [= <-]; eauto].
    destruct (nextLevel prim rest) as [[nl|e']|e'] eqn:Hrest; try discriminate.
    intros [= <-]. apply (IH rest e'); [lia|exact Hrest].
Qed.

Lemma merkelise_error (prim : Primitives) (n : nat) :
  forall db db' e,
    merkelise prim n db = (Return (Some e), db') -> e <> ErrDepthLeavesMismatch.
Proof.
  induction n as [|n IH]; intros db db' e; cbn.
  - discriminate.
  - unfold bind, gets, GetAccountsAtDepth, Gorm.FindAll, on_accounts,
      Gorm.BulkInsert, panic, ret.
    destruct (nextLevel prim _) as [[nl|e']|e'] eqn:Hnext.
    + intros Hm. eapply IH. exact Hm.
    + intros [= <- _].
      destruct (nextLevel_error prim _ _ e' (le_n _) Hnext) as [msg ->]. discriminate.
    + discriminate.
Qed.

(** C5.  [InitBalancesTree] returns the error "Depth and number of leaves
    do not match" exactly when the number of genesis leaves differs from
    [2^depth], and then it has written nothing: the store and the
    caller's slice of leaves are as they were. *)
Theorem InitBalancesTree_dimension_mismatch (prim : Primitives) (depth : Z)
    (genesisAccounts : list UserAccount) (db : DB) :
  0 <= depth -> Z.of_nat (length genesisAccounts) <= int_max ->
  ((exists leaves,
      fst (InitBalancesTree prim depth genesisAccounts db)
      = Return (Some ErrDepthLeavesMismatch, leaves))
   <-> Z.of_nat (length genesisAccounts) <> 2 ^ depth) /\
  (Z.of_nat (length genesisAccounts) <> 2 ^ depth ->
   InitBalancesTree prim depth genesisAccounts db
   = (Return (Some ErrDepthLeavesMismatch, genesisAccounts), db)).
Proof.
  intros Hd Hlen.
  pose proof (exp2_int_mismatch depth (Z.of_nat (length genesisAccounts)) Hd
                ltac:(lia)) as Hguard.
  assert (Hfail : Z.of_nat (length genesisAccounts) <> 2 ^ depth ->
                  InitBalancesTree prim depth genesisAccounts db
                  = (Return (Some ErrDepthLeavesMismatch, genesisAccounts), db)).
  { intros Hne. unfold InitBalancesTree.
    rewrite (proj2 Hguard Hne). reflexivity. }
  split; [split|exact Hfail].
  - intros [leaves Hret].
    destruct (Z.eq_dec (Z.of_nat (length genesisAccounts)) (2 ^ depth)) as [Heq|]; [|assumption].
    exfalso. revert Hret. unfold InitBalancesTree.
    destruct (exp2_int depth =? Z.of_nat (length genesisAccounts)) eqn:Hg.
    2: { exfalso. exact (proj1 Hguard eq_refl Heq). }
    cbn [negb]. destruct genesisAccounts as [|coordinator others]; [discriminate|].
    unfold InsertCoordinatorAccounts, bind, on_accounts, Gorm.Create, Gorm.BulkInsert, ret.
    cbn.
    destruct (assignPaths prim others _) as [others' [e|]] eqn:Hpaths; cbn.
    + destruct (assignPaths_error prim _ _ _ _ Hpaths) as [msg ->]. discriminate.
    + destruct (merkelise prim (Z.to_nat depth) _) as [[[e|]|e] db'] eqn:Hm; cbn;
        try discriminate.
      intros [= -> _]. exact (merkelise_error prim _ _ _ _ Hm eq_refl).
  - intros Hne. exists genesisAccounts. rewrite (Hfail Hne). reflexivity.
Qed.

Lemma InitBalancesTree_dimension_mismatch_witness :
  InitBalancesTree Demo.demoPrim 3 Demo.genesisAccounts Demo.emptyDB
  = (Return (Some ErrDepthLeavesMismatch, Demo.genesisAccounts), Demo.emptyDB).
Proof.
  apply (InitBalancesTree_dimension_mismatch Demo.demoPrim 3 Demo.genesisAccounts
           Demo.emptyDB); [lia | cbn; unfold int_max; lia | cbn; lia].
Defined.

(** [DeletePendingAccount] removes every pending row with the id, keeps
    every other row, and reports no error, whether or not there was a row
    to remove. *)
Lemma DeletePendingAccount_removes (ID : Z) (db : DB) :
  exists db',
    DeletePendingAccount ID db = (Return None, db') /\
    forall row,
      row ∈ user_accounts db' <->
      row ∈ user_accounts db /\ ~ (AccountID row = ID /\ Status row = STATUS_PENDING).
Proof.
  eexists. split; [reflexivity|]. intros row. cbn.
  rewrite list_elem_of_filter. unfold id_status_is.
  rewrite negb_True, andb_True, !Is_true_true, !Z.eqb_eq. tauto.
Qed.

(** C7 fails on the code.  The genesis store of four active leaves holds
    no pending leaf at all, and [DeletePendingAccount 5] on it returns
    [nil], not a not-found error, and leaves the store as it was. *)
Theorem DeletePendingAccount_missing_returns_nil :
  Forall (fun row => Status row <> STATUS_PENDING) (user_accounts Demo.genesisDB) /\
  DeletePendingAccount 5 Demo.genesisDB = (Return None, Demo.genesisDB).
Proof.
  split.
  - vm_compute. repeat constructor; discriminate.
  - vm_compute. reflexivity.
Qed.

Lemma GetParentPath_snoc (q : pathstring) (ch : ascii) :
  GetParentPath (q ++ [ch]) = q.
Proof. unfold GetParentPath. apply removelast_last. Qed.

Lemma GetOtherChild_snoc (q : pathstring) (ch : ascii) :
  GetOtherChild (q ++ [ch]) = q ++ [flip_char ch].
Proof.
  unfold GetOtherChild. rewrite last_snoc, removelast_last. reflexivity.
Qed.

Lemma GetNthBitFromRight_middle (q suffix : pathstring) (ch : ascii) :
  GetNthBitFromRight (q ++ ch :: suffix) (length suffix) = Ok (bit_of_char ch).
Proof.
  unfold GetNthBitFromRight. rewrite rev_app_distr. cbn [rev].
  rewrite <- app_assoc. cbn [app].
  rewrite (list_lookup_middle (rev suffix) (rev q) ch (length suffix))
    by (symmetry; apply length_rev).
  reflexivity.
Qed.

Lemma GetSiblings_loop_acc (db : DB) (n : nat) :
  forall path acc,
    GetSiblings_loop n path acc db
    = (acc ++ fst (GetSiblings_loop n path [] db),
       snd (GetSiblings_loop n path [] db)).
Proof.
  induction n as [|n IH]; intros path acc; cbn.
  - rewrite app_nil_r. reflexivity.
  - destruct (GetAccountByPath (GetOtherChild path) db) as [sib|e]; cbn.
    + rewrite (IH _ (acc ++ [sib])), (IH _ [sib]). cbn.
      rewrite <- app_assoc. reflexivity.
    + rewrite app_nil_r. reflexivity.
Qed.

Lemma GetSiblings_snoc (db : DB) (q : pathstring) (ch : ascii) :
  GetSiblings (q ++ [ch]) db =
  match GetAccountByPath (q ++ [flip_char ch]) db with
  | Ok sib => (sib :: fst (GetSiblings q db), snd (GetSiblings q db))
  | Err e => ([], Some e)
  end.
Proof.
  unfold GetSiblings. rewrite length_app, Nat.add_comm. cbn.
  rewrite GetOtherChild_snoc, GetParentPath_snoc.
  destruct (GetAccountByPath (q ++ [flip_char ch]) db) as [sib|e]; [|reflexivity].
  apply GetSiblings_loop_acc.
Qed.

Lemma GetRoot_by_path (db : DB) (rootNode : UserAccount) :
  levels_match db ->
  GetAccountByPath [] db = Ok rootNode -> GetRoot db = Ok rootNode.
Proof.
  unfold levels_match, GetAccountByPath, GetRoot, Gorm.Find. intros Hlevels.
  assert (Hfilter : filter (level_is 0) (user_accounts db)
                    = filter (path_is []) (user_accounts db)).
  { induction Hlevels as [|row rows Hrow _ IH]; [reflexivity|].
    rewrite !filter_cons, IH.
    assert (Hiff : level_is 0 row = path_is [] row).
    { unfold level_is, path_is. rewrite Hrow.
      destruct (Path row); cbn; [reflexivity|].
      case_bool_decide; [discriminate|]. apply Z.eqb_neq. lia. }
    rewrite Hiff. reflexivity. }
  rewrite Hfilter. destruct (last _); [auto|discriminate].
Qed.

Lemma GetAccountByPath_stored (x : pathstring) (db : DB) (n : UserAccount) :
  GetAccountByPath x db = Ok n -> n ∈ user_accounts db /\ Path n = x.
Proof.
  unfold GetAccountByPath, Gorm.Find.
  destruct (last (filter (path_is x) (user_accounts db))) as [row|] eqn:Hlast;
    [|discriminate].
  intros [= <-]. apply last_Some_elem_of in Hlast.
  apply list_elem_of_filter in Hlast as [Hrow Hin].
  apply bool_decide_unpack in Hrow. auto.
Qed.

Lemma root_consistentb_sound (prim : Primitives) (db : DB) :
  root_consistentb prim db = true -> root_consistent prim db.
Proof.
  unfold root_consistentb. rewrite forallb_forall. intros Hall q l r Hl Hr.
  destruct (GetAccountByPath_stored _ _ _ Hl) as [Hin Hpath].
  apply list_elem_of_In in Hin. specialize (Hall l Hin).
  rewrite Hpath, GetParentPath_snoc in Hall. unfold check_parent in Hall.
  rewrite Hl, Hr in Hall.
  destruct (GetAccountByPath q db) as [n|]; [|discriminate].
  destruct (HexToByteArray prim (Hash l)) as [hl|]; [|discriminate].
  destruct (HexToByteArray prim (Hash r)) as [hr|]; [|discriminate].
  destruct (GetParent prim hl hr) as [hn|] eqn:Hp; [|discriminate].
  destruct (HexToByteArray prim (Hash n)) as [hn'|] eqn:Hn; [|discriminate].
  apply bool_decide_eq_true in Hall. subst hn'.
  exists n, hl, hr, hn. auto.
Qed.

(** The fold of a node's hash with the node's siblings ends on the hash of
    the root node, wherever in the path the node lies. *)
Lemma recompute_to_root (prim : Primitives) (db : DB) :
  root_consistent prim db ->
  forall (q suffix : pathstring) (node : UserAccount) (h : ByteArray)
         (siblings : list UserAccount),
    is_bitpath q ->
    GetAccountByPath q db = Ok node ->
    HexToByteArray prim (Hash node) = Ok h ->
    GetSiblings q db = (siblings, None) ->
    exists rootNode rootHash,
      GetAccountByPath [] db = Ok rootNode /\
      HexToByteArray prim (Hash rootNode) = Ok rootHash /\
      recompute prim (q ++ suffix) (length suffix) h siblings = Ok rootHash.
Proof.
  intros Hcons q. induction q as [|ch q IH] using rev_ind;
    intros suffix node h siblings Hbits Hnode Hhash Hsibs.
  - cbn in Hsibs. injection Hsibs as <-. exists node, h. auto.
  - rewrite GetSiblings_snoc in Hsibs.
    destruct (GetAccountByPath (q ++ [flip_char ch]) db) as [sib|e] eqn:Hsib;
      [|discriminate].
    destruct (GetSiblings q db) as [siblings' err'] eqn:Hsibs'. cbn in Hsibs.
    injection Hsibs as <- ->.
    apply Forall_app in Hbits as [Hq Hch].
    apply Forall_cons in Hch as [Hch _].
    rewrite <- app_assoc. cbn [app recompute].
    rewrite GetNthBitFromRight_middle.
    destruct Hch as [-> | ->]; cbn in Hsib |- *.
    + destruct (Hcons q node sib Hnode Hsib) as (n & hl & hr & hn & Hn & Hl & Hr & Hp & Hnh).
      rewrite Hhash in Hl. injection Hl as <-.
      rewrite Hr, Hp.
      apply (IH ("0"%char :: suffix) n hn siblings' Hq Hn Hnh eq_refl).
    + destruct (Hcons q sib node Hsib Hnode) as (n & hl & hr & hn & Hn & Hl & Hr & Hp & Hnh).
      rewrite Hhash in Hr. injection Hr as <-.
      rewrite Hl, Hp.
      apply (IH ("1"%char :: suffix) n hn siblings' Hq Hn Hnh eq_refl).
Qed.

(** C4.  Sibling proof round-trip: in a store that is root-consistent, for
    the node [leaf] stored at a path [p] and the siblings [GetSiblings]
    returns for [p], folding the hash of [leaf] with the siblings, leaf to
    root and in the order of the bits of [p], yields the hash of the node
    [GetRoot] returns. *)
Theorem sibling_proof_round_trip (prim : Primitives) (db : DB) (p : pathstring)
    (leaf : UserAccount) (leafHash : ByteArray) (siblings : list UserAccount) :
  root_consistent prim db ->
  levels_match db ->
  is_bitpath p ->
  GetAccountByPath p db = Ok leaf ->
  HexToByteArray prim (Hash leaf) = Ok leafHash ->
  GetSiblings p db = (siblings, None) ->
  exists rootNode rootHash,
    GetRoot db = Ok rootNode /\
    HexToByteArray prim (Hash rootNode) = Ok rootHash /\
    recomputeRoot prim p leafHash siblings = Ok rootHash.
Proof.
  intros Hcons Hlevels Hbits Hleaf Hhash Hsibs.
  destruct (recompute_to_root prim db Hcons p [] leaf leafHash siblings
              Hbits Hleaf Hhash Hsibs) as (rootNode & rootHash & Hroot & Hrh & Hfold).
  exists rootNode, rootHash. split; [|split].
  - apply GetRoot_by_path; assumption.
  - exact Hrh.
  - unfold recomputeRoot. rewrite app_nil_r in Hfold. exact Hfold.
Qed.

End CoreFacts.

(** ** StoreLeaf keeps the tree consistent *)

Section StoreLeafFacts.
Import Core.
Context (prim : Primitives).

(** The rows after [Model(&v).Where("path = ?", y).Update(v)]. *)
Lemma updateAccount_run (v : UserAccount) (y : pathstring) (db : DB) :
  updateAccount v y db
  = (Return None,
     set_user_accounts db
       (map (fun row => if path_is y row then Gorm.assign v row else row)
          (user_accounts db))).
Proof. reflexivity. Qed.

Lemma assign_Path (v row : UserAccount) (y : pathstring) :
  Path v = y \/ Path v = [] -> Path row = y -> Path (Gorm.assign v row) = y.
Proof.
  intros Hv Hrow. cbn. unfold Gorm.assign_path.
  destruct Hv as [Hv|Hv]; rewrite Hv; [|exact Hrow].
  destruct y; [exact Hrow|reflexivity].
Qed.

Lemma assign_same (row : UserAccount) : Gorm.assign row row = row.
Proof.
  destruct row as [id data path st ty h lv dep]. unfold Gorm.assign. cbn.
  f_equal.
  - unfold Gorm.assign_Z. destruct (id =? 0); reflexivity.
  - destruct data; reflexivity.
  - destruct path; reflexivity.
  - unfold Gorm.assign_Z. destruct (st =? 0); reflexivity.
  - unfold Gorm.assign_Z. destruct (ty =? 0); reflexivity.
  - destruct h; reflexivity.
  - unfold Gorm.assign_Z. destruct (lv =? 0); reflexivity.
  - destruct dep; reflexivity.
Qed.

Lemma assign_Hash (v row : UserAccount) :
  Hash v <> EmptyString -> Hash (Gorm.assign v row) = Hash v.
Proof. cbn. destruct (Hash v); [contradiction|reflexivity]. Qed.

Lemma filter_update_other (v : UserAccount) (x y : pathstring)
    (rows : list UserAccount) :
  Path v = y \/ Path v = [] -> x <> y ->
  filter (path_is x)
    (map (fun row => if path_is y row then Gorm.assign v row else row) rows)
  = filter (path_is x) rows.
Proof.
  intros Hv Hxy. induction rows as [|row rows IH]; [reflexivity|].
  cbn [map]. rewrite !filter_cons, IH.
  destruct (path_is y row) eqn:Hy; [|rewrite ?Hy; reflexivity].
  apply bool_decide_eq_true in Hy.
  assert (Path (Gorm.assign v row) = y) as Hy' by (apply assign_Path; assumption).
  assert (path_is x (Gorm.assign v row) = false) as ->
      by (apply bool_decide_eq_false; congruence).
  assert (path_is x row = false) as ->
      by (apply bool_decide_eq_false; congruence).
  reflexivity.
Qed.

Lemma filter_update_same (v : UserAccount) (y : pathstring)
    (rows : list UserAccount) :
  Path v = y \/ Path v = [] ->
  filter (path_is y)
    (map (fun row => if path_is y row then Gorm.assign v row else row) rows)
  = map (Gorm.assign v) (filter (path_is y) rows).
Proof.
  intros Hv. induction rows as [|row rows IH]; [reflexivity|].
  cbn [map]. rewrite !filter_cons, IH.
  destruct (path_is y row) eqn:Hy; [|rewrite ?Hy; reflexivity].
  assert (Path (Gorm.assign v row) = y) as Hy'
      by (apply assign_Path; [assumption|apply bool_decide_eq_true in Hy; exact Hy]).
  assert (path_is y (Gorm.assign v row) = true) as ->
      by (apply bool_decide_eq_true; congruence).
  rewrite ?Hy. reflexivity.
Qed.

Lemma last_map_assign {A B : Type} (f : A -> B) (l : list A) :
  last (map f l) = f <$> last l.
Proof.
  induction l as [|a [|b l] IH]; [reflexivity|reflexivity|].
  cbn [map]. rewrite !last_cons_cons. exact IH.
Qed.


Lemma GetAccountByPath_update_other (v : UserAccount) (x y : pathstring) (db : DB) :
  Path v = y \/ Path v = [] -> x <> y ->
  GetAccountByPath x (snd (updateAccount v y db)) = GetAccountByPath x db.
Proof.
  intros Hv Hxy. rewrite updateAccount_run. unfold GetAccountByPath, Gorm.Find. cbn.
  rewrite filter_update_other by assumption. reflexivity.
Qed.

Lemma GetAccountByPath_update_same (v : UserAccount) (y : pathstring) (db : DB) :
  Path v = y \/ Path v = [] ->
  GetAccountByPath y (snd (updateAccount v y db))
  = result_map (Gorm.assign v) (GetAccountByPath y db).
Proof.
  intros Hv. rewrite updateAccount_run. unfold GetAccountByPath, Gorm.Find. cbn.
  rewrite filter_update_same by assumption. rewrite last_map_assign.
  destruct (last _); reflexivity.
Qed.


Lemma GetAccountByPath_Path (x : pathstring) (db : DB) (n : UserAccount) :
  GetAccountByPath x db = Ok n -> Path n = x.
Proof. intros H. apply (GetAccountByPath_stored _ _ _ H). Qed.

Lemma GetSiblings_ext (db db' : DB) (q : pathstring) :
  (forall x, (length x <= length q)%nat -> x <> q ->
             GetAccountByPath x db' = GetAccountByPath x db) ->
  GetSiblings q db' = GetSiblings q db.
Proof.
  induction q as [|ch q IH] using rev_ind; intros Hsame; [reflexivity|].
  rewrite !GetSiblings_snoc.
  rewrite Hsame.
  - rewrite IH; [reflexivity|].
    intros x Hlen Hx. apply Hsame.
    + rewrite length_app. cbn. lia.
    + intros ->. rewrite length_app in Hlen. cbn in Hlen. lia.
  - rewrite !length_app. reflexivity.
  - intros Heq. apply app_inj_tail in Heq as [_ Heq].
    revert Heq. unfold flip_char. destruct (Ascii.eqb_spec ch "1"); [subst|]; intros Heq.
    + discriminate.
    + congruence.
Qed.

(** The three writes of [StoreNode], seen through [GetAccountByPath]. *)
Lemma StoreNode_lookups (parentHash : ByteArray) (l r : UserAccount) (db : DB)
    (q : pathstring) (a b : ascii) :
  Path l = q ++ [a] -> Path r = q ++ [b] -> a <> b ->
  exists db',
    StoreNode prim parentHash l r db = (Return None, db') /\
    (forall x, x <> q -> x <> q ++ [a] -> x <> q ++ [b] ->
               GetAccountByPath x db' = GetAccountByPath x db) /\
    GetAccountByPath (q ++ [a]) db' = result_map (Gorm.assign l) (GetAccountByPath (q ++ [a]) db) /\
    GetAccountByPath (q ++ [b]) db' = result_map (Gorm.assign r) (GetAccountByPath (q ++ [b]) db) /\
    GetAccountByPath q db'
    = result_map
        (Gorm.assign (mkUserAccount 0 None q 0 0 (ByteArray_String prim parentHash) 0 EmptyString))
        (GetAccountByPath q db).
Proof.
  intros Hl Hr Hab.
  assert (Hqa : q <> q ++ [a]).
  { intros H. apply (f_equal length) in H. rewrite length_app in H. cbn in H. lia. }
  assert (Hqb : q <> q ++ [b]).
  { intros H. apply (f_equal length) in H. rewrite length_app in H. cbn in H. lia. }
  assert (Hab' : q ++ [a] <> q ++ [b]).
  { intros H. apply app_inv_head in H. congruence. }
  unfold StoreNode, bind, ret, UpdateParentWithHash.
  rewrite Hl, GetParentPath_snoc, Hr.
  set (t := mkUserAccount 0 None q 0 0 (ByteArray_String prim parentHash) 0 EmptyString).
  set (db1 := snd (updateAccount l (q ++ [a]) db)).
  set (db2 := snd (updateAccount r (q ++ [b]) db1)).
  exists (snd (updateAccount t q db2)).
  split; [reflexivity|].
  assert (Ht : Path t = q \/ Path t = []) by (left; reflexivity).
  split; [|split; [|split]].
  - intros x Hx Hxa Hxb.
    rewrite GetAccountByPath_update_other by assumption.
    unfold db2. rewrite GetAccountByPath_update_other by auto.
    unfold db1. rewrite GetAccountByPath_update_other by auto. reflexivity.
  - rewrite GetAccountByPath_update_other by auto.
    unfold db2. rewrite GetAccountByPath_update_other by auto.
    unfold db1. rewrite GetAccountByPath_update_same by auto. reflexivity.
  - rewrite GetAccountByPath_update_other by auto.
    unfold db2. rewrite GetAccountByPath_update_same by auto.
    unfold db1. rewrite GetAccountByPath_update_other by auto. reflexivity.
  - rewrite GetAccountByPath_update_same by auto.
    unfold db2. rewrite GetAccountByPath_update_other by auto.
    unfold db1. rewrite GetAccountByPath_update_other by auto. reflexivity.
Qed.




Lemma snoc_neq_self (q : pathstring) (ch : ascii) : q ++ [ch] <> q.
Proof.
  intros H. apply (f_equal length) in H. rewrite length_app in H. cbn in H. lia.
Qed.

(** One round of [StoreLeaf]'s loop restores the constraint on the parent
    of the node it holds. *)
Lemma StoreLeaf_round (q : pathstring) (a b : ascii) (cn s parent : UserAccount)
    (h hs ph : ByteArray) (db db' : DB) :
  hashes_render prim ->
  (a = "0"%char /\ b = "1"%char /\ GetParent prim h hs = Ok ph) \/
  (a = "1"%char /\ b = "0"%char /\ GetParent prim hs h = Ok ph) ->
  Path cn = q ++ [a] ->
  Hash cn <> EmptyString -> HexToByteArray prim (Hash cn) = Ok h ->
  GetAccountByPath (q ++ [b]) db = Ok s -> HexToByteArray prim (Hash s) = Ok hs ->
  consistent_but prim cn db ->
  (forall x, x <> q -> x <> q ++ [a] -> x <> q ++ [b] ->
             GetAccountByPath x db' = GetAccountByPath x db) ->
  GetAccountByPath (q ++ [a]) db' = result_map (Gorm.assign cn) (GetAccountByPath (q ++ [a]) db) ->
  GetAccountByPath (q ++ [b]) db' = result_map (Gorm.assign s) (GetAccountByPath (q ++ [b]) db) ->
  GetAccountByPath q db'
  = result_map
      (Gorm.assign (mkUserAccount 0 None q 0 0 (ByteArray_String prim ph) 0 EmptyString))
      (GetAccountByPath q db) ->
  GetAccountByPath q db' = Ok parent ->
  Path parent = q /\ renders_hash prim parent /\ consistent_but prim parent db'.
Proof.
  intros [_ Hparents] Hab Hcn Hblank Hh Hs Hhs Hcons Hother Ha Hb Hq Hparent.
  assert (Hph : hash_renders prim ph).
  { destruct Hab as [(_ & _ & Hp)|(_ & _ & Hp)]; exact (Hparents _ _ _ Hp). }
  assert (Hne : a <> b) by (destruct Hab as [(-> & -> & _)|(-> & -> & _)]; discriminate).
  pose proof (GetAccountByPath_Path _ _ _ Hparent) as Hpath.
  assert (Hhash : Hash parent = ByteArray_String prim ph).
  { rewrite Hq in Hparent. destruct (GetAccountByPath q db) as [old|]; [|discriminate].
    injection Hparent as <-. apply assign_Hash. cbn. apply Hph. }
  split; [exact Hpath|]. split; [exists ph; auto|].
  intros x l r Hx0 Hx1 Hl Hr. rewrite Hpath in Hx0, Hx1 |- *.
  destruct (decide (x = q)) as [->|Hxq].
  - (* the constraint on the parent itself *)
    rewrite bool_decide_eq_true_2 by reflexivity.
    rewrite Hparent. rewrite Hhash.
    assert (Hcnode : exists old, GetAccountByPath (q ++ [a]) db' = Ok (Gorm.assign cn old)).
    { rewrite Ha. destruct Hab as [(-> & -> & _)|(-> & -> & _)].
      - rewrite Ha in Hl. destruct (GetAccountByPath (q ++ ["0"%char]) db); [eauto|discriminate].
      - rewrite Ha in Hr. destruct (GetAccountByPath (q ++ ["1"%char]) db); [eauto|discriminate]. }
    destruct Hcnode as [old Hcnode].
    assert (Hsnode : GetAccountByPath (q ++ [b]) db' = Ok s).
    { rewrite Hb, Hs. cbn. rewrite assign_same. reflexivity. }
    destruct Hab as [(-> & -> & Hp)|(-> & -> & Hp)].
    + rewrite Hcnode in Hl. injection Hl as <-.
      rewrite Hsnode in Hr. injection Hr as <-.
      exists parent, h, hs, ph. rewrite assign_Hash by assumption.
      repeat split; try assumption. apply Hph.
    + rewrite Hcnode in Hr. injection Hr as <-.
      rewrite Hsnode in Hl. injection Hl as <-.
      exists parent, hs, h, ph. rewrite assign_Hash by assumption.
      repeat split; try assumption. apply Hph.
  - (* every other constraint is as it was *)
    rewrite bool_decide_eq_false_2 by assumption.
    assert (Hchild : forall ch, x ++ [ch] <> q -> 
                     GetAccountByPath (x ++ [ch]) db' = GetAccountByPath (x ++ [ch]) db).
    { intros ch Hch. apply Hother; [exact Hch| |];
        intros Heq; apply app_inj_tail in Heq as [Heq _]; contradiction. }
    rewrite (Hchild _ Hx0) in Hl. rewrite (Hchild _ Hx1) in Hr.
    assert (Hnot : forall ch, x ++ [ch] <> Path cn).
    { intros ch. rewrite Hcn. intros Heq. apply app_inj_tail in Heq as [Heq _]. contradiction. }
    destruct (Hcons x l r (Hnot _) (Hnot _) Hl Hr)
      as (n & hl & hr & hn & Hn & Hhl & Hhr & Hp & Hnh).
    rewrite Hcn in Hnh.
    destruct (decide (x = q ++ [a])) as [->|Hxa].
    + rewrite bool_decide_eq_true_2 in Hnh by reflexivity.
      exists (Gorm.assign cn n), hl, hr, hn. rewrite Ha, Hn. cbn [result_map].
      rewrite assign_Hash by assumption. auto.
    + rewrite bool_decide_eq_false_2 in Hnh by assumption.
      destruct (decide (x = q ++ [b])) as [->|Hxb].
      * rewrite Hs in Hn. injection Hn as <-.
        exists s, hl, hr, hn. rewrite Hb, Hs. cbn [result_map]. rewrite assign_same. auto.
      * exists n, hl, hr, hn. rewrite Hother by assumption. auto.
Qed.


Lemma StoreLeaf_loop_restores :
  hashes_render prim ->
  forall (q suffix : pathstring) (cn : UserAccount) (siblings : list UserAccount)
         (db db' : DB) (top : UserAccount),
    is_bitpath q -> Path cn = q -> renders_hash prim cn ->
    GetSiblings q db = (siblings, None) ->
    consistent_but prim cn db ->
    StoreLeaf_loop prim (q ++ suffix) (length suffix) siblings cn db
    = (Return (Ok top), db') ->
    Path top = [] /\ renders_hash prim top /\ consistent_but prim top db'.
Proof.
  intros Hprim q. induction q as [|ch q IH] using rev_ind;
    intros suffix cn siblings db db' top Hbits Hcn Hrenders Hsibs Hcons Hrun.
  - cbn in Hsibs. injection Hsibs as <-. cbn in Hrun. injection Hrun as <- <-. auto.
  - rewrite GetSiblings_snoc in Hsibs.
    destruct (GetAccountByPath (q ++ [flip_char ch]) db) as [s|] eqn:Hs; [|discriminate].
    destruct (GetSiblings q db) as [rest err] eqn:Hrest. cbn in Hsibs.
    injection Hsibs as <- ->.
    apply Forall_app in Hbits as [Hq Hch]. apply Forall_cons in Hch as [Hch _].
    destruct Hrenders as (h & Hhash & Hblank & Hparse).
    rewrite <- Hhash in Hblank, Hparse.
    pose proof (GetAccountByPath_Path _ _ _ Hs) as Hspath.
    revert Hrun. rewrite <- app_assoc. cbn [app StoreLeaf_loop].
    rewrite GetNthBitFromRight_middle.
    unfold bind, HashToByteArray, gets, ret, panic. rewrite Hparse, Hcn, GetParentPath_snoc.
    destruct (HexToByteArray prim (Hash s)) as [hs|] eqn:Hhs.
    2: { destruct Hch as [-> | ->]; cbn; discriminate. }
    assert (Hstep : forall ph,
      (ch = "0"%char /\ flip_char ch = "1"%char /\ GetParent prim h hs = Ok ph) \/
      (ch = "1"%char /\ flip_char ch = "0"%char /\ GetParent prim hs h = Ok ph) ->
      forall l r, (l = cn /\ r = s /\ ch = "0"%char) \/ (l = s /\ r = cn /\ ch = "1"%char) ->
      (let (o, s') := StoreNode prim ph l r db in
       match o with
       | Return a =>
           match a with
           | Some err => fun s0 : DB => (Return (Err err), s0)
           | None =>
               fun s0 : DB =>
                 match GetAccountByPath q s0 with
                 | Ok parentAccount =>
                     StoreLeaf_loop prim (q ++ ch :: suffix) (S (length suffix)) rest
                       parentAccount
                 | Err err => fun s1 : DB => (Return (Err err), s1)
                 end s0
           end s'
       | Panic e => (Panic e, s')
       end) = (Return (Ok top), db') ->
      Path top = [] /\ renders_hash prim top /\ consistent_but prim top db').
    { intros ph Hab l r Hlr.
      assert (Hnode : exists db3,
        StoreNode prim ph l r db = (Return None, db3) /\
        (forall x, x <> q -> x <> q ++ [ch] -> x <> q ++ [flip_char ch] ->
                   GetAccountByPath x db3 = GetAccountByPath x db) /\
        GetAccountByPath (q ++ [ch]) db3
        = result_map (Gorm.assign cn) (GetAccountByPath (q ++ [ch]) db) /\
        GetAccountByPath (q ++ [flip_char ch]) db3
        = result_map (Gorm.assign s) (GetAccountByPath (q ++ [flip_char ch]) db) /\
        GetAccountByPath q db3
        = result_map
            (Gorm.assign (mkUserAccount 0 None q 0 0 (ByteArray_String prim ph) 0 EmptyString))
            (GetAccountByPath q db)).
      { destruct Hlr as [(-> & -> & ->)|(-> & -> & ->)].
        - destruct (StoreNode_lookups ph cn s db q "0" "1" Hcn Hspath ltac:(discriminate))
            as (db3 & H1 & H2 & H3 & H4 & H5).
          exists db3. repeat split; auto.
        - destruct (StoreNode_lookups ph s cn db q "0" "1" Hspath Hcn ltac:(discriminate))
            as (db3 & H1 & H2 & H3 & H4 & H5).
          exists db3. repeat split; auto. }
      destruct Hnode as (db3 & -> & Hother & Ha & Hb & Hqq).
      destruct (GetAccountByPath q db3) as [parent|] eqn:Hparent; [|discriminate].
      rewrite <- Hparent in Hqq.
      intros Hrun.
      destruct (StoreLeaf_round q ch (flip_char ch) cn s parent h hs ph db db3
                  Hprim Hab Hcn Hblank Hparse Hs Hhs Hcons Hother Ha Hb Hqq Hparent)
        as (Hppath & Hprend & Hpcons).
      apply (IH (ch :: suffix) parent rest db3 db' top Hq Hppath Hprend); [|exact Hpcons|exact Hrun].
      rewrite <- Hrest. apply GetSiblings_ext.
      intros x Hlen Hx. apply Hother; [exact Hx| |];
        intros ->; rewrite length_app in Hlen; cbn in Hlen; lia. }
    destruct Hch as [-> | ->]; cbn [bit_of_char Ascii.eqb Bool.eqb Z.eqb flip_char] in *.
    + destruct (GetParent prim h hs) as [ph|] eqn:Hp; [|discriminate].
      apply (Hstep ph); [left; auto|left; auto].
    + destruct (GetParent prim hs h) as [ph|] eqn:Hp; [|discriminate].
      apply (Hstep ph); [right; auto|right; auto].
Qed.

(** [UpdateAccount] keeps the tree root-consistent: when the store was
    root-consistent and the account's path is a leaf of it, the store
    [UpdateAccount] leaves behind, having returned [nil], is
    root-consistent again. *)
Lemma UpdateAccount_root_consistent (account : UserAccount) (db db' : DB) :
  hashes_render prim ->
  root_consistent prim db ->
  is_bitpath (Path account) ->
  is_leaf_path (Path account) db ->
  UpdateAccount prim account db = (Return None, db') ->
  root_consistent prim db'.
Proof.
  intros Hprim Hcons Hbits Hleaf. unfold UpdateAccount, bind, gets.
  set (acc := CreateAccountHash prim account).
  assert (Hpath : Path acc = Path account) by reflexivity.
  assert (Hrenders : renders_hash prim acc).
  { exists (Keccak256 prim (bytes_of (Data account))). split; [reflexivity|apply Hprim]. }
  rewrite Hpath.
  destruct (GetSiblings (Path account) db) as [siblings [err|]] eqn:Hsibs; [discriminate|].
  unfold StoreLeaf, bind, ret.
  destruct (StoreLeaf_loop prim (Path account) 0 siblings acc db) as [[[top|e]|e] db1] eqn:Hloop;
    try discriminate.
  assert (Hstart : consistent_but prim acc db).
  { intros x l r Hx0 Hx1 Hl Hr. rewrite Hpath in *.
    destruct (decide (x = Path account)) as [->|Hx].
    - exfalso. apply Hleaf. eauto.
    - rewrite bool_decide_eq_false_2 by assumption. apply Hcons; assumption. }
  destruct (StoreLeaf_loop_restores Hprim (Path account) [] acc siblings db db1 top
              Hbits Hpath Hrenders Hsibs Hstart)
    as (Htop & (h & Hhash & Hblank & Hparse) & Hfinal).
  { rewrite app_nil_r. exact Hloop. }
  unfold HashToByteArray, UpdateRootNodeHashes. rewrite Hhash, Hparse. cbn [Path].
  intros Hrun.
  assert (Hdb' : db' = snd (updateAccount
                              (mkUserAccount 0 None [] 0 0 (ByteArray_String prim h) 0 EmptyString) [] db1)).
  { cbn in Hrun. injection Hrun as <-. reflexivity. }
  clear Hrun. subst db'.
  set (t := mkUserAccount 0 None [] 0 0 (ByteArray_String prim h) 0 EmptyString).
  assert (Ht : Path t = [] \/ Path t = []) by (left; reflexivity).
  intros x l r Hl Hr.
  rewrite GetAccountByPath_update_other in Hl, Hr by (auto; destruct x; discriminate).
  destruct (Hfinal x l r) as (n & hl & hr & hn & Hn & Hhl & Hhr & Hp & Hnh);
    try assumption; try (rewrite Htop; destruct x; discriminate).
  rewrite Htop in Hnh.
  destruct (decide (x = [])) as [->|Hx].
  - rewrite bool_decide_eq_true_2 in Hnh by reflexivity.
    rewrite Hhash, Hparse in Hnh. injection Hnh as <-.
    exists (Gorm.assign t n), hl, hr, h.
    rewrite GetAccountByPath_update_same, Hn by assumption. cbn [result_map].
    rewrite assign_Hash by (cbn; exact Hblank). cbn [Hash t]. auto.
  - rewrite bool_decide_eq_false_2 in Hnh by assumption.
    exists n, hl, hr, hn. rewrite GetAccountByPath_update_other by auto. auto.
Qed.

(** After [UpdateAccount] the sibling proof of every stored node checks
    against the new root. *)
Corollary UpdateAccount_then_round_trip (account : UserAccount) (db db' : DB)
    (p : pathstring) (leaf : UserAccount) (leafHash : ByteArray)
    (siblings : list UserAccount) :
  hashes_render prim ->
  root_consistent prim db ->
  is_bitpath (Path account) ->
  is_leaf_path (Path account) db ->
  UpdateAccount prim account db = (Return None, db') ->
  is_bitpath p ->
  GetAccountByPath p db' = Ok leaf ->
  HexToByteArray prim (Hash leaf) = Ok leafHash ->
  GetSiblings p db' = (siblings, None) ->
  exists rootNode rootHash,
    GetAccountByPath [] db' = Ok rootNode /\
    HexToByteArray prim (Hash rootNode) = Ok rootHash /\
    recomputeRoot prim p leafHash siblings = Ok rootHash.
Proof.
  intros Hprim Hcons Hbits Hleaf Hrun Hp Hnode Hhash Hsibs.
  pose proof (UpdateAccount_root_consistent account db db' Hprim Hcons Hbits Hleaf Hrun)
    as Hcons'.
  destruct (recompute_to_root prim db' Hcons' p [] leaf leafHash siblings
              Hp Hnode Hhash Hsibs) as (rootNode & rootHash & H1 & H2 & H3).
  exists rootNode, rootHash. rewrite app_nil_r in H3. auto.
Qed.

End StoreLeafFacts.

(** ** EventByID *)

Section EventByIDFacts.
Import Core Listener.
Context (Event_ID : Event -> list Z).

Lemma EventByID_loop_Some (entries : list (string * Event)) (sigdata : list Z) :
  forall event,
    EventByID_loop Event_ID entries sigdata = Some event ->
    exists name before after,
      entries = before ++ (name, event) :: after /\
      Forall (fun entry => Event_ID entry.2 <> sigdata) before /\
      Event_ID event = sigdata.
Proof.
  induction entries as [|[name e] rest IH]; intros event; cbn; [discriminate|].
  unfold bytes_Equal. case_bool_decide as Hid.
  - intros [= <-]. exists name, [], rest. repeat split; [constructor|assumption].
  - intros Hrest. destruct (IH _ Hrest) as (n & before & after & -> & Hbefore & Hsig).
    exists n, ((name, e) :: before), after. repeat split; [|assumption].
    constructor; assumption.
Qed.

Lemma EventByID_loop_None (entries : list (string * Event)) (sigdata : list Z) :
  EventByID_loop Event_ID entries sigdata = None ->
  Forall (fun entry => Event_ID entry.2 <> sigdata) entries.
Proof.
  induction entries as [|[name e] rest IH]; cbn; [constructor|].
  unfold bytes_Equal. case_bool_decide as Hid; [discriminate|].
  intros Hrest. constructor; [assumption|auto].
Qed.

(** C9.  [EventByID] always returns: with the entries of the event map
    visited in any order [range_map], the result is the first visited
    event whose ID equals [sigdata] -- an event of the map -- when there
    is one, and [nil] when no event of the map has that ID. *)
Theorem EventByID_first_match
    (range_map : gmap string Event -> list (string * Event))
    (abiObject : ABI) (sigdata : list Z) :
  (forall m, range_map m ≡ₚ map_to_list m) ->
  match EventByID Event_ID range_map abiObject sigdata with
  | Some event =>
      exists name before after,
        range_map (Events abiObject) = before ++ (name, event) :: after /\
        Forall (fun entry => Event_ID entry.2 <> sigdata) before /\
        Events abiObject !! name = Some event /\
        Event_ID event = sigdata
  | None =>
      forall name event,
        Events abiObject !! name = Some event -> Event_ID event <> sigdata
  end.
Proof.
  intros Hperm. unfold EventByID.
  destruct (EventByID_loop Event_ID _ sigdata) as [event|] eqn:Hloop.
  - destruct (EventByID_loop_Some _ _ _ Hloop) as (name & before & after & Hsplit & Hbefore & Hsig).
    exists name, before, after. repeat split; try assumption.
    apply elem_of_map_to_list. rewrite <- Hperm, Hsplit.
    apply elem_of_app. right. left.
  - intros name event Hin. apply EventByID_loop_None in Hloop.
    rewrite Forall_forall in Hloop.
    apply (Hloop (name, event)).
    rewrite Hperm. apply elem_of_map_to_list. exact Hin.
Qed.

End EventByIDFacts.

Lemma EventByID_first_match_witness :
  match Listener.EventByID Demo.demoEventID map_to_list Demo.demoABI [8] with
  | Some event =>
      exists name before after,
        map_to_list (Listener.Events Demo.demoABI) = before ++ (name, event) :: after /\
        Forall (fun entry => Demo.demoEventID entry.2 <> [8]) before /\
        Listener.Events Demo.demoABI !! name = Some event /\
        Demo.demoEventID event = [8]
  | None =>
      forall name event,
        Listener.Events Demo.demoABI !! name = Some event -> Demo.demoEventID event <> [8]
  end.
Proof.
  apply (EventByID_first_match Demo.demoEventID map_to_list Demo.demoABI [8]).
  intros m. reflexivity.
Defined.

(** ** The syncer *)

Section ListenerFacts.
Import Core Listener.
Context (prim : Primitives) (c : Collaborators).

(** One step of a run, with the calls on the store and the collaborators
    kept folded. *)
Ltac run :=
  cbn -[String.eqb ApplyTxsFromBatch AddNewBatch CommitBatch GetBatchByIndex
        GetParams newBatchOf].

Lemma app_singleton_neq {A : Type} (l : list A) (x : A) : l ++ [x] <> l.
Proof.
  intros H. apply (f_equal length) in H. rewrite length_app in H. cbn in H. lia.
Qed.

(** C6 (amended).  When a [DepositLeafMerged] event is decoded, the merge
    succeeds with height [newheight] and the parameters are read, the
    handler returns, and it hands a finalisation request to the
    collaborator exactly when [newheight] equals [MaxDepositSubTreeHeight]
    and the node to be replaced and its siblings are found; the request
    then carries that node, those siblings and the maximal height.  At
    any other height, or when the lookup fails, nothing is sent. *)
Theorem processDepositLeafMerged_fires (eventName : string) (abiObject : ABI)
    (vLog : Log) (s : Syncer) (event : LoggerDepositLeafMerged) (newheight : Z)
    (db1 : DB) (params : Params) :
  UnpackLog_DepositLeafMerged c abiObject eventName vLog = Ok event ->
  OnDepositLeafMerge c (Left event) (Right event) (NewRoot event) (DBInstance s)
  = (Return (Ok newheight), db1) ->
  GetParams db1 = Ok params ->
  exists s',
    processDepositLeafMerged c eventName abiObject vLog s = (Return tt, s') /\
    DBInstance s' = db1 /\
    ((exists request, fired s' = fired s ++ [request]) <->
     newheight = MaxDepositSubTreeHeight params /\
     exists found, GetDepositNodeAndSiblings c db1 = Ok found) /\
    (forall node siblings,
        newheight = MaxDepositSubTreeHeight params ->
        GetDepositNodeAndSiblings c db1 = Ok (node, siblings) ->
        fired s' = fired s ++ [(node, siblings, MaxDepositSubTreeHeight params)]) /\
    (newheight <> MaxDepositSubTreeHeight params \/
     (exists err, GetDepositNodeAndSiblings c db1 = Err err) ->
     fired s' = fired s).
Proof.
  intros Hunpack Hmerge Hparams. destruct s as [db fs ls]. cbn in *.
  unfold processDepositLeafMerged. rewrite Hunpack.
  unfold bind, liftDB, gets. cbn. rewrite Hmerge. cbn. rewrite Hparams.
  destruct (Z.eqb_spec newheight (MaxDepositSubTreeHeight params)) as [Heq|Hne].
  - unfold SendDepositFinalisationTx, bind, gets, fire, modify. cbn. rewrite Hparams.
    cbn. destruct (GetDepositNodeAndSiblings c db1) as [[node siblings]|err] eqn:Hfound.
    + eexists. split; [reflexivity|]. cbn. split; [reflexivity|].
      split; [|split].
      * split; [eauto|]. intros _. eauto.
      * intros node' siblings' _ [= <- <-]. reflexivity.
      * intros [Hne|[err [=]]]. contradiction.
    + eexists. split; [reflexivity|]. cbn. split; [reflexivity|].
      split; [|split].
      * split.
        -- intros [request Hreq]. symmetry in Hreq.
           apply app_singleton_neq in Hreq. contradiction.
        -- intros [_ [found [=]]].
      * intros node siblings _ [=].
      * reflexivity.
  - eexists. split; [reflexivity|]. cbn. split; [reflexivity|].
    split; [|split].
    + split.
      * intros [request Hreq]. symmetry in Hreq.
        apply app_singleton_neq in Hreq. contradiction.
      * intros [Heq _]. contradiction.
    + intros node siblings Heq. contradiction.
    + reflexivity.
Qed.

(** A batch the ledger already holds as committed: the handler returns
    and changes nothing, whatever state root the ledger holds for it. *)
Lemma processNewBatch_found_committed (eventName : string) (abiObject : ABI)
    (vLog : Log) (s : Syncer) (event : LoggerNewBatch) (params : Params)
    (batch : Batch) :
  UnpackLog_NewBatch c abiObject eventName vLog = Ok event ->
  GetParams (DBInstance s) = Ok params ->
  (String.eqb ZEROROOT (ByteArray_String prim (Txroot event)) = false ->
   exists txs, FetchBatchInputData c (TxHash vLog) = Ok txs) ->
  GetBatchByIndex (BigInt_Uint64 (Index event)) (DBInstance s) = Ok batch ->
  Batch_Status batch = BATCH_COMMITTED c ->
  processNewBatch prim c eventName abiObject vLog s = (Return tt, s).
Proof.
  intros Hunpack Hparams Hfetch Hbatch Hstatus. destruct s as [db fs ls].
  cbn -[String.eqb] in *.
  unfold processNewBatch. rewrite Hunpack. unfold bind, gets.
  cbn -[String.eqb]. rewrite Hparams.
  destruct (String.eqb ZEROROOT (ByteArray_String prim (Txroot event))) eqn:Hroot;
    cbn -[String.eqb].
  - rewrite Hbatch, Hstatus, Z.eqb_refl. reflexivity.
  - destruct (Hfetch eq_refl) as [txs ->]. cbn -[String.eqb].
    rewrite Hbatch, Hstatus, Z.eqb_refl. reflexivity.
Qed.

(** The runs of [processNewBatch], branch by branch. *)
Lemma processNewBatch_unfold (eventName : string) (abiObject : ABI) (vLog : Log)
    (db : DB) (fs : list (UserAccount * list UserAccount * Z)) (ls : list string) :
  processNewBatch prim c eventName abiObject vLog (mkSyncer db fs ls) =
  match UnpackLog_NewBatch c abiObject eventName vLog with
  | Err err => (Panic err, mkSyncer db fs ls)
  | Ok event =>
  match GetParams db with
  | Err _ => (Return tt, mkSyncer db fs ls)
  | Ok params =>
  match (if negb (String.eqb ZEROROOT (ByteArray_String prim (Txroot event)))
         then FetchBatchInputData c (TxHash vLog) else Ok []) with
  | Err err => (Panic err, mkSyncer db fs ls)
  | Ok txs =>
  match GetBatchByIndex (BigInt_Uint64 (Index event)) db with
  | Ok batch =>
      if Batch_Status batch =? BATCH_COMMITTED c then (Return tt, mkSyncer db fs ls)
      else
        match CommitBatch (newBatchOf prim c event txs params) db with
        | (Return _, db1) => (Return tt, mkSyncer db1 fs ls)
        | (Panic e, db1) => (Panic e, mkSyncer db1 fs ls)
        end
  | Err err =>
      if IsRecordNotFoundError err then
        match ApplyTxsFromBatch c txs db with
        | (Return None, db1) =>
            match AddNewBatch (newBatchOf prim c event txs params) db1 with
            | (Return None, db2) => (Return tt, mkSyncer db2 fs ls)
            | (Return (Some e), db2) => (Panic e, mkSyncer db2 fs ls)
            | (Panic e, db2) => (Panic e, mkSyncer db2 fs ls)
            end
        | (Return (Some e), db1) => (Panic e, mkSyncer db1 fs ls)
        | (Panic e, db1) => (Panic e, mkSyncer db1 fs ls)
        end
      else (Return tt, mkSyncer db fs (ls ++ ["Unable to fetch batch"]))
  end end end end.
Proof.
  unfold processNewBatch.
  destruct (UnpackLog_NewBatch c abiObject eventName vLog) as [event|err]; [|reflexivity].
  unfold bind, gets, liftDB, Logger_Error, modify, panic, ret. run.
  destruct (GetParams db) as [p|e]; [|reflexivity].
  destruct (negb (String.eqb ZEROROOT (ByteArray_String prim (Txroot event))));
    [destruct (FetchBatchInputData c (TxHash vLog)) as [txs|e]; [|reflexivity]|];
    run.
  all: destruct (GetBatchByIndex (BigInt_Uint64 (Index event)) db) as [b|e].
  all: try (destruct (Batch_Status b =? BATCH_COMMITTED c); run;
            [reflexivity|];
            destruct (negb (String.eqb (StateRoot b) _)); run;
            match goal with
            | |- context [CommitBatch ?nb ?d] =>
                destruct (CommitBatch nb d) as [[?|?] ?]; reflexivity
            end).
  all: destruct (IsRecordNotFoundError e); [|reflexivity]; run.
  all: match goal with
       | |- context [ApplyTxsFromBatch ?cc ?txs ?d] =>
           destruct (ApplyTxsFromBatch cc txs d) as [[[?|]|?] db1]; try reflexivity
       end.
  all: run;
    match goal with
    | |- context [AddNewBatch ?nb ?d] =>
        destruct (AddNewBatch nb d) as [[[?|]|?] db2]; reflexivity
    end.
Qed.

(** A batch the ledger already holds, in whatever status (one the node
    submitted itself, say): however the handler ends, it has applied no
    transaction -- the account rows are as they were. *)
Lemma processNewBatch_found_keeps_accounts (eventName : string) (abiObject : ABI)
    (vLog : Log) (s s' : Syncer) (event : LoggerNewBatch) (batch : Batch)
    (out : outcome unit) :
  UnpackLog_NewBatch c abiObject eventName vLog = Ok event ->
  GetBatchByIndex (BigInt_Uint64 (Index event)) (DBInstance s) = Ok batch ->
  processNewBatch prim c eventName abiObject vLog s = (out, s') ->
  user_accounts (DBInstance s') = user_accounts (DBInstance s).
Proof.
  destruct s as [db fs ls]. intros Hunpack Hbatch.
  rewrite processNewBatch_unfold, Hunpack. cbn [DBInstance] in *.
  destruct (GetParams db); [|intros [= _ <-]; reflexivity].
  destruct (if negb _ then _ else _); [|intros [= _ <-]; reflexivity].
  rewrite Hbatch.
  destruct (Batch_Status batch =? BATCH_COMMITTED c); [intros [= _ <-]; reflexivity|].
  unfold CommitBatch.
  destruct (batches db !! _) as [old|]; [destruct (_ <? _)|];
    intros [= _ <-]; reflexivity.
Qed.

(** C1 (amended).  Redelivery of a [NewBatch] event, after a run of the
    handler on it that returned with the syncer in state [s1]: a second
    run returns with the syncer still in state [s1] -- no account row (so
    no balance), no hash and so no root has changed, nothing was applied a
    second time -- because it finds the batch in the ledger before it
    would apply anything.  What tells the handler that a batch is already
    applied is the ledger and nothing else: the first run left the account
    rows alone when the ledger held the batch, in whatever status, and
    when the ledger did not hold it, it applied the transactions, once,
    whatever the roots were. *)
Theorem processNewBatch_idempotent (eventName : string) (abiObject : ABI)
    (vLog : Log) (s s1 : Syncer) :
  processNewBatch prim c eventName abiObject vLog s = (Return tt, s1) ->
  (exists s2,
      processNewBatch prim c eventName abiObject vLog s1 = (Return tt, s2) /\
      s2 = s1 /\
      user_accounts (DBInstance s2) = user_accounts (DBInstance s1) /\
      GetRoot (DBInstance s2) = GetRoot (DBInstance s1)) /\
  (forall event params txs,
      UnpackLog_NewBatch c abiObject eventName vLog = Ok event ->
      GetParams (DBInstance s) = Ok params ->
      (if negb (String.eqb ZEROROOT (ByteArray_String prim (Txroot event)))
       then FetchBatchInputData c (TxHash vLog) else Ok []) = Ok txs ->
      match GetBatchByIndex (BigInt_Uint64 (Index event)) (DBInstance s) with
      | Ok _ => user_accounts (DBInstance s1) = user_accounts (DBInstance s)
      | Err _ =>
          exists db1,
            ApplyTxsFromBatch c txs (DBInstance s) = (Return None, db1) /\
            user_accounts (DBInstance s1) = user_accounts db1
      end) /\
  (forall event params,
      UnpackLog_NewBatch c abiObject eventName vLog = Ok event ->
      GetParams (DBInstance s1) = Ok params ->
      exists batch,
        GetBatchByIndex (BigInt_Uint64 (Index event)) (DBInstance s1) = Ok batch).
Proof.
  intros Hfirst.
  cut (processNewBatch prim c eventName abiObject vLog s1 = (Return tt, s1) /\
       (forall event params txs,
           UnpackLog_NewBatch c abiObject eventName vLog = Ok event ->
           GetParams (DBInstance s) = Ok params ->
           (if negb (String.eqb ZEROROOT (ByteArray_String prim (Txroot event)))
            then FetchBatchInputData c (TxHash vLog) else Ok []) = Ok txs ->
           match GetBatchByIndex (BigInt_Uint64 (Index event)) (DBInstance s) with
           | Ok _ => user_accounts (DBInstance s1) = user_accounts (DBInstance s)
           | Err _ =>
               exists db1,
                 ApplyTxsFromBatch c txs (DBInstance s) = (Return None, db1) /\
                 user_accounts (DBInstance s1) = user_accounts db1
           end) /\
       (forall event params,
           UnpackLog_NewBatch c abiObject eventName vLog = Ok event ->
           GetParams (DBInstance s1) = Ok params ->
           exists batch,
             GetBatchByIndex (BigInt_Uint64 (Index event)) (DBInstance s1) = Ok batch)).
  { intros (Hagain & Honce & Hfound). split; [exists s1; auto|auto]. }
  pose proof Hfirst as Hrun. revert Hfirst.
  destruct s as [db fs ls]. rewrite processNewBatch_unfold.
  destruct (UnpackLog_NewBatch c abiObject eventName vLog) as [event|err] eqn:Hunpack;
    [|discriminate].
  set (idx := BigInt_Uint64 (Index event)).
  cbn [DBInstance].
  (* what a second run does once the ledger holds the batch as committed *)
  assert (Hagain : forall db1 b,
    batches db1 !! idx = Some b -> Batch_Status b = BATCH_COMMITTED c ->
    (exists txs,
       (if negb (String.eqb ZEROROOT (ByteArray_String prim (Txroot event)))
        then FetchBatchInputData c (TxHash vLog) else Ok []) = Ok txs) ->
    processNewBatch prim c eventName abiObject vLog (mkSyncer db1 fs ls)
    = (Return tt, mkSyncer db1 fs ls)).
  { intros db1 b Hb Hst [txs Htxs].
    rewrite processNewBatch_unfold, Hunpack, Htxs.
    destruct (GetParams db1); [|reflexivity].
    unfold GetBatchByIndex. fold idx. rewrite Hb, Hst, Z.eqb_refl. reflexivity. }
  destruct (GetParams db) as [p|e] eqn:Hp.
  2: { intros [= <-]. split; [exact Hrun|]. split.
       - intros event' params' txs' _ Hp'. discriminate Hp'.
       - intros event' params' _ Hp'. cbn in Hp'. rewrite Hp in Hp'. discriminate Hp'. }
  destruct (if negb (String.eqb ZEROROOT (ByteArray_String prim (Txroot event)))
            then FetchBatchInputData c (TxHash vLog) else Ok []) as [txs|e] eqn:Htxs;
    [|discriminate].
  unfold GetBatchByIndex. fold idx.
  destruct (batches db !! idx) as [b|] eqn:Hb.
  - (* the ledger held the batch: nothing is applied *)
    assert (Hkept : forall db1,
      user_accounts db1 = user_accounts db ->
      (exists b1, batches db1 !! idx = Some b1) ->
      (forall event' params' txs',
          Ok event = Ok event' -> Ok p = Ok params' ->
          (if negb (String.eqb ZEROROOT (ByteArray_String prim (Txroot event')))
           then FetchBatchInputData c (TxHash vLog) else Ok []) = Ok txs' ->
          match
            match batches db !! BigInt_Uint64 (Index event') with
            | Some batch => Ok batch
            | None => Err GormRecordNotFound
            end
          with
          | Ok _ => user_accounts db1 = user_accounts db
          | Err _ =>
              exists db2,
                ApplyTxsFromBatch c txs' db = (Return None, db2) /\
                user_accounts db1 = user_accounts db2
          end) /\
      (forall event' params',
          Ok event = Ok event' -> GetParams db1 = Ok params' ->
          exists batch,
            match batches db1 !! BigInt_Uint64 (Index event') with
            | Some batch => Ok batch
            | None => Err GormRecordNotFound
            end = Ok batch)).
    { intros db1 Hrows [b1 Hb1]. split.
      - intros event' params' txs' [= <-] _ _. fold idx. rewrite Hb. exact Hrows.
      - intros event' params' [= <-] _. fold idx. rewrite Hb1. eauto. }
    destruct (Z.eqb_spec (Batch_Status b) (BATCH_COMMITTED c)) as [Hst|Hst].
    + intros [= <-]. split; [exact Hrun|]. apply Hkept; eauto.
    + unfold CommitBatch. cbn [BatchID newBatchOf Batch_Status]. fold idx. rewrite Hb.
      destruct (Z.ltb_spec (Batch_Status b) (BATCH_COMMITTED c)) as [Hlt|Hge].
      * intros [= <-]. split.
        -- eapply Hagain; [cbn; apply lookup_insert_eq|reflexivity|eauto].
        -- apply Hkept; [reflexivity|]. cbn. rewrite lookup_insert_eq. eauto.
      * intros [= <-]. split; [exact Hrun|]. apply Hkept; eauto.
  - (* the ledger did not hold it: the transactions are applied, once *)
    cbn [IsRecordNotFoundError].
    destruct (ApplyTxsFromBatch c txs db) as [[[e|]|e] db1] eqn:Happly; try discriminate.
    unfold AddNewBatch. cbn [BatchID newBatchOf]. fold idx.
    destruct (batches db1 !! idx) eqn:Hb1; [discriminate|].
    intros [= <-]. split; [|split].
    + eapply Hagain; [cbn; apply lookup_insert_eq|reflexivity|eauto].
    + intros event' params' txs' [= <-] _ Htxs'. fold idx. rewrite Hb.
      rewrite Htxs in Htxs'. injection Htxs' as <-.
      exists db1. split; [exact Happly|reflexivity].
    + intros event' params' [= <-] _. cbn. fold idx. rewrite lookup_insert_eq. eauto.
Qed.

Lemma applyTxs_first_failure (from to amount : list Z) (sig : list (list Z))
    (before : list nat) :
  forall (i : nat) (after : list nat) (db db1 db2 : DB) (e : error),
    applyTxs c from to amount sig before db = (Return None, db1) ->
    applyTx c from to amount sig i db1 = (Return (Some e), db2) ->
    applyTxs c from to amount sig (before ++ i :: after) db = (Return (Some e), db2).
Proof.
  induction before as [|j before IH]; intros i after db db1 db2 e Hbefore Hi.
  - cbn in Hbefore. injection Hbefore as <-. cbn. unfold bind. rewrite Hi. reflexivity.
  - cbn in Hbefore |- *. unfold bind in *.
    destruct (applyTx c from to amount sig j db) as [[[e'|]|e'] db'];
      try discriminate.
    eapply IH; eassumption.
Qed.

(** A batch that cannot be decompressed is refused before anything is
    written. *)
Lemma ApplyTxsFromBatch_decompress_error (txs : list (list Z)) (db : DB) (e : error) :
  txs <> [] -> DecompressTransferTxs c txs = Err e ->
  ApplyTxsFromBatch c txs db = (Return (Some e), db).
Proof.
  intros Hne He. unfold ApplyTxsFromBatch. destruct txs; [contradiction|].
  cbn [length Nat.eqb]. rewrite He. reflexivity.
Qed.

(** A round whose sender is not an active account fails before it writes
    anything. *)
Lemma applyTx_unknown_sender (from to amount : list Z) (sig : list (list Z))
    (i : nat) (f : Z) (db : DB) (e : error) :
  from !! i = Some f -> GetAccountByID (BigInt_Uint64 f) db = Err e ->
  applyTx c from to amount sig i db = (Return (Some e), db).
Proof.
  intros Hf He. unfold applyTx. rewrite Hf. unfold bind, gets. rewrite He. reflexivity.
Qed.

(** C3 (amended).  Batch application stops at the first transaction that
    fails: when the transactions before the [k]-th are applied and the
    [k]-th fails with [e], [ApplyTxsFromBatch] returns [e] and applies
    none of the later transactions, and the store is left as the earlier
    transactions and the failing round left it ([db2]), their leaf
    updates included.  When the failure is an unknown sender, that is
    exactly the store after the earlier transactions. *)
Theorem ApplyTxsFromBatch_stops_at_first_failure (txs : list (list Z))
    (from to amount : list Z) (sig : list (list Z)) (k : nat)
    (db db1 db2 : DB) (e : error) :
  DecompressTransferTxs c txs = Ok (from, to, amount, sig) ->
  (k < length txs)%nat ->
  applyTxs c from to amount sig (seq 0 k) db = (Return None, db1) ->
  applyTx c from to amount sig k db1 = (Return (Some e), db2) ->
  ApplyTxsFromBatch c txs db = (Return (Some e), db2) /\
  (forall f e',
      from !! k = Some f -> GetAccountByID (BigInt_Uint64 f) db1 = Err e' ->
      e = e' /\ db2 = db1).
Proof.
  intros Hdec Hk Hbefore Hfail. split.
  - unfold ApplyTxsFromBatch.
    destruct (Nat.eqb_spec (length txs) 0) as [Hz|_]; [lia|].
    rewrite Hdec.
    replace (length txs) with (k + S (length txs - S k))%nat by lia.
    rewrite seq_app. cbn [seq]. rewrite Nat.add_0_l.
    eapply applyTxs_first_failure; eassumption.
  - intros f e' Hf He'.
    rewrite (applyTx_unknown_sender _ _ _ _ _ _ _ _ Hf He') in Hfail.
    injection Hfail as -> ->. auto.
Qed.

End ListenerFacts.

(** ** The handlers on the small instance *)

Section DemoFacts.
Import Core Listener Demo.

Lemma processNewBatch_idempotent_witness :
  exists s2,
    processNewBatch demoPrim batchCollab "NewBatch" demoABI batchLog afterBatch
    = (Return tt, s2) /\
    s2 = afterBatch.
Proof.
  destruct (processNewBatch_idempotent demoPrim batchCollab "NewBatch" demoABI batchLog
              (demoSyncer genesisDB) afterBatch) as ((s2 & Hrun & Hsame & _) & _).
  - vm_compute. reflexivity.
  - exists s2. split; assumption.
Defined.

(** C1 as stated fails.  The one transfer of batch 5, of 30 from account 1
    to account 2, is applied to the store already and the root of the
    store is the root the chain reports for the batch, but the ledger has
    no entry for batch 5: the handler does not compare the roots, it
    applies the transfer a second time -- account 1 goes from 70 to 40,
    account 2 from 30 to 60 -- and records the batch with the reported
    state root, which the tree no longer has. *)
Lemma processNewBatch_reapplies_applied_batch :
  ApplyTxsFromBatch selfSubmittedCollab [[1; 2; 30]] genesisDB
  = (Return None, afterTransfer) /\
  UnpackLog_NewBatch selfSubmittedCollab demoABI "NewBatch" batchLog
  = Ok (mkLoggerNewBatch "0xc0" [1] transferRoot 5) /\
  FetchBatchInputData selfSubmittedCollab (TxHash batchLog) = Ok [[1; 2; 30]] /\
  result_map Hash (GetRoot afterTransfer) = Ok (ByteArray_String demoPrim transferRoot) /\
  GetBatchByIndex 5 afterTransfer = Err GormRecordNotFound /\
  exists s',
    processNewBatch demoPrim selfSubmittedCollab "NewBatch" demoABI batchLog
      (demoSyncer afterTransfer) = (Return tt, s') /\
    result_map Data (GetAccountByID 1 afterTransfer) = Ok (Some [1; 70; 1; 7]) /\
    result_map Data (GetAccountByID 1 (DBInstance s')) = Ok (Some [1; 40; 2; 7]) /\
    result_map Data (GetAccountByID 2 afterTransfer) = Ok (Some [2; 30; 0; 7]) /\
    result_map Data (GetAccountByID 2 (DBInstance s')) = Ok (Some [2; 60; 0; 7]) /\
    result_map Hash (GetRoot (DBInstance s')) <> result_map Hash (GetRoot afterTransfer) /\
    result_map StateRoot (GetBatchByIndex 5 (DBInstance s'))
    = Ok (ByteArray_String demoPrim transferRoot).
Proof.
  split; [vm_compute; reflexivity|]. split; [reflexivity|]. split; [reflexivity|].
  split; [vm_compute; reflexivity|]. split; [vm_compute; reflexivity|].
  eexists. split; [vm_compute; reflexivity|].
  split; [vm_compute; reflexivity|]. split; [vm_compute; reflexivity|].
  split; [vm_compute; reflexivity|]. split; [vm_compute; reflexivity|].
  split; [vm_compute; discriminate|vm_compute; reflexivity].
Qed.

(** Processing the event once moved 30 from account 1 to account 2. *)
Example afterBatch_balances :
  user_accounts (DBInstance afterBatch) = user_accounts afterTransfer /\
  match GetAccountByID 1 (DBInstance afterBatch), GetAccountByID 2 (DBInstance afterBatch) with
  | Ok a1, Ok a2 => Data a1 = Some [1; 70; 1; 7] /\ Data a2 = Some [2; 30; 0; 7]
  | _, _ => False
  end.
Proof. vm_compute. auto. Qed.

(** C2 fails on the code.  The ledger holds batch 5 as committed with
    state root "0xaa"; the chain reports batch 5 with state root "0xbb".
    The handler returns without a panic, logs no error and leaves the
    syncer as it was: the disagreement is not looked at. *)
Theorem processNewBatch_committed_mismatch_unnoticed :
  (exists batch,
      GetBatchByIndex 5 committedDB = Ok batch /\
      Batch_Status batch = BATCH_COMMITTED batchCollab /\
      StateRoot batch = "0xaa"%string) /\
  UnpackLog_NewBatch batchCollab demoABI "NewBatch" batchLog
  = Ok (mkLoggerNewBatch "0xc0" [1] [187] 5) /\
  ByteArray_String demoPrim [187] = "0xbb"%string /\
  processNewBatch demoPrim batchCollab "NewBatch" demoABI batchLog
    (demoSyncer committedDB)
  = (Return tt, demoSyncer committedDB).
Proof.
  split; [|split; [|split]].
  - eexists. split; [vm_compute; reflexivity|]. split; reflexivity.
  - reflexivity.
  - reflexivity.
  - vm_compute. reflexivity.
Qed.

(** C3 as stated fails.  In a batch of two transfers the second names the
    unknown sender 9: the batch is refused with a not-found error, and the
    first transfer stays applied -- account 1 went from 100 to 70, account
    2 from 0 to 30, and the root changed. *)
Lemma ApplyTxsFromBatch_not_all_or_nothing :
  exists db',
    ApplyTxsFromBatch batchCollab [[1; 2; 30]; [9; 2; 5]] genesisDB
    = (Return (Some (ErrRecordNotFound "unable to find record for ID")), db') /\
    user_accounts db' <> user_accounts genesisDB /\
    match GetAccountByID 1 genesisDB, GetAccountByID 1 db' with
    | Ok before, Ok after => Data before = Some [1; 100; 0; 7] /\ Data after = Some [1; 70; 1; 7]
    | _, _ => False
    end /\
    match GetRoot genesisDB, GetRoot db' with
    | Ok before, Ok after => Hash before <> Hash after
    | _, _ => False
    end.
Proof.
  eexists. split; [vm_compute; reflexivity|].
  split; [vm_compute; discriminate|].
  split; [vm_compute; auto|vm_compute; discriminate].
Qed.

Lemma ApplyTxsFromBatch_stops_at_first_failure_witness :
  ApplyTxsFromBatch batchCollab [[1; 2; 30]; [9; 2; 5]] genesisDB
  = (Return (Some (ErrRecordNotFound "unable to find record for ID")), afterTransfer).
Proof.
  apply (ApplyTxsFromBatch_stops_at_first_failure batchCollab
           [[1; 2; 30]; [9; 2; 5]] [1; 9] [2; 2] [30; 5] [[]; []] 1
           genesisDB afterTransfer afterTransfer).
  - reflexivity.
  - cbn. lia.
  - vm_compute. reflexivity.
  - vm_compute. reflexivity.
Defined.

(** C6 as stated fails.  With [MaxDepositSubTreeHeight = 1] the merge
    brings the accumulator to height 1, but the genesis tree has no empty
    node for the deposit subtree, [GetDepositNodeAndSiblings] fails, and
    no finalisation request is sent. *)
Lemma processDepositLeafMerged_eligible_not_fired :
  exists s',
    processDepositLeafMerged batchCollab "DepositLeafMerged" demoABI mergeLog
      (demoSyncer genesisDB) = (Return tt, s') /\
    height (deposits (DBInstance s')) = MaxDepositSubTreeHeight demoParams /\
    fired s' = [].
Proof. eexists. split; [vm_compute; reflexivity|]. split; reflexivity. Qed.

Lemma processDepositLeafMerged_fires_witness :
  exists s',
    processDepositLeafMerged batchCollab "DepositLeafMerged" demoABI mergeLog
      (demoSyncer emptyTreeDB) = (Return tt, s') /\
    fired s' = [(EmptyAccount demoPrim, [], 1)].
Proof.
  destruct (processDepositLeafMerged_fires batchCollab "DepositLeafMerged" demoABI
              mergeLog (demoSyncer emptyTreeDB)
              (mkLoggerDepositLeafMerged [1] [2] [3]) 1
              (set_deposits emptyTreeDB (mkDepositSubtree 1 "0x03")) demoParams
              eq_refl eq_refl eq_refl)
    as (s' & Hrun & _ & _ & Hfire & _).
  exists s'. split; [exact Hrun|].
  apply (Hfire (EmptyAccount demoPrim) []); reflexivity.
Defined.

(** The scenario of 8: a tree of depth 2 over balances 100, 0, 0, 0, then a
    transfer of 30 from the first leaf to the second.  The balances become
    70 and 30, the other leaves are as they were, and the new root differs
    from the genesis root and is the hash of the four updated leaf hashes,
    pair by pair. *)
Example depth_two_scenario :
  fst (InitBalancesTree demoPrim 2 genesisAccounts emptyDB)
  = Return (None,
            [ mkUserAccount 1 (Some [1; 100; 0; 7]) ["0"; "0"]%char 1 1 "0x01640007" 2 EmptyString;
              mkUserAccount 2 (Some [2; 0; 0; 7]) ["0"; "1"]%char 1 1 "0x02000007" 2 EmptyString;
              mkUserAccount 3 (Some [3; 0; 0; 7]) ["1"; "0"]%char 1 1 "0x03000007" 2 EmptyString;
              mkUserAccount 4 (Some [4; 0; 0; 7]) ["1"; "1"]%char 1 1 "0x04000007" 2 EmptyString ]) /\
  ApplyTxsFromBatch batchCollab [[1; 2; 30]] genesisDB = (Return None, afterTransfer) /\
  map Data (user_accounts afterTransfer)
  = [Some [1; 70; 1; 7]; Some [2; 30; 0; 7]; Some [3; 0; 0; 7]; Some [4; 0; 0; 7];
     Some [48]; Some [48]; Some [48]] /\
  match GetRoot genesisDB, GetRoot afterTransfer with
  | Ok before, Ok after =>
      Hash before <> Hash after /\
      match GetParent demoPrim (Keccak256 demoPrim [1; 70; 1; 7])
              (Keccak256 demoPrim [2; 30; 0; 7]),
            GetParent demoPrim (Keccak256 demoPrim [3; 0; 0; 7])
              (Keccak256 demoPrim [4; 0; 0; 7]) with
      | Ok h12, Ok h34 =>
          result_map (ByteArray_String demoPrim) (GetParent demoPrim h12 h34)
          = Ok (Hash after)
      | _, _ => False
      end
  | _, _ => False
  end.
Proof.
  split; [vm_compute; reflexivity|].
  split; [vm_compute; reflexivity|].
  split; [vm_compute; reflexivity|].
  vm_compute. split; [discriminate|reflexivity].
Qed.

Lemma hex_value_digit (d : Z) : 0 <= d < 16 -> hex_value (hex_digit d) = Some d.
Proof.
  intros Hd.
  assert (Hcases : d = 0 \/ d = 1 \/ d = 2 \/ d = 3 \/ d = 4 \/ d = 5 \/ d = 6 \/ d = 7 \/
                   d = 8 \/ d = 9 \/ d = 10 \/ d = 11 \/ d = 12 \/ d = 13 \/ d = 14 \/
                   d = 15) by lia.
  repeat (destruct Hcases as [->|Hcases]; [reflexivity|]). subst. reflexivity.
Qed.

Lemma parse_hex_bytes (zs : list Z) :
  parse_hex
    (concat (map (fun z => [hex_digit (z / 16 mod 16); hex_digit (z mod 16)])
               (to_bytes zs)))
  = Some (to_bytes zs).
Proof.
  induction zs as [|z zs IH]; [reflexivity|].
  cbn [to_bytes map concat app parse_hex]. fold (to_bytes zs). rewrite IH.
  pose proof (Z.mod_pos_bound z 256 ltac:(lia)) as Hz.
  set (b := z mod 256) in *. clearbody b.
  rewrite !hex_value_digit by (apply Z.mod_pos_bound; lia).
  do 2 f_equal. rewrite (Z.mod_small (b / 16)).
  - pose proof (Z.div_mod b 16 ltac:(lia)). lia.
  - split; [apply Z.div_pos; lia|apply Z.div_lt_upper_bound; lia].
Qed.

Lemma demoPrim_renders (zs : list Z) : hash_renders demoPrim (to_bytes zs).
Proof.
  split; [discriminate|].
  unfold HexToByteArray. cbn [prim_HexToByteArray ByteArray_String demoPrim].
  unfold demoHex, demoString.
  rewrite list_ascii_of_string_of_list_ascii, parse_hex_bytes. reflexivity.
Qed.

Lemma demoPrim_hashes_render : hashes_render demoPrim.
Proof.
  split.
  - intros data. apply demoPrim_renders.
  - intros l r h [= <-]. apply demoPrim_renders.
Qed.

(** [InitBalancesTree] has built a root-consistent tree. *)
Lemma genesisDB_root_consistent : root_consistent demoPrim genesisDB.
Proof. apply root_consistentb_sound. vm_compute. reflexivity. Qed.

(** The store after the transfer is what two calls of [UpdateAccount] made
    of the genesis store, and is root-consistent as the genesis store
    was. *)
Lemma afterTransfer_root_consistent : root_consistent demoPrim afterTransfer.
Proof.
  set (sender := mkUserAccount 1 (Some [1; 70; 1; 7]) ["0"; "0"]%char 1 1 "0x01640007" 2 EmptyString).
  set (receiver := mkUserAccount 2 (Some [2; 30; 0; 7]) ["0"; "1"]%char 1 1 "0x02000007" 2 EmptyString).
  set (mid := snd (UpdateAccount demoPrim sender genesisDB)).
  apply (UpdateAccount_root_consistent demoPrim receiver mid afterTransfer
           demoPrim_hashes_render).
  - apply (UpdateAccount_root_consistent demoPrim sender genesisDB mid
             demoPrim_hashes_render genesisDB_root_consistent).
    + constructor; [left; reflexivity|]. constructor; [left; reflexivity|constructor].
    + intros (l & r & Hl & _). vm_compute in Hl. discriminate.
    + vm_compute. reflexivity.
  - constructor; [left; reflexivity|]. constructor; [right; reflexivity|constructor].
  - intros (l & r & Hl & _). vm_compute in Hl. discriminate.
  - vm_compute. reflexivity.
Qed.

Lemma sibling_proof_round_trip_witness :
  exists rootNode rootHash,
    GetRoot afterTransfer = Ok rootNode /\
    HexToByteArray demoPrim (Hash rootNode) = Ok rootHash /\
    recomputeRoot demoPrim ["0"; "1"]%char [2; 30; 0; 7]
      [ mkUserAccount 1 (Some [1; 70; 1; 7]) ["0"; "0"]%char 1 1 "0x01460107" 2 EmptyString;
        mkUserAccount 0 (Some [48]) ["1"%char] 1 2 "0x0300000704000007" 1 EmptyString ]
    = Ok rootHash.
Proof.
  apply (sibling_proof_round_trip demoPrim afterTransfer ["0"; "1"]%char
           (mkUserAccount 2 (Some [2; 30; 0; 7]) ["0"; "1"]%char 1 1 "0x021e0007" 2 EmptyString)).
  - exact afterTransfer_root_consistent.
  - vm_compute. repeat constructor.
  - constructor; [left; reflexivity|]. constructor; [right; reflexivity|constructor].
  - vm_compute. reflexivity.
  - vm_compute. reflexivity.
  - vm_compute. reflexivity.
Defined.

End DemoFacts.

(** ** More on package common *)

Section CommonMore.
Import Common.

(** [UintToByte] is a faithful encoding: four bytes whose little-endian
    value is the number, so that different numbers get different
    encodings. *)
Theorem UintToByte_round_trip (a : Z) :
  in_uint32 a ->
  length (UintToByte a) = 4%nat /\
  Forall (fun b => 0 <= b < 256) (UintToByte a) /\
  le_value (UintToByte a) = a /\
  (forall b, in_uint32 b -> UintToByte a = UintToByte b -> a = b).
Proof.
  intros Ha.
  assert (Hvalue : forall x, in_uint32 x -> le_value (UintToByte x) = x).
  { intros x [Hlo Hhi]. rewrite UintToByte_bytes. cbn [le_value].
    change (2 ^ 32) with 4294967296 in Hhi.
    change (2 ^ 8) with 256. change (2 ^ 16) with 65536. change (2 ^ 24) with 16777216.
    Z.to_euclidean_division_equations. lia. }
  split; [rewrite UintToByte_bytes; reflexivity|].
  split.
  - rewrite UintToByte_bytes.
    repeat constructor; apply Z.mod_pos_bound; lia.
  - split; [apply Hvalue; exact Ha|].
    intros b Hb Heq. rewrite <- (Hvalue a Ha), <- (Hvalue b Hb), Heq. reflexivity.
Qed.

Lemma UintToByte_round_trip_witness :
  le_value (UintToByte 305419896) = 305419896.
Proof.
  destruct (UintToByte_round_trip 305419896) as (_ & _ & Hvalue & _).
  - unfold in_uint32. lia.
  - exact Hvalue.
Defined.

Lemma AppendSlices_from (acc : list Z) (dataSlices : list (list Z)) :
  foldl (fun result data => result ++ data) acc dataSlices = acc ++ concat dataSlices.
Proof.
  revert acc. induction dataSlices as [|d rest IH]; intros acc; cbn.
  - rewrite app_nil_r. reflexivity.
  - rewrite IH, <- app_assoc. reflexivity.
Qed.

(** [AppendSlices] joins the slices end to end, in order: it is the
    concatenation, so joining two lists of slices is joining each and
    putting the results together, and no byte is lost or added. *)
Theorem AppendSlices_concat (dataSlices more : list (list Z)) :
  AppendSlices dataSlices = concat dataSlices /\
  AppendSlices (dataSlices ++ more) = AppendSlices dataSlices ++ AppendSlices more /\
  length (AppendSlices dataSlices) = sum_list (map length dataSlices).
Proof.
  assert (H : forall l, AppendSlices l = concat l).
  { intros l. unfold AppendSlices. apply AppendSlices_from. }
  split; [apply H|]. split.
  - rewrite !H. apply concat_app.
  - rewrite H. induction dataSlices as [|d rest IH]; [reflexivity|].
    cbn. rewrite length_app, IH. reflexivity.
Qed.

(** [FlipBit] answers 0 or 1 whatever it is given, and flipping twice
    gives the bit back exactly for the bits 0 and 1. *)
Theorem FlipBit_involution (bit : Z) :
  (FlipBit bit = 0 \/ FlipBit bit = 1) /\
  (FlipBit (FlipBit bit) = bit <-> bit = 0 \/ bit = 1) /\
  (FlipBit bit = 0 <-> bit = 1).
Proof.
  unfold FlipBit. destruct (Z.eqb_spec bit 1) as [->|Hne]; cbn.
  - split; [auto|]. split; split; auto.
  - split; [auto|]. split; split.
    + intros <-. auto.
    + intros [-> | ->]; [reflexivity|contradiction].
    + discriminate.
    + contradiction.
Qed.

(** At a place that is not positive [ExtractBit] divides by zero: every
    such call panics. *)
Theorem ExtractBit_panics (num place : Z) :
  place <= 0 -> ExtractBit num place = None.
Proof.
  intros Hp. unfold ExtractBit, go_rem, go_quot, pow10_int.
  destruct (Z.ltb_spec place 0) as [Hneg|Hzero]; [reflexivity|].
  assert (place = 0) as -> by lia. reflexivity.
Qed.

Lemma ExtractBit_panics_witness : ExtractBit 10110 0 = None.
Proof. apply (ExtractBit_panics 10110 0). lia. Defined.

(** [Hash] does not digest its input: the result is the input itself
    followed by 32 bytes that are the same for every input, so the input
    can be read back from its "hash". *)
Theorem Hash_keeps_input (data : list Z) :
  length (Hash data) = (length data + 32)%nat /\
  take (length data) (Hash data) = data /\
  drop (length data) (Hash data) = Hash [] /\
  (forall other, Hash data = Hash other -> data = other).
Proof.
  unfold Hash. split; [rewrite length_app; reflexivity|].
  split; [apply take_app_length|]. split; [apply drop_app_length|].
  intros other H. apply app_inv_tail in H. exact H.
Qed.

End CommonMore.

(** ** Pending accounts and deposit tags *)

Section PendingFacts.
Import Core.
Context (prim : Primitives).

Lemma filter_bool_cons {A : Type} (f : A -> bool) (x : A) (l : list A) :
  filter f (x :: l) = if f x then x :: filter f l else filter f l.
Proof. rewrite filter_cons. destruct (f x); reflexivity. Qed.



Lemma filter_bool_all {A : Type} (f : A -> bool) (l : list A) :
  Forall (fun x => f x = true) l -> filter f l = l.
Proof.
  induction 1 as [|x l Hx _ IH]; [reflexivity|].
  rewrite filter_bool_cons, Hx, IH. reflexivity.
Qed.


Lemma set_user_accounts_same (db : DB) : set_user_accounts db (user_accounts db) = db.
Proof. destruct db. reflexivity. Qed.


(** A pending account is stored without touching the tree: the new row
    comes last, as created but for the column default -- data that is nil
    is stored as the one byte of the default, data that is not, the empty
    slice too, as it is --, every active account is found by id as before,
    every path but the one pending rows share is looked up as before, and
    when no pending row carried the id, deleting the pending account gives
    the old store back. *)
Theorem AddNewPendingAccount_apart (id : Z) (data : ByteSlice) (db : DB) :
  exists db1,
    AddNewPendingAccount (NewPendingUserAccount prim id data) db = (Return None, db1) /\
    user_accounts db1
    = user_accounts db ++ [Gorm.defaults (NewPendingUserAccount prim id data)] /\
    Data (Gorm.defaults (NewPendingUserAccount prim id data))
    = match data with | None => Some [48] | Some bs => Some bs end /\
    (forall i, GetAccountByID i db1 = GetAccountByID i db) /\
    (forall x, x <> UNINITIALIZED_PATH prim ->
               GetAccountByPath x db1 = GetAccountByPath x db) /\
    (Forall (fun row => ~ (AccountID row = id /\ Status row = STATUS_PENDING))
       (user_accounts db) ->
     DeletePendingAccount id db1 = (Return None, db)).
Proof.
  eexists. split; [reflexivity|]. cbn [user_accounts set_user_accounts].
  split; [reflexivity|]. split; [destruct data; reflexivity|]. split; [|split].
  - intros i. unfold GetAccountByID, Gorm.Find. cbn [user_accounts set_user_accounts].
    assert (Hnew : id_status_is i STATUS_ACTIVE
                     (Gorm.defaults (NewPendingUserAccount prim id data)) = false)
      by (destruct data; unfold id_status_is; cbn; apply andb_false_r).
    rewrite filter_app, !filter_bool_cons, filter_nil, Hnew, app_nil_r. reflexivity.
  - intros x Hx. unfold GetAccountByPath, Gorm.Find. cbn [user_accounts set_user_accounts].
    assert (Hnew : path_is x (Gorm.defaults (NewPendingUserAccount prim id data)) = false)
      by (destruct data; unfold path_is; apply bool_decide_eq_false_2; cbn; congruence).
    rewrite filter_app, !filter_bool_cons, filter_nil, Hnew, app_nil_r. reflexivity.
  - intros Hnone. unfold DeletePendingAccount, bind, on_accounts, Gorm.Delete, ret.
    cbn [user_accounts set_user_accounts].
    assert (Hnew : id_status_is id STATUS_PENDING
                     (Gorm.defaults (NewPendingUserAccount prim id data)) = true)
      by (destruct data; unfold id_status_is; cbn; rewrite Z.eqb_refl; reflexivity).
    rewrite filter_app, !filter_bool_cons, filter_nil, Hnew. cbn [negb].
    rewrite app_nil_r, filter_bool_all.
    + destruct db. reflexivity.
    + eapply Forall_impl; [exact Hnone|]. intros row Hrow. unfold id_status_is.
      destruct (Z.eqb_spec (AccountID row) id), (Z.eqb_spec (Status row) STATUS_PENDING);
        cbn; try reflexivity. exfalso. apply Hrow. auto.
Qed.

Lemma assign_tag (tag : string) (row : UserAccount) :
  tag <> EmptyString ->
  Gorm.assign (mkUserAccount 0 None [] 0 0 EmptyString 0 tag) row
  = set_CreatedByDepositSubTree row tag.
Proof.
  intros Htag. destruct row. unfold Gorm.assign, set_CreatedByDepositSubTree. cbn.
  destruct tag; [contradiction|reflexivity].
Qed.

(** [AttachDepositInfo] tags every pending account with the deposit root,
    whatever tag it carried, and nothing else: afterwards
    [GetPendingAccByDepositRoot] of that root returns all the pending
    accounts of the store, in order, each as it was but for the tag; for a
    root that renders differently it returns none, also when accounts had
    been tagged with it before; and every active account is found by id
    as before.  The rendering of a root is not the empty string. *)
Theorem AttachDepositInfo_tags_all_pending (root : ByteArray) (db : DB) :
  ByteArray_String prim root <> EmptyString ->
  exists db',
    AttachDepositInfo prim root db = (Return None, db') /\
    GetPendingAccByDepositRoot prim root db'
    = Ok (map (fun row => set_CreatedByDepositSubTree row (ByteArray_String prim root))
            (filter (status_is STATUS_PENDING) (user_accounts db))) /\
    (forall other, ByteArray_String prim other <> ByteArray_String prim root ->
                   GetPendingAccByDepositRoot prim other db' = Ok []) /\
    (forall id, GetAccountByID id db' = GetAccountByID id db) /\
    GetAccountCount db' = GetAccountCount db.
Proof.
  intros Htag. eexists. split; [reflexivity|].
  unfold GetPendingAccByDepositRoot, GetAccountByID, GetAccountCount, Gorm.FindAll, Gorm.Find.
  cbn [user_accounts set_user_accounts].
  set (tag := ByteArray_String prim root) in *.
  set (rows := user_accounts db). clearbody rows.
  split; [|split; [|split]].
  - f_equal. induction rows as [|row rows IH]; [reflexivity|].
    cbn [map]. rewrite !filter_bool_cons, IH.
    destruct (status_is STATUS_PENDING row) eqn:Hst; unfold status_is in Hst.
    + rewrite assign_tag by assumption. unfold deposit_status_is.
      cbn [CreatedByDepositSubTree Status set_CreatedByDepositSubTree].
      rewrite String.eqb_refl, Hst. reflexivity.
    + unfold deposit_status_is. rewrite Hst, andb_false_r. reflexivity.
  - intros other Hother. f_equal.
    induction rows as [|row rows IH]; [reflexivity|].
    cbn [map]. rewrite filter_bool_cons, IH.
    destruct (status_is STATUS_PENDING row) eqn:Hst; unfold status_is in Hst.
    + rewrite assign_tag by assumption. unfold deposit_status_is.
      cbn [CreatedByDepositSubTree Status set_CreatedByDepositSubTree].
      destruct (String.eqb_spec tag (ByteArray_String prim other)) as [Heq|_];
        [congruence|reflexivity].
    + unfold deposit_status_is. rewrite Hst, andb_false_r. reflexivity.
  - intros id.
    assert (Hfilter :
      filter (id_status_is id STATUS_ACTIVE)
        (map (fun row => if status_is STATUS_PENDING row
                         then Gorm.assign (mkUserAccount 0 None [] 0 0 EmptyString 0 tag) row
                         else row) rows)
      = filter (id_status_is id STATUS_ACTIVE) rows).
    { induction rows as [|row rows IH]; [reflexivity|].
      cbn [map]. rewrite !filter_bool_cons, IH. unfold status_is.
      destruct (Z.eqb_spec (Status row) STATUS_PENDING) as [Hst|Hst]; [|reflexivity].
      rewrite assign_tag by assumption. unfold id_status_is.
      cbn [AccountID Status set_CreatedByDepositSubTree]. rewrite Hst. cbn.
      rewrite andb_false_r. reflexivity. }
    rewrite Hfilter. reflexivity.
  - rewrite length_map. reflexivity.
Qed.

End PendingFacts.

(** ** The siblings of a path *)

Section SiblingFacts.
Import Core.

(** [GetSiblings] walks from the path to the root and stops at the first
    sibling the store does not hold: the [k]-th node it returns is the one
    stored at the sibling of the path's prefix [k] bits short; it returns
    no error exactly when it returns as many nodes as the path has bits;
    and the error it returns is the one of the first failing lookup. *)
Theorem GetSiblings_shape (p : pathstring) (db : DB)
    (siblings : list UserAccount) (err : option error) :
  GetSiblings p db = (siblings, err) ->
  (length siblings <= length p)%nat /\
  (forall k s, siblings !! k = Some s ->
     GetAccountByPath (GetOtherChild (take (length p - k) p)) db = Ok s) /\
  (err = None <-> length siblings = length p) /\
  (forall e, err = Some e ->
     GetAccountByPath (GetOtherChild (take (length p - length siblings) p)) db = Err e).
Proof.
  revert siblings err. induction p as [|ch q IH] using rev_ind; intros siblings err.
  - cbn. intros [= <- <-]. cbn. split; [lia|]. split; [|split].
    + intros k s Hk. rewrite lookup_nil in Hk. discriminate.
    + split; reflexivity.
    + discriminate.
  - rewrite GetSiblings_snoc.
    destruct (GetAccountByPath (q ++ [flip_char ch]) db) as [sib|e] eqn:Hsib.
    + destruct (GetSiblings q db) as [rest err'] eqn:Hrest. cbn [fst snd].
      intros [= <- <-].
      destruct (IH rest err' eq_refl) as (Hlen & Hnth & Hnone & Hsome).
      rewrite length_app. cbn [length].
      split; [lia|]. split; [|split].
      * intros [|k] s Hk.
        -- cbn in Hk. injection Hk as <-.
           replace (length q + 1 - 0)%nat with (length (q ++ [ch]))
             by (rewrite length_app; cbn; lia).
           rewrite firstn_all, GetOtherChild_snoc. exact Hsib.
        -- cbn in Hk. replace (length q + 1 - S k)%nat with (length q - k)%nat by lia.
           rewrite take_app_le by lia. apply Hnth. exact Hk.
      * rewrite Hnone. lia.
      * intros e He.
        replace (length q + 1 - S (length rest))%nat with (length q - length rest)%nat by lia.
        rewrite take_app_le by lia. apply Hsome. exact He.
    + intros [= <- <-]. rewrite length_app. cbn [length].
      split; [lia|]. split; [|split].
      * intros k s Hk. rewrite lookup_nil in Hk. discriminate.
      * split; [discriminate|lia].
      * intros e' [= <-].
        replace (length q + 1 - 0)%nat with (length (q ++ [ch]))
          by (rewrite length_app; cbn; lia).
        rewrite firstn_all, GetOtherChild_snoc. exact Hsib.
Qed.

End SiblingFacts.

(** ** What UpdateAccount writes *)

Section UpdateAccountFacts.
Import Core.
Context (prim : Primitives).

Lemma StoreNode_run (parentHash : ByteArray) (l r : UserAccount) (db : DB) :
  StoreNode prim parentHash l r db
  = (Return None,
     snd (updateAccount
            (mkUserAccount 0 None (GetParentPath (Path l)) 0 0
               (ByteArray_String prim parentHash) 0 EmptyString)
            (GetParentPath (Path l))
            (snd (updateAccount r (Path r) (snd (updateAccount l (Path l) db)))))).
Proof. reflexivity. Qed.

(** Every element of the list [GetSiblings] returns is a stored node. *)
Lemma GetSiblings_stored (p : pathstring) (db : DB) :
  Forall (fun s => exists x, GetAccountByPath x db = Ok s) (fst (GetSiblings p db)).
Proof.
  induction p as [|ch q IH] using rev_ind; [constructor|].
  rewrite GetSiblings_snoc.
  destruct (GetAccountByPath (q ++ [flip_char ch]) db) as [sib|e] eqn:Hsib; cbn.
  - constructor; [eauto|exact IH].
  - constructor.
Qed.

Section Invariant.
Variable inv : DB -> Prop.
Variable good : UserAccount -> Prop.
Hypothesis inv_update :
  forall v db, good v -> inv db -> inv (snd (updateAccount v (Path v) db)).
Hypothesis good_hash_only :
  forall q h, good (mkUserAccount 0 None q 0 0 h 0 EmptyString).
Hypothesis good_stored :
  forall x db n, inv db -> GetAccountByPath x db = Ok n -> good n.

Lemma StoreNode_invariant (parentHash : ByteArray) (l r : UserAccount) (db : DB) :
  inv db -> good l -> good r -> inv (snd (StoreNode prim parentHash l r db)).
Proof.
  intros Hdb Hl Hr. rewrite StoreNode_run. cbn [snd].
  apply (inv_update (mkUserAccount 0 None (GetParentPath (Path l)) 0 0
                       (ByteArray_String prim parentHash) 0 EmptyString)).
  - apply good_hash_only.
  - apply inv_update; [exact Hr|]. apply inv_update; assumption.
Qed.

Lemma StoreLeaf_loop_invariant (path : pathstring) (siblings : list UserAccount) :
  forall (i : nat) (cn : UserAccount) (db : DB),
    inv db -> good cn -> Forall good siblings ->
    inv (snd (StoreLeaf_loop prim path i siblings cn db)).
Proof.
  induction siblings as [|s rest IH]; intros i cn db Hdb Hcn Hsibs; [exact Hdb|].
  apply Forall_cons in Hsibs as [Hs Hrest].
  cbn [StoreLeaf_loop].
  destruct (GetNthBitFromRight path i) as [bit|e]; [|exact Hdb].
  unfold bind, HashToByteArray, gets, ret, panic.
  assert (Hnext : forall ph l r,
    good l -> good r ->
    inv (snd
      (let (o, s') := StoreNode prim ph l r db in
       match o with
       | Return a =>
           match a with
           | Some err => fun s0 : DB => (Return (Err err), s0)
           | None =>
               fun s0 : DB =>
                 match GetAccountByPath (GetParentPath (Path cn)) s0 with
                 | Ok parentAccount => StoreLeaf_loop prim path (S i) rest parentAccount
                 | Err err => fun s1 : DB => (Return (Err err), s1)
                 end s0
           end s'
       | Panic e => (Panic e, s')
       end))).
  { intros ph l r Hl Hr.
    pose proof (StoreNode_invariant ph l r db Hdb Hl Hr) as Hdb3.
    rewrite StoreNode_run in Hdb3 |- *. cbn [snd] in Hdb3.
    set (db3 := snd (updateAccount _ _ _)) in *.
    destruct (GetAccountByPath (GetParentPath (Path cn)) db3) as [parent|e] eqn:Hparent;
      [|exact Hdb3].
    apply IH; [exact Hdb3|exact (good_stored _ _ _ Hdb3 Hparent)|exact Hrest]. }
  destruct (bit =? 0).
  - destruct (HexToByteArray prim (Hash cn)) as [c|e]; [|exact Hdb].
    destruct (HexToByteArray prim (Hash s)) as [hs|e]; [|exact Hdb].
    destruct (GetParent prim c hs) as [ph|e]; [|exact Hdb].
    apply Hnext; assumption.
  - destruct (HexToByteArray prim (Hash s)) as [hs|e]; [|exact Hdb].
    destruct (HexToByteArray prim (Hash cn)) as [c|e]; [|exact Hdb].
    destruct (GetParent prim hs c) as [ph|e]; [|exact Hdb].
    apply Hnext; assumption.
Qed.

Lemma UpdateAccount_invariant (account : UserAccount) (db : DB) :
  inv db -> good (CreateAccountHash prim account) ->
  inv (snd (UpdateAccount prim account db)).
Proof.
  intros Hdb Hacc. unfold UpdateAccount, bind, gets.
  set (acc := CreateAccountHash prim account) in *.
  pose proof (GetSiblings_stored (Path acc) db) as Hstored.
  destruct (GetSiblings (Path acc) db) as [siblings [err|]]; [exact Hdb|].
  cbn [fst] in Hstored.
  assert (Hsibs : Forall good siblings).
  { eapply Forall_impl; [exact Hstored|]. intros s [x Hx]. exact (good_stored _ _ _ Hdb Hx). }
  pose proof (StoreLeaf_loop_invariant (Path acc) siblings 0 acc db Hdb Hacc Hsibs) as Hloop.
  unfold StoreLeaf, bind, ret.
  destruct (StoreLeaf_loop prim (Path acc) 0 siblings acc db) as [[[top|e]|e] db1];
    cbn [snd] in Hloop; try exact Hloop.
  unfold HashToByteArray, UpdateRootNodeHashes, ret, panic.
  destruct (HexToByteArray prim (Hash top)) as [h|e]; [|exact Hloop].
  apply (inv_update (mkUserAccount 0 None [] 0 0 (ByteArray_String prim h) 0 EmptyString));
    [apply good_hash_only|exact Hloop].
Qed.

End Invariant.

Lemma updateAccount_same_paths (db0 : DB) (v : UserAccount) (db : DB) :
  same_paths db0 db -> same_paths db0 (snd (updateAccount v (Path v) db)).
Proof.
  intros (Hrows & Hb & Hp & Hd). rewrite updateAccount_run. cbn [snd].
  split; [|auto]. cbn [user_accounts set_user_accounts]. rewrite <- Hrows.
  rewrite map_map. apply map_ext. intros row.
  destruct (path_is (Path v) row) eqn:Hrow; [|reflexivity].
  apply bool_decide_eq_true in Hrow.
  rewrite (assign_Path v row (Path v)); auto.
Qed.

Lemma UpdateAccount_paths_kept (db0 : DB) (account : UserAccount) (db : DB) :
  same_paths db0 db -> same_paths db0 (snd (UpdateAccount prim account db)).
Proof.
  intros Hdb. apply (UpdateAccount_invariant (same_paths db0) (fun _ => True)).
  - intros v d _. apply updateAccount_same_paths.
  - intros; exact I.
  - intros; exact I.
  - exact Hdb.
  - exact I.
Qed.

(** [UpdateAccount] never adds, removes or moves a node, whatever its
    outcome (nil, an error or a panic): the rows of the store keep their
    paths, row by row, and the other tables are left alone.  An account
    whose path is not stored is therefore not inserted. *)
Theorem UpdateAccount_same_paths (account : UserAccount) (db : DB) :
  same_paths db (snd (UpdateAccount prim account db)) /\
  GetAccountCount (snd (UpdateAccount prim account db)) = GetAccountCount db /\
  (forall x, GetAccountByPath x db = Err (ErrRecordNotFound "unable to find record for path") ->
             GetAccountByPath x (snd (UpdateAccount prim account db))
             = Err (ErrRecordNotFound "unable to find record for path")).
Proof.
  assert (Hsame : same_paths db (snd (UpdateAccount prim account db))).
  { apply UpdateAccount_paths_kept. repeat split. }
  split; [exact Hsame|].
  destruct Hsame as (Hrows & _).
  set (db' := snd (UpdateAccount prim account db)) in *. clearbody db'.
  split.
  - unfold GetAccountCount. f_equal.
    rewrite <- (length_map Path (user_accounts db')), Hrows. apply length_map.
  - intros x. unfold GetAccountByPath, Gorm.Find.
    assert (Hnone : forall rows, last (filter (path_is x) rows) = None <-> x ∉ map Path rows).
    { intros rows. induction rows as [|row rows IH]; cbn [map].
      - split; [intros _; apply not_elem_of_nil|reflexivity].
      - rewrite filter_bool_cons. unfold path_is at 1.
        case_bool_decide as Hrow.
        + split.
          * rewrite last_cons. destruct (last _); discriminate.
          * intros H. exfalso. apply H. rewrite Hrow. left.
        + rewrite IH. rewrite not_elem_of_cons. split; [auto|tauto]. }
    destruct (last (filter (path_is x) (user_accounts db))) eqn:Hold; [discriminate|].
    intros _. apply Hnone in Hold. rewrite <- Hrows in Hold. apply Hnone in Hold.
    rewrite Hold. reflexivity.
Qed.

Lemma updateAccount_levels_match (v : UserAccount) (db : DB) :
  level_fits v -> levels_match db -> levels_match (snd (updateAccount v (Path v) db)).
Proof.
  intros Hv Hdb. rewrite updateAccount_run. cbn [snd]. unfold levels_match in *.
  cbn [user_accounts set_user_accounts]. apply Forall_map.
  eapply Forall_impl; [exact Hdb|]. intros row Hrow. cbn beta.
  destruct (path_is (Path v) row) eqn:Hpath; [|exact Hrow].
  apply bool_decide_eq_true in Hpath.
  rewrite (assign_Path v row (Path v)) by auto.
  cbn [Level Gorm.assign]. unfold Gorm.assign_Z.
  destruct (Z.eqb_spec (Level v) 0) as [_|Hnz]; [congruence|].
  destruct Hv as [Hv|Hv]; [contradiction|exact Hv].
Qed.

Lemma stored_level_fits (x : pathstring) (db : DB) (n : UserAccount) :
  levels_match db -> GetAccountByPath x db = Ok n -> level_fits n.
Proof.
  intros Hdb Hn. apply GetAccountByPath_stored in Hn as [Hin _].
  unfold levels_match in Hdb. rewrite Forall_forall in Hdb. right. apply Hdb, Hin.
Qed.

(** [UpdateAccount] keeps what the sibling proofs rest on.  For an account
    whose level is unset or fits its path, every row's level still is the
    length of its path afterwards, whatever the outcome; and when the
    store was root-consistent, the account's path is a leaf of it and
    [UpdateAccount] returns [nil], the store is root-consistent again. *)
Theorem UpdateAccount_keeps_tree (account : UserAccount) (db : DB) :
  levels_match db ->
  level_fits account ->
  levels_match (snd (UpdateAccount prim account db)) /\
  (hashes_render prim -> root_consistent prim db ->
   is_bitpath (Path account) -> is_leaf_path (Path account) db ->
   fst (UpdateAccount prim account db) = Return None ->
   root_consistent prim (snd (UpdateAccount prim account db))).
Proof.
  intros Hlevels Hfits. split.
  - apply (UpdateAccount_invariant levels_match level_fits).
    + apply updateAccount_levels_match.
    + intros q h. left. reflexivity.
    + apply stored_level_fits.
    + exact Hlevels.
    + exact Hfits.
  - intros Hprim Hcons Hbits Hleaf Hrun.
    apply (UpdateAccount_root_consistent prim account db); try assumption.
    destruct (UpdateAccount prim account db) as [o db']. cbn in Hrun |- *.
    rewrite Hrun. reflexivity.
Qed.

End UpdateAccountFacts.

Section UpdateAccountRuns.
Import Core.
Context (prim : Primitives).

(** One round of the loop of [StoreLeaf], for a node that is not the
    root. *)
Lemma StoreLeaf_loop_snoc (q suffix : pathstring) (ch : ascii) (cn s : UserAccount)
    (rest : list UserAccount) (h : ByteArray) (db : DB) :
  Path cn = q ++ [ch] -> HexToByteArray prim (Hash cn) = Ok h ->
  ch = "0"%char \/ ch = "1"%char ->
  StoreLeaf_loop prim (q ++ ch :: suffix) (length suffix) (s :: rest) cn db
  = match HexToByteArray prim (Hash s) with
    | Err e => (Panic e, db)
    | Ok hs =>
        match (if Ascii.eqb ch "0" then GetParent prim h hs else GetParent prim hs h) with
        | Err e => (Return (Err e), db)
        | Ok ph =>
            let db3 :=
              snd (StoreNode prim ph (if Ascii.eqb ch "0" then cn else s)
                     (if Ascii.eqb ch "0" then s else cn) db) in
            match GetAccountByPath q db3 with
            | Ok parent =>
                StoreLeaf_loop prim (q ++ ch :: suffix) (S (length suffix)) rest parent db3
            | Err err => (Return (Err err), db3)
            end
        end
    end.
Proof.
  intros Hcn Hparse Hch. cbn [StoreLeaf_loop].
  rewrite GetNthBitFromRight_middle.
  unfold bind, HashToByteArray, gets, ret, panic. rewrite Hparse.
  assert (Hq : GetParentPath (Path cn) = q) by (rewrite Hcn; apply GetParentPath_snoc).
  destruct Hch as [-> | ->]; cbn [bit_of_char Ascii.eqb Bool.eqb Z.eqb].
  - destruct (HexToByteArray prim (Hash s)) as [hs|e]; [|reflexivity].
    destruct (GetParent prim h hs) as [ph|e]; [|reflexivity].
    rewrite !StoreNode_run. cbn [snd]. rewrite Hq.
    destruct (GetAccountByPath q _); reflexivity.
  - destruct (HexToByteArray prim (Hash s)) as [hs|e]; [|reflexivity].
    destruct (GetParent prim hs h) as [ph|e]; [|reflexivity].
    rewrite !StoreNode_run. cbn [snd]. rewrite Hq.
    destruct (GetAccountByPath q _); reflexivity.
Qed.

(** The store after the round, seen through [GetAccountByPath]. *)
Lemma StoreNode_round_lookups (q : pathstring) (ch : ascii) (cn s : UserAccount)
    (ph : ByteArray) (db : DB) :
  Path cn = q ++ [ch] -> GetAccountByPath (q ++ [flip_char ch]) db = Ok s ->
  ch = "0"%char \/ ch = "1"%char ->
  let db3 :=
    snd (StoreNode prim ph (if Ascii.eqb ch "0" then cn else s)
           (if Ascii.eqb ch "0" then s else cn) db) in
  (forall x, x <> q -> x <> q ++ [ch] -> GetAccountByPath x db3 = GetAccountByPath x db) /\
  GetAccountByPath (q ++ [ch]) db3
  = result_map (Gorm.assign cn) (GetAccountByPath (q ++ [ch]) db) /\
  GetAccountByPath q db3
  = result_map
      (Gorm.assign (mkUserAccount 0 None q 0 0 (ByteArray_String prim ph) 0 EmptyString))
      (GetAccountByPath q db).
Proof.
  intros Hcn Hs Hch db3.
  pose proof (GetAccountByPath_Path _ _ _ Hs) as Hspath.
  assert (Hall :
    (forall x, x <> q -> x <> q ++ [ch] -> x <> q ++ [flip_char ch] ->
               GetAccountByPath x db3 = GetAccountByPath x db) /\
    GetAccountByPath (q ++ [ch]) db3
    = result_map (Gorm.assign cn) (GetAccountByPath (q ++ [ch]) db) /\
    GetAccountByPath (q ++ [flip_char ch]) db3
    = result_map (Gorm.assign s) (GetAccountByPath (q ++ [flip_char ch]) db) /\
    GetAccountByPath q db3
    = result_map
        (Gorm.assign (mkUserAccount 0 None q 0 0 (ByteArray_String prim ph) 0 EmptyString))
        (GetAccountByPath q db)).
  { subst db3. destruct Hch as [-> | ->]; cbn [Ascii.eqb Bool.eqb flip_char] in *.
    - destruct (StoreNode_lookups prim ph cn s db q "0" "1" Hcn Hspath ltac:(discriminate))
        as (db' & -> & H2 & H3 & H4 & H5). cbn [snd]. auto.
    - destruct (StoreNode_lookups prim ph s cn db q "0" "1" Hspath Hcn ltac:(discriminate))
        as (db' & -> & H2 & H3 & H4 & H5). cbn [snd]. auto. }
  destruct Hall as (Hother & Ha & Hb & Hq).
  split; [|auto].
  intros x Hxq Hxa.
  destruct (decide (x = q ++ [flip_char ch])) as [->|Hxb]; [|auto].
  rewrite Hb, Hs. cbn [result_map]. rewrite assign_same. reflexivity.
Qed.

Lemma bitpath_prefix_snoc (x q : pathstring) (ch : ascii) :
  x `prefix_of` q ++ [ch] -> x = q ++ [ch] \/ x `prefix_of` q.
Proof.
  intros [k Hk]. destruct k as [|c k _] using rev_ind.
  - left. rewrite app_nil_r in Hk. auto.
  - right. rewrite app_assoc in Hk. apply app_inj_tail in Hk as [Hk _].
    exists k. exact Hk.
Qed.

Lemma bitpath_not_prefix_snoc (x q : pathstring) (ch : ascii) :
  ~ x `prefix_of` q ++ [ch] -> x <> q ++ [ch] /\ ~ x `prefix_of` q.
Proof.
  intros Hx. split.
  - intros ->. apply Hx. reflexivity.
  - intros Hq. apply Hx. etransitivity; [exact Hq|]. apply prefix_app_r. reflexivity.
Qed.

(** What a run of the loop of [StoreLeaf] that ends on a node has done. *)
Lemma StoreLeaf_loop_spec :
  hashes_render prim ->
  forall (q suffix : pathstring) (cn : UserAccount) (h : ByteArray)
         (siblings : list UserAccount) (db db' : DB) (top : UserAccount),
    is_bitpath q -> Path cn = q ->
    Hash cn = ByteArray_String prim h -> hash_renders prim h ->
    GetSiblings q db = (siblings, None) ->
    StoreLeaf_loop prim (q ++ suffix) (length suffix) siblings cn db
    = (Return (Ok top), db') ->
    Path top = [] /\
    (exists htop,
        recompute prim (q ++ suffix) (length suffix) h siblings = Ok htop /\
        Hash top = ByteArray_String prim htop /\ hash_renders prim htop) /\
    (forall x, ~ x `prefix_of` q -> GetAccountByPath x db' = GetAccountByPath x db) /\
    (q <> [] ->
     GetAccountByPath q db' = result_map (Gorm.assign cn) (GetAccountByPath q db) /\
     GetAccountByPath [] db' = Ok top) /\
    (forall x, x `prefix_of` q -> x <> q ->
       exists hx, hash_renders prim hx /\
         GetAccountByPath x db'
         = result_map
             (Gorm.assign (mkUserAccount 0 None x 0 0 (ByteArray_String prim hx) 0 EmptyString))
             (GetAccountByPath x db)).
Proof.
  intros Hprim q. induction q as [|ch q IH] using rev_ind;
    intros suffix cn h siblings db db' top Hbits Hcn Hhash Hh Hsibs Hrun.
  - cbn in Hsibs. injection Hsibs as <-. cbn in Hrun. injection Hrun as <- <-.
    split; [exact Hcn|]. split; [exists h; auto|]. split; [reflexivity|].
    split; [intros []; reflexivity|].
    intros x Hpre Hx. apply prefix_nil_inv in Hpre. contradiction.
  - rewrite GetSiblings_snoc in Hsibs.
    destruct (GetAccountByPath (q ++ [flip_char ch]) db) as [s|] eqn:Hs; [|discriminate].
    destruct (GetSiblings q db) as [rest err] eqn:Hrest. cbn in Hsibs.
    injection Hsibs as <- ->.
    apply Forall_app in Hbits as [Hq Hch]. apply Forall_cons in Hch as [Hch _].
    assert (Hparse : HexToByteArray prim (Hash cn) = Ok h) by (rewrite Hhash; apply Hh).
    revert Hrun. rewrite <- app_assoc. cbn [app].
    rewrite (StoreLeaf_loop_snoc q suffix ch cn s rest h db Hcn Hparse Hch).
    cbn [recompute]. rewrite GetNthBitFromRight_middle.
    destruct (HexToByteArray prim (Hash s)) as [hs|] eqn:Hhs; [|discriminate].
    assert (Hfold :
      (if bit_of_char ch =? 0 then GetParent prim h hs else GetParent prim hs h)
      = (if Ascii.eqb ch "0" then GetParent prim h hs else GetParent prim hs h))
      by (destruct Hch as [-> | ->]; reflexivity).
    rewrite Hfold.
    destruct (if Ascii.eqb ch "0" then GetParent prim h hs else GetParent prim hs h)
      as [ph|] eqn:Hp; [|discriminate].
    assert (Hph : hash_renders prim ph).
    { destruct Hprim as [_ Hparents].
      destruct Hch as [-> | ->]; cbn in Hp; exact (Hparents _ _ _ Hp). }
    destruct (StoreNode_round_lookups q ch cn s ph db Hcn Hs Hch) as (Hother & Ha & Hqq).
    cbn zeta. set (db3 := snd (StoreNode prim ph _ _ db)) in *.
    destruct (GetAccountByPath q db3) as [parent|] eqn:Hparent; [|discriminate].
    intros Hrun.
    pose proof (GetAccountByPath_Path _ _ _ Hparent) as Hppath.
    assert (Hphash : Hash parent = ByteArray_String prim ph).
    { destruct (GetAccountByPath q db) as [old|]; [|discriminate].
      injection Hqq as ->. apply assign_Hash. cbn. apply Hph. }
    assert (Hsibs3 : GetSiblings q db3 = (rest, None)).
    { rewrite <- Hrest. apply GetSiblings_ext.
      intros x Hlen Hx. apply Hother; [exact Hx|].
      intros ->. rewrite length_app in Hlen. cbn in Hlen. lia. }
    destruct (IH (ch :: suffix) parent ph rest db3 db' top Hq Hppath Hphash Hph Hsibs3 Hrun)
      as (Htop & Hrec & Hframe & Hroot & Habove).
    split; [exact Htop|]. split; [exact Hrec|]. split; [|split; [intros _; split|]].
    + intros x Hx. apply bitpath_not_prefix_snoc in Hx as [Hxa Hxq].
      rewrite Hframe by exact Hxq. apply Hother; [|exact Hxa].
      intros ->. apply Hxq. reflexivity.
    + rewrite Hframe, Ha; [reflexivity|].
      intros Hpre. apply prefix_length in Hpre. rewrite length_app in Hpre. cbn in Hpre. lia.
    + destruct q as [|c q'].
      * cbn in Hrest. injection Hrest as <-. cbn in Hrun. injection Hrun as <- <-.
        exact Hparent.
      * apply Hroot. discriminate.
    + intros x Hpre Hx. apply bitpath_prefix_snoc in Hpre as [->|Hpre]; [contradiction|].
      destruct (decide (x = q)) as [->|Hxq].
      * exists ph. split; [exact Hph|].
        destruct q as [|c q'].
        -- cbn in Hrest. injection Hrest as <-. cbn in Hrun. injection Hrun as <- <-.
           exact (eq_trans Hparent Hqq).
        -- destruct (Hroot ltac:(discriminate)) as [Hself _].
           rewrite Hself, Hparent. cbn [result_map]. rewrite assign_same. exact Hqq.
      * destruct (Habove x Hpre Hxq) as (hx & Hhx & Hlook).
        exists hx. split; [exact Hhx|]. rewrite Hlook, Hother; [reflexivity|exact Hxq|].
        intros ->. apply prefix_length in Hpre. rewrite length_app in Hpre.
        cbn in Hpre. lia.
Qed.

(** A run of the loop ends on a node when everything it reads is there. *)
Lemma StoreLeaf_loop_succeeds :
  hashes_render prim ->
  (forall l r, exists h, GetParent prim l r = Ok h) ->
  forall (q suffix : pathstring) (cn : UserAccount) (h : ByteArray)
         (siblings : list UserAccount) (db : DB),
    is_bitpath q -> Path cn = q ->
    Hash cn = ByteArray_String prim h -> hash_renders prim h ->
    GetSiblings q db = (siblings, None) ->
    Forall (hash_parses prim) siblings ->
    ancestors_stored q db ->
    exists top db',
      StoreLeaf_loop prim (q ++ suffix) (length suffix) siblings cn db
      = (Return (Ok top), db').
Proof.
  intros Hprim Htotal q. induction q as [|ch q IH] using rev_ind;
    intros suffix cn h siblings db Hbits Hcn Hhash Hh Hsibs Hparses Hstored.
  - cbn in Hsibs. injection Hsibs as <-. cbn. eauto.
  - rewrite GetSiblings_snoc in Hsibs.
    destruct (GetAccountByPath (q ++ [flip_char ch]) db) as [s|] eqn:Hs; [|discriminate].
    destruct (GetSiblings q db) as [rest err] eqn:Hrest. cbn in Hsibs.
    injection Hsibs as <- ->.
    apply Forall_app in Hbits as [Hq Hch]. apply Forall_cons in Hch as [Hch _].
    apply Forall_cons in Hparses as [[hs Hhs] Hparses].
    assert (Hparse : HexToByteArray prim (Hash cn) = Ok h) by (rewrite Hhash; apply Hh).
    rewrite <- app_assoc. cbn [app].
    rewrite (StoreLeaf_loop_snoc q suffix ch cn s rest h db Hcn Hparse Hch), Hhs.
    assert (Hp : exists ph,
      (if Ascii.eqb ch "0" then GetParent prim h hs else GetParent prim hs h) = Ok ph)
      by (destruct (Ascii.eqb ch "0"); apply Htotal).
    destruct Hp as [ph Hp]. rewrite Hp.
    assert (Hph : hash_renders prim ph).
    { destruct Hprim as [_ Hparents].
      destruct Hch as [-> | ->]; cbn in Hp; exact (Hparents _ _ _ Hp). }
    destruct (StoreNode_round_lookups q ch cn s ph db Hcn Hs Hch) as (Hother & Ha & Hqq).
    cbn zeta. set (db3 := snd (StoreNode prim ph _ _ db)) in *.
    destruct (Hstored q) as [old Hold].
    { apply prefix_app_r. reflexivity. }
    { intros Heq. symmetry in Heq. exact (snoc_neq_self _ _ Heq). }
    rewrite Hold in Hqq. cbn [result_map] in Hqq. rewrite Hqq.
    apply (IH (ch :: suffix) _ ph rest db3).
    + exact Hq.
    + exact (GetAccountByPath_Path _ _ _ Hqq).
    + apply assign_Hash. cbn. apply Hph.
    + exact Hph.
    + rewrite <- Hrest. apply GetSiblings_ext.
      intros x Hlen Hx. apply Hother; [exact Hx|].
      intros ->. rewrite length_app in Hlen. cbn in Hlen. lia.
    + exact Hparses.
    + intros x Hpre Hx. rewrite Hother.
      * apply Hstored.
        -- etransitivity; [exact Hpre|]. apply prefix_app_r. reflexivity.
        -- intros ->. apply prefix_length in Hpre. rewrite length_app in Hpre.
           cbn in Hpre. lia.
      * exact Hx.
      * intros ->. apply prefix_length in Hpre. rewrite length_app in Hpre.
        cbn in Hpre. lia.
Qed.


Lemma assign_hash_only (x : pathstring) (h : string) (old : UserAccount) :
  h <> EmptyString -> Path old = x ->
  Gorm.assign (mkUserAccount 0 None x 0 0 h 0 EmptyString) old = set_Hash old h.
Proof.
  intros Hh Hx. destruct old as [id data path st ty oh lv dep]. cbn in Hx. subst path.
  unfold Gorm.assign, set_Hash. cbn.
  destruct h; [contradiction|]. destruct x; reflexivity.
Qed.

(** What a call of [UpdateAccount] that returned [nil] has done. *)
Lemma UpdateAccount_success_inv (account : UserAccount) (db db' : DB) :
  hashes_render prim ->
  is_bitpath (Path account) ->
  UpdateAccount prim account db = (Return None, db') ->
  exists siblings top db1 htop,
    GetSiblings (Path account) db = (siblings, None) /\
    StoreLeaf_loop prim (Path account) 0 siblings (CreateAccountHash prim account) db
    = (Return (Ok top), db1) /\
    recomputeRoot prim (Path account) (Keccak256 prim (bytes_of (Data account))) siblings = Ok htop /\
    Hash top = ByteArray_String prim htop /\ hash_renders prim htop /\
    db' = snd (updateAccount
                 (mkUserAccount 0 None [] 0 0 (ByteArray_String prim htop) 0 EmptyString)
                 [] db1).
Proof.
  intros Hprim Hbits. unfold UpdateAccount, bind, gets.
  set (acc := CreateAccountHash prim account).
  assert (Hpath : Path acc = Path account) by reflexivity.
  rewrite Hpath.
  destruct (GetSiblings (Path account) db) as [siblings [err|]] eqn:Hsibs; [discriminate|].
  unfold StoreLeaf, bind, ret.
  destruct (StoreLeaf_loop prim (Path account) 0 siblings acc db) as [[[top|e]|e] db1] eqn:Hloop;
    try discriminate.
  destruct (StoreLeaf_loop_spec Hprim (Path account) [] acc (Keccak256 prim (bytes_of (Data account)))
              siblings db db1 top Hbits Hpath eq_refl (proj1 Hprim _) Hsibs)
    as (_ & (htop & Hrec & Hhash & Hhtop) & _).
  { rewrite app_nil_r. exact Hloop. }
  rewrite app_nil_r in Hrec.
  unfold HashToByteArray, UpdateRootNodeHashes. rewrite Hhash, (proj2 Hhtop). cbn [Path].
  intros Hrun. exists siblings, top, db1, htop.
  repeat (split; [assumption || reflexivity|]).
  cbn in Hrun. injection Hrun as <-. reflexivity.
Qed.

(** The new root hash is the fold of the new leaf hash with the siblings
    the leaf had before: when [UpdateAccount] returns [nil], the siblings
    of the account's path were all found, the fold of [Keccak256] of the
    account's data with them succeeds, and the root node the store now
    holds carries its rendering; for a path other than the root's there
    is such a root node. *)
Theorem UpdateAccount_new_root (account : UserAccount) (db db' : DB) :
  hashes_render prim ->
  is_bitpath (Path account) ->
  UpdateAccount prim account db = (Return None, db') ->
  exists siblings newRoot,
    GetSiblings (Path account) db = (siblings, None) /\
    recomputeRoot prim (Path account) (Keccak256 prim (bytes_of (Data account))) siblings
    = Ok newRoot /\
    (forall rootNode, GetAccountByPath [] db' = Ok rootNode ->
                      Hash rootNode = ByteArray_String prim newRoot) /\
    (Path account <> [] -> exists rootNode, GetAccountByPath [] db' = Ok rootNode).
Proof.
  intros Hprim Hbits Hrun.
  destruct (UpdateAccount_success_inv account db db' Hprim Hbits Hrun)
    as (siblings & top & db1 & htop & Hsibs & Hloop & Hrec & Hhash & Hhtop & ->).
  exists siblings, htop. split; [exact Hsibs|]. split; [exact Hrec|].
  set (t := mkUserAccount 0 None [] 0 0 (ByteArray_String prim htop) 0 EmptyString).
  assert (Hroot : GetAccountByPath [] (snd (updateAccount t [] db1))
                  = result_map (Gorm.assign t) (GetAccountByPath [] db1))
    by (apply GetAccountByPath_update_same; left; reflexivity).
  split.
  - intros rootNode. rewrite Hroot.
    destruct (GetAccountByPath [] db1) as [old|]; [|discriminate].
    intros [= <-]. apply assign_Hash. cbn. apply Hhtop.
  - intros Hne. rewrite Hroot.
    destruct (StoreLeaf_loop_spec Hprim (Path account) [] (CreateAccountHash prim account)
                (Keccak256 prim (bytes_of (Data account))) siblings db db1 top Hbits eq_refl eq_refl
                (proj1 Hprim _) Hsibs)
      as (_ & _ & _ & Hself & _).
    { rewrite app_nil_r. exact Hloop. }
    destruct (Hself Hne) as [_ Htop]. rewrite Htop. eexists. reflexivity.
Qed.

(** [UpdateAccount] writes along the path from the leaf to the root and
    nowhere else.  When it returns [nil]: a node that is not on that path
    (the siblings among them) is found as before; a node above the leaf is
    found as before but for its hash; and the leaf, when it is not the
    root, is the stored node with the non-blank fields of the account
    written over it, its hash the rendering of [Keccak256] of the
    account's data.  Data that is not nil, the empty slice too, is
    written; nil data is blank and leaves the stored data as it was. *)
Theorem UpdateAccount_writes_path_only (account : UserAccount) (db db' : DB) :
  hashes_render prim ->
  is_bitpath (Path account) ->
  UpdateAccount prim account db = (Return None, db') ->
  (forall x, ~ x `prefix_of` Path account ->
             GetAccountByPath x db' = GetAccountByPath x db) /\
  (forall x old, x `prefix_of` Path account -> x <> Path account ->
     GetAccountByPath x db = Ok old ->
     exists hx, GetAccountByPath x db' = Ok (set_Hash old (ByteArray_String prim hx))) /\
  (Path account <> [] ->
   GetAccountByPath (Path account) db'
   = result_map (Gorm.assign (CreateAccountHash prim account))
       (GetAccountByPath (Path account) db) /\
   forall leaf, GetAccountByPath (Path account) db' = Ok leaf ->
     Hash leaf = ByteArray_String prim (Keccak256 prim (bytes_of (Data account))) /\
     (forall d, Data account = Some d -> Data leaf = Some d) /\
     (Data account = None ->
      forall old, GetAccountByPath (Path account) db = Ok old -> Data leaf = Data old)).
Proof.
  intros Hprim Hbits Hrun.
  destruct (UpdateAccount_success_inv account db db' Hprim Hbits Hrun)
    as (siblings & top & db1 & htop & Hsibs & Hloop & Hrec & Hhash & Hhtop & ->).
  destruct (StoreLeaf_loop_spec Hprim (Path account) [] (CreateAccountHash prim account)
              (Keccak256 prim (bytes_of (Data account))) siblings db db1 top Hbits eq_refl eq_refl
              (proj1 Hprim _) Hsibs)
    as (_ & _ & Hframe & Hself & Habove).
  { rewrite app_nil_r. exact Hloop. }
  set (t := mkUserAccount 0 None [] 0 0 (ByteArray_String prim htop) 0 EmptyString).
  assert (Ht : Path t = [] \/ Path t = []) by (left; reflexivity).
  split; [|split].
  - intros x Hx. rewrite GetAccountByPath_update_other; [apply Hframe; exact Hx|exact Ht|].
    intros ->. apply Hx. apply prefix_nil.
  - intros x old Hpre Hx Hold.
    destruct (Habove x Hpre Hx) as (hx & Hhx & Hlook).
    rewrite Hold in Hlook. cbn [result_map] in Hlook.
    rewrite (assign_hash_only x _ old (proj1 Hhx) (GetAccountByPath_Path _ _ _ Hold))
      in Hlook.
    destruct (decide (x = [])) as [->|Hnil].
    + exists htop. rewrite GetAccountByPath_update_same, Hlook by exact Ht.
      cbn [result_map]. f_equal. unfold t.
      rewrite (assign_hash_only [] _ _ (proj1 Hhtop)).
      * destruct old. reflexivity.
      * destruct old. apply (GetAccountByPath_Path _ _ _ Hold).
    + exists hx. rewrite GetAccountByPath_update_other; [exact Hlook|exact Ht|exact Hnil].
  - intros Hne. destruct (Hself Hne) as [Hleaf _].
    assert (Hlook : GetAccountByPath (Path account) (snd (updateAccount t [] db1))
                    = result_map (Gorm.assign (CreateAccountHash prim account))
                        (GetAccountByPath (Path account) db)).
    { rewrite GetAccountByPath_update_other; [exact Hleaf|exact Ht|exact Hne]. }
    split; [exact Hlook|].
    intros leaf. rewrite Hlook.
    destruct (GetAccountByPath (Path account) db) as [old|]; [|discriminate].
    intros [= <-]. split; [|split].
    + apply assign_Hash. cbn. apply Hprim.
    + intros d Hdata. cbn. rewrite Hdata. reflexivity.
    + intros Hdata old' [= <-]. cbn. rewrite Hdata. reflexivity.
Qed.

(** [UpdateAccount] returns [nil] when all it reads is there: every
    sibling on the way from the account's path to the root is stored with
    a hash that parses, every node above the path is stored, and the
    parent hash of two hashes is always defined. *)
Theorem UpdateAccount_succeeds (account : UserAccount) (db : DB)
    (siblings : list UserAccount) :
  hashes_render prim ->
  (forall l r, exists h, GetParent prim l r = Ok h) ->
  is_bitpath (Path account) ->
  GetSiblings (Path account) db = (siblings, None) ->
  Forall (hash_parses prim) siblings ->
  ancestors_stored (Path account) db ->
  exists db', UpdateAccount prim account db = (Return None, db').
Proof.
  intros Hprim Htotal Hbits Hsibs Hparses Hstored.
  set (acc := CreateAccountHash prim account).
  destruct (StoreLeaf_loop_succeeds Hprim Htotal (Path account) [] acc
              (Keccak256 prim (bytes_of (Data account))) siblings db Hbits eq_refl eq_refl
              (proj1 Hprim _) Hsibs Hparses Hstored) as (top & db1 & Hloop).
  destruct (StoreLeaf_loop_spec Hprim (Path account) [] acc (Keccak256 prim (bytes_of (Data account)))
              siblings db db1 top Hbits eq_refl eq_refl (proj1 Hprim _) Hsibs Hloop)
    as (_ & (htop & _ & Hhash & Hhtop) & _).
  rewrite app_nil_r in Hloop. cbn [length] in Hloop.
  unfold UpdateAccount, bind, gets. fold acc.
  change (Path acc) with (Path account). rewrite Hsibs.
  unfold StoreLeaf, bind, ret. rewrite Hloop.
  unfold HashToByteArray, UpdateRootNodeHashes. rewrite Hhash, (proj2 Hhtop).
  eexists. reflexivity.
Qed.

End UpdateAccountRuns.

(** ** What InitBalancesTree writes *)

Section InitBalancesTreeFacts.
Import Core.
Context (prim : Primitives).

Lemma nextLevel_nodes (n : nat) :
  forall accs nodes,
    (length accs <= n)%nat ->
    nextLevel prim accs = Return (Ok nodes) ->
    Forall (fun row => exists p h, row = NewAccountNode p h) nodes.
Proof.
  induction n as [|n IH]; intros [|l [|r rest]] nodes Hlen; cbn in *;
    try lia; try (intros [= <-]; constructor).
  - destruct (HexToByteArray prim (Hash l)); discriminate.
  - destruct (HexToByteArray prim (Hash l)); [|discriminate].
    destruct (HexToByteArray prim (Hash r)); [|discriminate].
    destruct (GetParent prim _ _); [|discriminate].
    destruct (nextLevel prim rest) as [[nl|e']|e'] eqn:Hrest; try discriminate.
    intros [= <-]. constructor; [eauto|]. apply (IH rest nl); [lia|exact Hrest].
Qed.

Lemma defaults_idem (row : UserAccount) :
  Gorm.defaults (Gorm.defaults row) = Gorm.defaults row.
Proof. destruct row as [id [d|] p st ty h lv tag]; reflexivity. Qed.

Lemma defaults_keeps (row : UserAccount) :
  AccountID (Gorm.defaults row) = AccountID row /\
  Path (Gorm.defaults row) = Path row /\
  Status (Gorm.defaults row) = Status row /\
  Type_ (Gorm.defaults row) = Type_ row /\
  Hash (Gorm.defaults row) = Hash row /\
  Level (Gorm.defaults row) = Level row /\
  CreatedByDepositSubTree (Gorm.defaults row) = CreatedByDepositSubTree row.
Proof. destruct row as [id [d|] p st ty h lv tag]; repeat split; reflexivity. Qed.

Lemma reload_created (row : UserAccount) (rows : list UserAccount) :
  Gorm.reload row (rows ++ [Gorm.defaults row]) = Gorm.defaults row.
Proof.
  unfold Gorm.reload. rewrite last_snoc.
  destruct row as [id [d|] p st ty h lv tag]; reflexivity.
Qed.

Lemma defaults_Path_map (rows : list UserAccount) :
  map Path (map Gorm.defaults rows) = map Path rows.
Proof.
  induction rows as [|row rows IH]; [reflexivity|].
  cbn [map]. rewrite IH. f_equal. apply defaults_keeps.
Qed.

Lemma defaults_Forall (P : UserAccount -> Prop) (rows : list UserAccount) :
  (forall row, P row -> P (Gorm.defaults row)) ->
  Forall P rows -> Forall P (map Gorm.defaults rows).
Proof.
  intros HP. induction 1 as [|row rows Hrow _ IH]; cbn [map]; constructor; auto.
Qed.

Lemma defaults_level (row : UserAccount) :
  Level row = Z.of_nat (length (Path row)) ->
  Level (Gorm.defaults row) = Z.of_nat (length (Path (Gorm.defaults row))).
Proof.
  destruct (defaults_keeps row) as (_ & -> & _ & _ & _ & -> & _). auto.
Qed.

Lemma defaults_hash_parses (row : UserAccount) :
  hash_parses prim row -> hash_parses prim (Gorm.defaults row).
Proof.
  unfold hash_parses. destruct (defaults_keeps row) as (_ & _ & _ & _ & -> & _). auto.
Qed.

Lemma merkelise_appends (n : nat) :
  forall db, exists nodes,
    user_accounts (snd (merkelise prim n db)) = user_accounts db ++ nodes /\
    Forall (fun row => exists p h, row = Gorm.defaults (NewAccountNode p h)) nodes /\
    batches (snd (merkelise prim n db)) = batches db /\
    params (snd (merkelise prim n db)) = params db /\
    deposits (snd (merkelise prim n db)) = deposits db.
Proof.
  induction n as [|n IH]; intros db.
  - exists []. cbn. rewrite app_nil_r. auto.
  - cbn [merkelise].
    unfold bind, gets, GetAccountsAtDepth, Gorm.FindAll, on_accounts,
      Gorm.BulkInsert, panic, ret.
    destruct (nextLevel prim _) as [[nl|e']|e'] eqn:Hnext.
    + destruct (IH (set_user_accounts db (user_accounts db ++ map Gorm.defaults nl)))
        as (nodes & Hrows & Hnodes & Hb & Hp & Hd).
      exists (map Gorm.defaults nl ++ nodes). rewrite Hrows, Hb, Hp, Hd. cbn.
      rewrite app_assoc.
      split; [reflexivity|]. split; [|auto].
      apply Forall_app. split; [|exact Hnodes].
      apply Forall_fmap.
      eapply Forall_impl; [exact (nextLevel_nodes _ _ _ (le_n _) Hnext)|].
      intros row (p & h & ->). exists p, h. reflexivity.
    + exists []. cbn. rewrite app_nil_r. auto.
    + exists []. cbn. rewrite app_nil_r. auto.
Qed.

Lemma assignPaths_updates (accounts : list UserAccount) :
  forall prev,
    Forall2 (fun g s => s = g \/ exists p, s = UpdatePath g p) accounts
      (fst (assignPaths prim accounts prev)) /\
    (snd (assignPaths prim accounts prev) = None ->
     Forall2 (fun g s => exists p, s = UpdatePath g p) accounts
       (fst (assignPaths prim accounts prev))).
Proof.
  induction accounts as [|acc rest IH]; intros prev; cbn.
  - split; [constructor|intros _; constructor].
  - destruct (GetAdjacentNodePath prim prev) as [p|e]; cbn.
    + destruct (IH (Path (UpdatePath acc p))) as [Hany Hall].
      destruct (assignPaths prim rest _) as [rest' err]. cbn in *. split.
      * constructor; [right; eauto|exact Hany].
      * intros ->. constructor; [eauto|auto].
    + split; [|discriminate]. apply Forall2_same_length_lookup. split; [reflexivity|].
      intros i x y Hx Hy. left. congruence.
Qed.

(** [InitBalancesTree] only appends: in every outcome the rows the store
    held are still there, in place and untouched, followed by leaves and
    then by internal nodes, which are stored as [NewAccountNode] makes
    them but for the column default, their nil data stored as the one
    byte of the default (none of them typed as a root); the other tables
    are left alone, and rows whose level is the length of their path stay
    so.  When it returns [nil] the leaves are the caller's slice as the
    function leaves it, stored with the column default where the data is
    nil: the first account at the coordinator path, typed terminal, hashed
    anew and as read back after its insertion; each other account as
    given but for its path and level -- its hash is not computed again,
    and it is not read back. *)
Theorem InitBalancesTree_appends (depth : Z) (genesisAccounts : list UserAccount)
    (db : DB) :
  exists leaves nodes,
    user_accounts (snd (InitBalancesTree prim depth genesisAccounts db))
    = user_accounts db ++ leaves ++ nodes /\
    Forall (fun row => exists p h,
                row = Gorm.defaults (NewAccountNode p h) /\
                Data row = Some [48] /\ IsCoordinator row = false)
      nodes /\
    batches (snd (InitBalancesTree prim depth genesisAccounts db)) = batches db /\
    params (snd (InitBalancesTree prim depth genesisAccounts db)) = params db /\
    deposits (snd (InitBalancesTree prim depth genesisAccounts db)) = deposits db /\
    (levels_match db ->
     levels_match (snd (InitBalancesTree prim depth genesisAccounts db))) /\
    (forall slice,
        fst (InitBalancesTree prim depth genesisAccounts db) = Return (None, slice) ->
        leaves = map Gorm.defaults slice /\
        exists coordinator others others',
          genesisAccounts = coordinator :: others /\
          slice = Gorm.defaults
                    (set_Type
                       (CreateAccountHash prim
                          (UpdatePath coordinator (GenCoordinatorPath prim depth)))
                       TYPE_TERMINAL) :: others' /\
          Forall2 (fun g s => exists p, s = UpdatePath g p) others others').
Proof.
  assert (Hnode : forall nodes,
    Forall (fun row => exists p h, row = Gorm.defaults (NewAccountNode p h)) nodes ->
    Forall (fun row => exists p h,
                row = Gorm.defaults (NewAccountNode p h) /\
                Data row = Some [48] /\ IsCoordinator row = false)
      nodes).
  { intros nodes H. eapply Forall_impl; [exact H|]. intros row (p & h & ->). exists p, h.
    split; [reflexivity|]. split; [reflexivity|]. unfold IsCoordinator. cbn.
    destruct (negb (bool_decide (p = []))); reflexivity. }
  assert (Hlevel_node : forall nodes,
    Forall (fun row => exists p h, row = Gorm.defaults (NewAccountNode p h)) nodes ->
    Forall (fun row => Level row = Z.of_nat (length (Path row))) nodes).
  { intros nodes H. eapply Forall_impl; [exact H|]. intros row (p & h & ->). reflexivity. }
  assert (Hlevel_leaves : forall others others',
    Forall2 (fun g s => exists p, s = UpdatePath g p) others others' ->
    Forall (fun row => Level row = Z.of_nat (length (Path row)))
      (map Gorm.defaults others')).
  { intros others others' Hall.
    induction Hall as [|g s gs ss (p & ->) _ IH]; [constructor|].
    cbn [map]. constructor; [|exact IH].
    destruct (defaults_keeps (UpdatePath g p)) as (_ & -> & _ & _ & _ & -> & _).
    reflexivity. }
  unfold InitBalancesTree.
  destruct (negb (exp2_int depth =? Z.of_nat (length genesisAccounts))).
  { exists [], []. cbn. rewrite app_nil_r.
    split; [reflexivity|]. split; [constructor|]. do 3 (split; [reflexivity|]).
    split; [auto|]. intros slice H. discriminate H. }
  destruct genesisAccounts as [|coordinator others].
  { exists [], []. cbn. rewrite app_nil_r.
    split; [reflexivity|]. split; [constructor|]. do 3 (split; [reflexivity|]).
    split; [auto|]. intros slice H. discriminate H. }
  unfold InsertCoordinatorAccounts, bind, on_accounts, gets, Gorm.Create, Gorm.BulkInsert, ret.
  cbn [user_accounts set_user_accounts fst snd].
  set (c' := set_Type (CreateAccountHash prim
                         (UpdatePath coordinator (GenCoordinatorPath prim depth)))
                      TYPE_TERMINAL).
  rewrite reload_created.
  assert (Hc'level : Level (Gorm.defaults c') = Z.of_nat (length (Path (Gorm.defaults c')))).
  { destruct (defaults_keeps c') as (_ & -> & _ & _ & _ & -> & _). reflexivity. }
  destruct (assignPaths_updates others (Path (Gorm.defaults c'))) as [_ Hall].
  destruct (assignPaths prim others (Path (Gorm.defaults c'))) as [others' [e|]] eqn:Hpaths.
  - exists [Gorm.defaults c'], []. cbn. split; [reflexivity|]. split; [constructor|].
    repeat (split; [reflexivity|]). split; [|discriminate].
    unfold levels_match. cbn. intros Hdb. apply Forall_app. split; [exact Hdb|].
    constructor; [exact Hc'level|constructor].
  - cbn [fst snd] in Hall. specialize (Hall eq_refl).
    cbn [user_accounts set_user_accounts].
    set (db1 := set_user_accounts _ _).
    destruct (merkelise_appends (Z.to_nat depth) db1) as (nodes & Hrows & Hnodes & Hb & Hp & Hd).
    destruct (merkelise prim (Z.to_nat depth) db1) as [[err|e] db'] eqn:Hm;
      cbn [fst snd] in *.
    + exists (Gorm.defaults c' :: map Gorm.defaults others'), nodes. rewrite Hrows, Hb, Hp, Hd.
      split; [subst db1; cbn; rewrite <- !app_assoc; reflexivity|].
      split; [apply Hnode; exact Hnodes|]. repeat (split; [reflexivity|]).
      split.
      * unfold levels_match. rewrite Hrows. subst db1. cbn. intros Hdb.
        repeat (apply Forall_app; split); try assumption.
        -- constructor; [exact Hc'level|constructor].
        -- apply (Hlevel_leaves others). exact Hall.
        -- apply Hlevel_node. exact Hnodes.
      * intros slice [= -> <-]. split; [cbn [map]; rewrite defaults_idem; reflexivity|].
        exists coordinator, others, others'. auto.
    + exists (Gorm.defaults c' :: map Gorm.defaults others'), nodes. rewrite Hrows, Hb, Hp, Hd.
      split; [subst db1; cbn; rewrite <- !app_assoc; reflexivity|].
      split; [apply Hnode; exact Hnodes|]. repeat (split; [reflexivity|]).
      split; [|discriminate].
      unfold levels_match. rewrite Hrows. subst db1. cbn. intros Hdb.
      repeat (apply Forall_app; split); try assumption.
      * constructor; [exact Hc'level|constructor].
      * apply (Hlevel_leaves others). exact Hall.
      * apply Hlevel_node. exact Hnodes.
Qed.

End InitBalancesTreeFacts.

(** ** More on the listener *)

Section EventByIDOrder.
Import Core Listener.
Context (Event_ID : Event -> list Z).

(** [EventByID] does not depend on the order in which the map is visited
    when at most one event of the map has the ID looked for. *)
Theorem EventByID_order_independent
    (range_map range_map' : gmap string Event -> list (string * Event))
    (abiObject : ABI) (sigdata : list Z) :
  (forall m, range_map m ≡ₚ map_to_list m) ->
  (forall m, range_map' m ≡ₚ map_to_list m) ->
  (forall name name' event event',
      Events abiObject !! name = Some event ->
      Events abiObject !! name' = Some event' ->
      Event_ID event = sigdata -> Event_ID event' = sigdata -> event = event') ->
  EventByID Event_ID range_map abiObject sigdata
  = EventByID Event_ID range_map' abiObject sigdata.
Proof.
  intros Hperm Hperm' Hunique. unfold EventByID.
  assert (Hfound : forall range,
    (forall m, range m ≡ₚ map_to_list m) ->
    forall event,
      EventByID_loop Event_ID (range (Events abiObject)) sigdata = Some event ->
      Event_ID event = sigdata /\ exists name, Events abiObject !! name = Some event).
  { intros range Hrange event Hloop.
    destruct (EventByID_loop_Some _ _ _ _ Hloop)
      as (name & before & after & Hsplit & _ & Hsig).
    split; [exact Hsig|]. exists name.
    apply elem_of_map_to_list. rewrite <- Hrange, Hsplit.
    apply elem_of_app. right. left. }
  assert (Hnone : forall range,
    (forall m, range m ≡ₚ map_to_list m) ->
    EventByID_loop Event_ID (range (Events abiObject)) sigdata = None ->
    forall name event, Events abiObject !! name = Some event -> Event_ID event <> sigdata).
  { intros range Hrange Hloop name event Hin.
    apply EventByID_loop_None in Hloop. rewrite Forall_forall in Hloop.
    apply (Hloop (name, event)). rewrite Hrange. apply elem_of_map_to_list. exact Hin. }
  destruct (EventByID_loop Event_ID (range_map _) sigdata) as [event|] eqn:Hone;
    destruct (EventByID_loop Event_ID (range_map' _) sigdata) as [event'|] eqn:Htwo.
  - destruct (Hfound _ Hperm _ Hone) as (Hsig & name & Hin).
    destruct (Hfound _ Hperm' _ Htwo) as (Hsig' & name' & Hin').
    f_equal. exact (Hunique _ _ _ _ Hin Hin' Hsig Hsig').
  - destruct (Hfound _ Hperm _ Hone) as (Hsig & name & Hin).
    exfalso. exact (Hnone _ Hperm' Htwo _ _ Hin Hsig).
  - destruct (Hfound _ Hperm' _ Htwo) as (Hsig & name & Hin).
    exfalso. exact (Hnone _ Hperm Hone _ _ Hin Hsig).
  - reflexivity.
Qed.

End EventByIDOrder.

Section BatchFacts.
Import Core Listener.
Context (prim : Primitives) (c : Collaborators).

Lemma applyTx_invariant (inv : DB -> Prop) (from to amount : list Z)
    (sig : list (list Z)) (i : nat) (db : DB) :
  (forall tx a b d, inv d -> inv (snd (Tx_Apply c tx a b d))) ->
  inv db -> inv (snd (applyTx c from to amount sig i db)).
Proof.
  intros Happly Hdb. unfold applyTx.
  destruct (from !! i); [|exact Hdb].
  unfold bind, gets, ret, panic.
  destruct (GetAccountByID _ db) as [fromAccount|]; [|exact Hdb].
  destruct (DecodeAccount c _) as [[[[? ?] nonce] token]|]; [|exact Hdb].
  destruct (to !! i); [|exact Hdb].
  destruct (amount !! i); [|exact Hdb].
  destruct (EncodeTransferTx c _ _ _ _ _ _); [|exact Hdb].
  destruct (sig !! i); [|exact Hdb].
  destruct (GetVerificationData c _ db) as [[fromMP toMP]|]; [|exact Hdb].
  destruct (ApplyTx c fromMP _) as [[? ?]|]; [|exact Hdb].
  destruct (ApplyTx c toMP _) as [[? ?]|]; [|exact Hdb].
  apply Happly. exact Hdb.
Qed.

Lemma applyTxs_invariant (inv : DB -> Prop) (from to amount : list Z)
    (sig : list (list Z)) (indices : list nat) :
  (forall tx a b d, inv d -> inv (snd (Tx_Apply c tx a b d))) ->
  forall db, inv db -> inv (snd (applyTxs c from to amount sig indices db)).
Proof.
  intros Happly. induction indices as [|i rest IH]; intros db Hdb; [exact Hdb|].
  cbn [applyTxs]. unfold bind.
  pose proof (applyTx_invariant inv from to amount sig i db Happly Hdb) as Hstep.
  destruct (applyTx c from to amount sig i db) as [[[e|]|e] db1]; cbn [snd] in *;
    try exact Hstep.
  apply IH. exact Hstep.
Qed.

(** [ApplyTxsFromBatch] writes to the store through [Tx.Apply] and in no
    other way: whatever [Tx.Apply] keeps true of the store is still true
    after the batch, whether the batch is applied, fails half-way or
    panics. *)
Theorem ApplyTxsFromBatch_writes_through_Apply (inv : DB -> Prop)
    (txs : list (list Z)) (db : DB) :
  (forall tx a b d, inv d -> inv (snd (Tx_Apply c tx a b d))) ->
  inv db -> inv (snd (ApplyTxsFromBatch c txs db)).
Proof.
  intros Happly Hdb. unfold ApplyTxsFromBatch.
  destruct (length txs =? 0)%nat; [exact Hdb|].
  destruct (DecompressTransferTxs c txs) as [[[[from to] amount] sig]|]; [|exact Hdb].
  apply applyTxs_invariant; assumption.
Qed.

Lemma applyTxs_then_panic (from to amount : list Z) (sig : list (list Z))
    (before : list nat) :
  forall (i : nat) (after : list nat) (db db1 db2 : DB) (e : error),
    applyTxs c from to amount sig before db = (Return None, db1) ->
    applyTx c from to amount sig i db1 = (Panic e, db2) ->
    applyTxs c from to amount sig (before ++ i :: after) db = (Panic e, db2).
Proof.
  induction before as [|j before IH]; intros i after db db1 db2 e Hbefore Hi.
  - cbn in Hbefore. injection Hbefore as <-. cbn. unfold bind. rewrite Hi. reflexivity.
  - cbn in Hbefore |- *. unfold bind in *.
    destruct (applyTx c from to amount sig j db) as [[[e'|]|e'] db'];
      try discriminate.
    eapply IH; eassumption.
Qed.

(** The loop of [ApplyTxsFromBatch] runs over the compressed
    transactions, not over what the decoder returned: when the decoder
    returns fewer senders than there are transactions, the transactions
    it returned senders for are applied if they can be, their writes
    stay, and the next round panics on the index. *)
Theorem ApplyTxsFromBatch_short_decode_panics (txs : list (list Z))
    (from to amount : list Z) (sig : list (list Z)) (db db1 : DB) :
  DecompressTransferTxs c txs = Ok (from, to, amount, sig) ->
  (length from < length txs)%nat ->
  applyTxs c from to amount sig (seq 0 (length from)) db = (Return None, db1) ->
  ApplyTxsFromBatch c txs db = (Panic (RuntimeError "index out of range"), db1).
Proof.
  intros Hdec Hlen Hbefore. unfold ApplyTxsFromBatch.
  destruct (Nat.eqb_spec (length txs) 0) as [Hz|_]; [lia|].
  rewrite Hdec.
  replace (length txs) with (length from + S (length txs - S (length from)))%nat by lia.
  rewrite seq_app. cbn [seq]. rewrite Nat.add_0_l.
  eapply applyTxs_then_panic; [exact Hbefore|].
  unfold applyTx. rewrite lookup_ge_None_2 by lia. reflexivity.
Qed.

(** The outcomes of [processNewBatch] on a batch the ledger does not
    hold, by what [ApplyTxsFromBatch] makes of its transactions.  When
    they are applied, the batch is recorded as committed under the
    event's index, with the event's roots, and the syncer is otherwise as
    the application left it.  When the application fails or panics, the
    handler panics with that error, the batch is not recorded, and the
    store stays as the failed application left it. *)
Theorem processNewBatch_new_batch (eventName : string) (abiObject : ABI)
    (vLog : Log) (s : Syncer) (event : LoggerNewBatch) (params : Params)
    (txs : list (list Z)) (r : outcome (option error)) (db1 : DB) :
  UnpackLog_NewBatch c abiObject eventName vLog = Ok event ->
  GetParams (DBInstance s) = Ok params ->
  (if negb (String.eqb ZEROROOT (ByteArray_String prim (Txroot event)))
   then FetchBatchInputData c (TxHash vLog) else Ok []) = Ok txs ->
  GetBatchByIndex (BigInt_Uint64 (Index event)) (DBInstance s) = Err GormRecordNotFound ->
  ApplyTxsFromBatch c txs (DBInstance s) = (r, db1) ->
  batches db1 !! BigInt_Uint64 (Index event) = None ->
  match r with
  | Return None =>
      exists s',
        processNewBatch prim c eventName abiObject vLog s = (Return tt, s') /\
        user_accounts (DBInstance s') = user_accounts db1 /\
        GetBatchByIndex (BigInt_Uint64 (Index event)) (DBInstance s')
        = Ok (newBatchOf prim c event txs params) /\
        Batch_Status (newBatchOf prim c event txs params) = BATCH_COMMITTED c /\
        StateRoot (newBatchOf prim c event txs params)
        = ByteArray_String prim (UpdatedRoot event) /\
        (forall index, index <> BigInt_Uint64 (Index event) ->
                       GetBatchByIndex index (DBInstance s') = GetBatchByIndex index db1) /\
        fired s' = fired s /\ logged_errors s' = logged_errors s
  | Return (Some e) | Panic e =>
      processNewBatch prim c eventName abiObject vLog s
      = (Panic e, mkSyncer db1 (fired s) (logged_errors s))
  end.
Proof.
  destruct s as [db fs ls]. cbn [DBInstance fired logged_errors].
  intros Hunpack Hparams Htxs Hbatch Happly Hfree.
  rewrite processNewBatch_unfold, Hunpack, Hparams, Htxs, Hbatch.
  cbn [IsRecordNotFoundError]. rewrite Happly.
  destruct r as [[e|]|e]; [reflexivity| |reflexivity].
  unfold AddNewBatch. cbn [BatchID newBatchOf]. rewrite Hfree.
  eexists. split; [reflexivity|]. cbn [DBInstance fired logged_errors].
  split; [reflexivity|]. split; [|split; [reflexivity|split; [reflexivity|split]]].
  - unfold GetBatchByIndex. cbn [batches set_batches]. rewrite lookup_insert_eq. reflexivity.
  - intros index Hindex. unfold GetBatchByIndex. cbn [batches set_batches].
    rewrite lookup_insert_ne by congruence. reflexivity.
  - split; reflexivity.
Qed.

End BatchFacts.

(** ** The further properties on the stores of the scenario *)

Section MoreDemoFacts.
Import Core Listener Demo.

Lemma updatedSender_bitpath : is_bitpath (Path updatedSender).
Proof. constructor; [left; reflexivity|]. constructor; [left; reflexivity|constructor]. Qed.

Lemma genesisDB_levels_match : levels_match genesisDB.
Proof. vm_compute. repeat constructor. Qed.

Lemma demoPrim_GetParent_total (l r : ByteArray) : exists h, GetParent demoPrim l r = Ok h.
Proof. eexists. reflexivity. Qed.

Lemma AttachDepositInfo_tags_all_pending_witness :
  exists db',
    AttachDepositInfo demoPrim [3] pendingDB = (Return None, db') /\
    result_map (map CreatedByDepositSubTree) (GetPendingAccByDepositRoot demoPrim [3] db')
    = Ok ["0x03"; "0x03"]%string /\
    GetPendingAccByDepositRoot demoPrim [7] db' = Ok [].
Proof.
  destruct (AttachDepositInfo_tags_all_pending demoPrim [3] pendingDB)
    as (db' & Hrun & Hall & Hnone & _).
  - discriminate.
  - exists db'. split; [exact Hrun|]. split.
    + rewrite Hall. vm_compute. reflexivity.
    + apply Hnone. discriminate.
Defined.

Lemma GetSiblings_shape_witness :
  GetAccountByPath (GetOtherChild (take (2 - 1) ["0"; "1"]%char)) genesisDB
  = Ok (mkUserAccount 0 (Some [48]) ["1"%char] 1 2 "0x0300000704000007" 1 EmptyString).
Proof.
  destruct (GetSiblings_shape ["0"; "1"]%char genesisDB
              [ mkUserAccount 1 (Some [1; 100; 0; 7]) ["0"; "0"]%char 1 1 "0x01640007" 2 EmptyString;
                mkUserAccount 0 (Some [48]) ["1"%char] 1 2 "0x0300000704000007" 1 EmptyString ]
              None) as (_ & Hnth & _).
  - vm_compute. reflexivity.
  - apply (Hnth 1%nat). reflexivity.
Defined.

Lemma UpdateAccount_keeps_tree_witness :
  levels_match afterUpdate /\ root_consistent demoPrim afterUpdate.
Proof.
  destruct (UpdateAccount_keeps_tree demoPrim updatedSender genesisDB) as [Hlevels Hcons].
  - exact genesisDB_levels_match.
  - right. reflexivity.
  - split; [exact Hlevels|]. apply Hcons.
    + exact demoPrim_hashes_render.
    + exact genesisDB_root_consistent.
    + exact updatedSender_bitpath.
    + intros (l & r & Hl & _). vm_compute in Hl. discriminate.
    + vm_compute. reflexivity.
Defined.

Lemma UpdateAccount_new_root_witness :
  exists siblings newRoot,
    GetSiblings ["0"; "0"]%char genesisDB = (siblings, None) /\
    recomputeRoot demoPrim ["0"; "0"]%char [1; 70; 1; 7] siblings = Ok newRoot /\
    (forall rootNode, GetAccountByPath [] afterUpdate = Ok rootNode ->
                      Hash rootNode = demoString newRoot) /\
    (["0"; "0"]%char <> [] -> exists rootNode, GetAccountByPath [] afterUpdate = Ok rootNode).
Proof.
  apply (UpdateAccount_new_root demoPrim updatedSender genesisDB afterUpdate).
  - exact demoPrim_hashes_render.
  - exact updatedSender_bitpath.
  - vm_compute. reflexivity.
Defined.

Lemma UpdateAccount_writes_path_only_witness :
  GetAccountByPath ["0"; "1"]%char afterUpdate = GetAccountByPath ["0"; "1"]%char genesisDB.
Proof.
  destruct (UpdateAccount_writes_path_only demoPrim updatedSender genesisDB afterUpdate)
    as (Hframe & _).
  - exact demoPrim_hashes_render.
  - exact updatedSender_bitpath.
  - vm_compute. reflexivity.
  - apply Hframe. intros [k Hk]. discriminate Hk.
Defined.

Lemma UpdateAccount_succeeds_witness :
  exists db', UpdateAccount demoPrim updatedSender genesisDB = (Return None, db').
Proof.
  apply (UpdateAccount_succeeds demoPrim updatedSender genesisDB
           [ mkUserAccount 2 (Some [2; 0; 0; 7]) ["0"; "1"]%char 1 1 "0x02000007" 2 EmptyString;
             mkUserAccount 0 (Some [48]) ["1"%char] 1 2 "0x0300000704000007" 1 EmptyString ]).
  - exact demoPrim_hashes_render.
  - exact demoPrim_GetParent_total.
  - exact updatedSender_bitpath.
  - vm_compute. reflexivity.
  - repeat constructor; eexists; vm_compute; reflexivity.
  - intros x [k Hk] Hx. cbn [Path updatedSender] in Hk, Hx.
    destruct x as [|a [|b [|d x]]].
    + eexists. vm_compute. reflexivity.
    + injection Hk as <- _. eexists. vm_compute. reflexivity.
    + injection Hk as <- <- _. contradiction.
    + discriminate Hk.
Defined.

Lemma EventByID_order_independent_witness :
  EventByID demoEventID map_to_list demoABI [8]
  = EventByID demoEventID reversed_range demoABI [8].
Proof.
  apply (EventByID_order_independent demoEventID map_to_list reversed_range demoABI [8]).
  - intros m. reflexivity.
  - intros m. unfold reversed_range. apply reverse_Permutation.
  - intros name name' event event' Hin Hin' Hid Hid'.
    unfold demoABI in Hin, Hin'. cbn [Events] in Hin, Hin'.
    apply lookup_insert_Some in Hin as [[_ <-]|[_ Hin]];
      apply lookup_insert_Some in Hin' as [[_ <-]|[_ Hin']]; try reflexivity.
    + apply lookup_insert_Some in Hin' as [[_ <-]|[_ Hin']]; [discriminate Hid'|].
      rewrite lookup_empty in Hin'. discriminate.
    + apply lookup_insert_Some in Hin as [[_ <-]|[_ Hin]]; [discriminate Hid|].
      rewrite lookup_empty in Hin. discriminate.
    + apply lookup_insert_Some in Hin as [[_ <-]|[_ Hin]]; [discriminate Hid|].
      rewrite lookup_empty in Hin. discriminate.
Defined.

Lemma Tx_Apply_spec_paths_kept (from to : Z) (a b : list Z) (db0 db : DB) :
  same_paths db0 db -> same_paths db0 (snd (Tx_Apply_spec demoPrim from to a b db)).
Proof.
  intros Hdb. unfold Tx_Apply_spec, bind, gets, ret.
  destruct (GetAccountByID from db) as [fromAcc|]; [|exact Hdb].
  pose proof (UpdateAccount_paths_kept demoPrim db0 (set_Data fromAcc (Some a)) db Hdb) as Hone.
  destruct (UpdateAccount demoPrim (set_Data fromAcc (Some a)) db) as [[[e|]|e] db1];
    cbn [snd] in *; try exact Hone.
  destruct (GetAccountByID to db1) as [toAcc|]; [|exact Hone].
  apply UpdateAccount_paths_kept. exact Hone.
Qed.

Lemma ApplyTxsFromBatch_writes_through_Apply_witness :
  same_paths genesisDB (snd (ApplyTxsFromBatch batchCollab [[1; 2; 30]] genesisDB)).
Proof.
  apply (ApplyTxsFromBatch_writes_through_Apply batchCollab (same_paths genesisDB)).
  - intros tx a b d. apply Tx_Apply_spec_paths_kept.
  - repeat split.
Defined.

Lemma ApplyTxsFromBatch_short_decode_panics_witness :
  ApplyTxsFromBatch shortCollab [[1; 2; 30]; [1; 2; 30]] genesisDB
  = (Panic (RuntimeError "index out of range"), afterTransfer).
Proof.
  apply (ApplyTxsFromBatch_short_decode_panics shortCollab [[1; 2; 30]; [1; 2; 30]]
           [1] [2] [30] [[]]).
  - reflexivity.
  - cbn. lia.
  - vm_compute. reflexivity.
Defined.

Lemma processNewBatch_new_batch_witness :
  exists s',
    processNewBatch demoPrim batchCollab "NewBatch" demoABI batchLog (demoSyncer genesisDB)
    = (Return tt, s') /\
    user_accounts (DBInstance s') = user_accounts afterTransfer /\
    result_map StateRoot (GetBatchByIndex 5 (DBInstance s')) = Ok "0xbb"%string.
Proof.
  pose proof (processNewBatch_new_batch demoPrim batchCollab "NewBatch" demoABI batchLog
                (demoSyncer genesisDB) (mkLoggerNewBatch "0xc0" [1] [187] 5) demoParams
                [[1; 2; 30]] (Return None) afterTransfer
                eq_refl eq_refl eq_refl eq_refl) as Hrun.
  destruct Hrun as (s' & Hrun & Hrows & Hbatch & _).
  - vm_compute. reflexivity.
  - vm_compute. reflexivity.
  - exists s'. split; [exact Hrun|]. split; [exact Hrows|].
    change (BigInt_Uint64 (Index (mkLoggerNewBatch "0xc0" [1] [187] 5))) with 5 in Hbatch.
    rewrite Hbatch. reflexivity.
Defined.

Lemma processNewBatch_found_keeps_accounts_witness :
  user_accounts
    (DBInstance
       (snd (processNewBatch demoPrim batchCollab "NewBatch" demoABI batchLog
               (demoSyncer committedDB))))
  = user_accounts committedDB.
Proof.
  apply (processNewBatch_found_keeps_accounts demoPrim batchCollab "NewBatch" demoABI
           batchLog (demoSyncer committedDB) _
           (mkLoggerNewBatch "0xc0" [1] [187] 5)
           (mkBatch 5 "0xaa" "0x01" [] "0xc0" 32 100 1)
           (fst (processNewBatch demoPrim batchCollab "NewBatch" demoABI batchLog
                   (demoSyncer committedDB)))).
  - reflexivity.
  - vm_compute. reflexivity.
  - apply surjective_pairing.
Defined.

End MoreDemoFacts.

(** ** InitBalancesTree builds the tree *)

Section BuildFacts.
Import Core.
Context (prim : Primitives).

Lemma elem_of_child_paths (p : pathstring) (qs : list pathstring) :
  p ∈ child_paths qs <->
  exists q, q ∈ qs /\ (p = q ++ ["0"%char] \/ p = q ++ ["1"%char]).
Proof.
  induction qs as [|q0 qs IH]; cbn.
  - split; [intros H; inversion H|intros (q & H & _); inversion H].
  - rewrite !elem_of_cons, IH. split.
    + intros [->|[->|(q & Hq & Hp)]].
      * exists q0. split; [left|]; auto.
      * exists q0. split; [left|]; auto.
      * exists q. split; [right|]; auto.
    + intros (q & Hq & Hp). apply elem_of_cons in Hq as [->|Hq].
      * destruct Hp; auto.
      * right. right. eauto.
Qed.

Lemma all_paths_length (n : nat) (p : pathstring) :
  p ∈ all_paths n -> length p = n.
Proof.
  revert p. induction n as [|n IH]; intros p; cbn [all_paths].
  - intros H. apply list_elem_of_singleton in H. subst. reflexivity.
  - rewrite elem_of_child_paths. intros (q & Hq & [-> | ->]);
      rewrite length_app, (IH q Hq); cbn; lia.
Qed.

Lemma child_paths_NoDup (qs : list pathstring) :
  NoDup qs -> NoDup (child_paths qs).
Proof.
  induction 1 as [|q qs Hq _ IH]; cbn; [constructor|].
  constructor; [|constructor; [|exact IH]].
  - rewrite elem_of_cons. intros [Heq|Hin].
    + apply app_inj_tail in Heq as [_ Heq]. discriminate.
    + apply elem_of_child_paths in Hin as (q' & Hq' & [Heq|Heq]);
        apply app_inj_tail in Heq as [<- _]; contradiction.
  - intros Hin. apply elem_of_child_paths in Hin as (q' & Hq' & [Heq|Heq]);
      apply app_inj_tail in Heq as [<- _]; contradiction.
Qed.

Lemma all_paths_NoDup (n : nat) : NoDup (all_paths n).
Proof.
  induction n as [|n IH]; cbn [all_paths].
  - apply NoDup_singleton.
  - apply child_paths_NoDup. exact IH.
Qed.

Lemma bitpath_in_all_paths (p : pathstring) :
  is_bitpath p -> p ∈ all_paths (length p).
Proof.
  induction p as [|ch q IH] using rev_ind; intros Hbits.
  - cbn. left.
  - apply Forall_app in Hbits as [Hq Hch]. apply Forall_cons in Hch as [Hch _].
    rewrite length_app, Nat.add_comm. cbn [length Nat.add all_paths].
    apply elem_of_child_paths. exists q. split; [auto|].
    destruct Hch as [-> | ->]; auto.
Qed.

Lemma NoDup_Path_inj (rows : list UserAccount) (a b : UserAccount) :
  NoDup (map Path rows) -> a ∈ rows -> b ∈ rows -> Path a = Path b -> a = b.
Proof.
  induction rows as [|row rows IH]; cbn [map]; intros Hnd Ha Hb Hpath.
  - inversion Ha.
  - apply NoDup_cons in Hnd as [Hrow Hnd].
    apply elem_of_cons in Ha as [->|Ha]; apply elem_of_cons in Hb as [->|Hb].
    + reflexivity.
    + exfalso. apply Hrow. rewrite Hpath. apply list_elem_of_fmap_2. exact Hb.
    + exfalso. apply Hrow. rewrite <- Hpath. apply list_elem_of_fmap_2. exact Ha.
    + auto.
Qed.

(** Where no path is stored twice, a stored row is the one found at its
    path. *)
Lemma GetAccountByPath_unique (db : DB) (n : UserAccount) :
  NoDup (map Path (user_accounts db)) -> n ∈ user_accounts db ->
  GetAccountByPath (Path n) db = Ok n.
Proof.
  intros Hnd Hin.
  destruct (GetAccountByPath (Path n) db) as [m|e] eqn:Hlook.
  - apply GetAccountByPath_stored in Hlook as [Hm Hpath].
    f_equal. exact (NoDup_Path_inj _ _ _ Hnd Hm Hin Hpath).
  - exfalso. revert Hlook. unfold GetAccountByPath, Gorm.Find.
    destruct (last (filter (path_is (Path n)) (user_accounts db))) eqn:Hlast;
      [discriminate|].
    apply last_None in Hlast. intros _.
    assert (Hn : n ∈ filter (path_is (Path n)) (user_accounts db)).
    { apply list_elem_of_filter. split; [|exact Hin].
      unfold path_is. apply bool_decide_pack. reflexivity. }
    rewrite Hlast in Hn. inversion Hn.
Qed.

(** The parents [nextLevel] makes of a level whose rows come in the order
    of their paths. *)
Lemma nextLevel_children :
  hashes_render prim ->
  (forall l r, exists h, GetParent prim l r = Ok h) ->
  forall (qs : list pathstring) (accs : list UserAccount),
    map Path accs = child_paths qs ->
    Forall (hash_parses prim) accs ->
    exists nodes,
      nextLevel prim accs = Return (Ok nodes) /\
      map Path nodes = qs /\
      Forall (fun row => Level row = Z.of_nat (length (Path row))) nodes /\
      Forall (hash_parses prim) nodes /\
      parents_of prim qs accs nodes.
Proof.
  intros Hprim Htotal qs. induction qs as [|q qs IH]; intros accs Hpaths Hparse.
  - destruct accs; [|discriminate]. exists []. cbn.
    split; [reflexivity|]. split; [reflexivity|]. split; [constructor|].
    split; [constructor|]. intros q Hq. inversion Hq.
  - destruct accs as [|l [|r rest]]; try discriminate.
    cbn in Hpaths. injection Hpaths as Hl Hr Hrest.
    apply Forall_cons in Hparse as [[hl Hhl] Hparse].
    apply Forall_cons in Hparse as [[hr Hhr] Hparse].
    destruct (IH rest Hrest Hparse) as (nodes & Hnext & Hnpaths & Hnlevels & Hnparse & Hfam).
    destruct (Htotal hl hr) as [hn Hhn].
    pose proof (proj2 Hprim _ _ _ Hhn) as [_ Hback].
    set (node := NewAccountNode (GetParentPath (Path l)) (ByteArray_String prim hn)).
    assert (Hnode : Path node = q) by (cbn; rewrite Hl; apply GetParentPath_snoc).
    exists (node :: nodes).
    split; [|split; [|split; [|split]]].
    + cbn [nextLevel]. rewrite Hhl, Hhr, Hhn, Hnext. reflexivity.
    + cbn [map]. rewrite Hnode, Hnpaths. reflexivity.
    + constructor; [reflexivity|exact Hnlevels].
    + constructor; [exists hn; exact Hback|exact Hnparse].
    + intros q' Hq'. apply elem_of_cons in Hq' as [->|Hq'].
      * exists l, r, node, hl, hr, hn.
        split; [left|]. split; [exact Hl|]. split; [right; left|]. split; [exact Hr|].
        split; [left|]. split; [exact Hnode|]. auto.
      * destruct (Hfam q' Hq') as (l' & r' & n' & hl' & hr' & hn' & H1 & H2 & H3 & H4 & H5 & H6).
        exists l', r', n', hl', hr', hn'.
        split; [right; right; exact H1|]. split; [exact H2|].
        split; [right; right; exact H3|]. split; [exact H4|].
        split; [right; exact H5|]. exact H6.
Qed.


Lemma filter_bool_none {A : Type} (f : A -> bool) (l : list A) :
  Forall (fun x => f x = false) l -> filter f l = [].
Proof.
  induction 1 as [|x l Hx _ IH]; [reflexivity|].
  rewrite filter_bool_cons, Hx. exact IH.
Qed.

Lemma child_paths_length (qs : list pathstring) :
  length (child_paths qs) = (2 * length qs)%nat.
Proof.
  induction qs as [|q qs IH]; [reflexivity|].
  change (child_paths (q :: qs))
    with ((q ++ ["0"%char]) :: (q ++ ["1"%char]) :: child_paths qs).
  cbn [length]. rewrite IH. lia.
Qed.

Lemma all_paths_count (n : nat) : length (all_paths n) = (2 ^ n)%nat.
Proof.
  induction n as [|n IH]; [reflexivity|].
  cbn [all_paths]. rewrite child_paths_length, IH. cbn. lia.
Qed.

(** One level of the second part of [InitBalancesTree]. *)
Lemma built_step (d m : nat) (rows nodes : list UserAccount) :
  (m < d)%nat ->
  built_down_to prim d (S m) rows ->
  map Path nodes = all_paths m ->
  Forall (fun row => Level row = Z.of_nat (length (Path row))) nodes ->
  Forall (hash_parses prim) nodes ->
  parents_of prim (all_paths m) (filter (level_is (Z.of_nat (S m))) rows) nodes ->
  built_down_to prim d m (rows ++ nodes).
Proof.
  intros Hmd (Hnd & Hlv & Hps & Hlen & Hcomplete & Hlevel & Hcons) Hnp Hnlv Hnps Hfam.
  assert (Hnode_len : forall row, row ∈ nodes -> length (Path row) = m).
  { intros row Hrow. apply all_paths_length. rewrite <- Hnp.
    apply list_elem_of_fmap_2. exact Hrow. }
  assert (Hrow_len : forall row, row ∈ rows -> (S m <= length (Path row) <= d)%nat).
  { rewrite Forall_forall in Hlen. exact Hlen. }
  assert (Hrow_lv : forall row, row ∈ rows -> Level row = Z.of_nat (length (Path row))).
  { rewrite Forall_forall in Hlv. exact Hlv. }
  split; [|split; [|split; [|split; [|split; [|split]]]]].
  - rewrite map_app. apply NoDup_app. split; [exact Hnd|]. split.
    + intros x Hx Hx'. apply list_elem_of_fmap in Hx as (row & -> & Hrow).
      rewrite Hnp in Hx'. apply all_paths_length in Hx'.
      specialize (Hrow_len row Hrow). lia.
    + rewrite Hnp. apply all_paths_NoDup.
  - apply Forall_app. split; assumption.
  - apply Forall_app. split; assumption.
  - apply Forall_app. split.
    + eapply Forall_impl; [exact Hlen|]. intros row Hrow. cbn in Hrow. lia.
    + apply Forall_forall. intros row Hrow. rewrite (Hnode_len row Hrow). lia.
  - intros k p Hk Hp. destruct (Nat.eq_dec k m) as [->|Hne].
    + rewrite <- Hnp in Hp. apply list_elem_of_fmap in Hp as (row & -> & Hrow).
      exists row. split; [apply elem_of_app; right; exact Hrow|reflexivity].
    + destruct (Hcomplete k p ltac:(lia) Hp) as (row & Hrow & Hpath).
      exists row. split; [apply elem_of_app; left; exact Hrow|exact Hpath].
  - rewrite filter_app, filter_bool_none, filter_bool_all; [exact Hnp| |].
    + apply Forall_forall. intros row Hrow. unfold level_is.
      rewrite Forall_forall in Hnlv. rewrite (Hnlv row Hrow), (Hnode_len row Hrow).
      apply Z.eqb_refl.
    + apply Forall_forall. intros row Hrow. unfold level_is.
      rewrite (Hrow_lv row Hrow). apply Z.eqb_neq.
      specialize (Hrow_len row Hrow). lia.
  - intros q l r Hq Hl Hlp Hr Hrp.
    assert (Hl' : l ∈ rows).
    { apply elem_of_app in Hl as [Hl|Hl]; [exact Hl|].
      apply Hnode_len in Hl. rewrite Hlp, length_app in Hl. cbn in Hl. lia. }
    assert (Hr' : r ∈ rows).
    { apply elem_of_app in Hr as [Hr|Hr]; [exact Hr|].
      apply Hnode_len in Hr. rewrite Hrp, length_app in Hr. cbn in Hr. lia. }
    destruct (Nat.eq_dec (length q) m) as [Hqm|Hqm].
    + assert (Hin : forall row ch, row ∈ rows -> Path row = q ++ [ch] ->
                      row ∈ filter (level_is (Z.of_nat (S m))) rows).
      { intros row ch Hrow Hpath. apply list_elem_of_filter. split; [|exact Hrow].
        apply Is_true_true. unfold level_is.
        rewrite (Hrow_lv row Hrow), Hpath, length_app, Hqm. cbn [length].
        apply Z.eqb_eq. lia. }
      assert (Hqin : q ∈ all_paths m).
      { assert (Hacc : q ++ ["0"%char] ∈ all_paths (S m)).
        { rewrite <- Hlevel, <- Hlp. apply list_elem_of_fmap_2.
          exact (Hin l _ Hl' Hlp). }
        cbn [all_paths] in Hacc.
        apply elem_of_child_paths in Hacc as (q' & Hq' & [Heq|Heq]);
          apply app_inj_tail in Heq as [-> _]; exact Hq'. }
      destruct (Hfam q Hqin)
        as (l0 & r0 & n0 & hl & hr & hn & Hl0 & Hl0p & Hr0 & Hr0p & Hn0 & Hn0p & H1 & H2 & H3 & H4).
      apply list_elem_of_filter in Hl0 as [_ Hl0].
      apply list_elem_of_filter in Hr0 as [_ Hr0].
      assert (l0 = l) as -> by (apply (NoDup_Path_inj rows); [assumption..|congruence]).
      assert (r0 = r) as -> by (apply (NoDup_Path_inj rows); [assumption..|congruence]).
      exists n0, hl, hr, hn.
      split; [apply elem_of_app; right; exact Hn0|]. auto.
    + destruct (Hcons q l r ltac:(lia) Hl' Hlp Hr' Hrp)
        as (nd & hl & hr & hn & Hnd' & Hrest).
      exists nd, hl, hr, hn. split; [apply elem_of_app; left; exact Hnd'|exact Hrest].
Qed.

(** The second part of [InitBalancesTree] builds what is left of the tree,
    level by level. *)
Lemma merkelise_builds :
  hashes_render prim ->
  (forall l r, exists h, GetParent prim l r = Ok h) ->
  forall (d n : nat) (db : DB),
    (n <= d)%nat ->
    built_down_to prim d n (user_accounts db) ->
    exists rows,
      merkelise prim n db = (Return None, set_user_accounts db rows) /\
      built_down_to prim d 0 rows.
Proof.
  intros Hprim Htotal d n. induction n as [|m IH]; intros db Hnd Hbuilt.
  - exists (user_accounts db). split; [|exact Hbuilt].
    cbn. unfold ret. destruct db. reflexivity.
  - pose proof Hbuilt as (_ & _ & Hps & _ & _ & Hlevel & _).
    destruct (nextLevel_children Hprim Htotal (all_paths m)
                (filter (level_is (Z.of_nat (S m))) (user_accounts db)) Hlevel)
      as (nodes & Hnext & Hnp & Hnlv & Hnps & Hfam).
    { apply Forall_forall. intros row Hrow. apply list_elem_of_filter in Hrow as [_ Hrow].
      rewrite Forall_forall in Hps. exact (Hps row Hrow). }
    assert (Hnew : built_down_to prim d m (user_accounts db ++ map Gorm.defaults nodes)).
    { apply built_step; [lia|exact Hbuilt| | | |].
      - rewrite defaults_Path_map. exact Hnp.
      - apply defaults_Forall; [apply defaults_level|exact Hnlv].
      - apply defaults_Forall; [apply defaults_hash_parses|exact Hnps].
      - intros q Hq.
        destruct (Hfam q Hq)
          as (l & r & n & hl & hr & hn & Hl & Hlp & Hr & Hrp & Hn & Hnq & H1 & H2 & H3 & H4).
        exists l, r, (Gorm.defaults n), hl, hr, hn.
        destruct (defaults_keeps n) as (_ & Hpath & _ & _ & Hhash & _).
        rewrite Hpath, Hhash.
        repeat (split; [assumption|]). split; [|auto].
        apply list_elem_of_fmap_2 with (f := Gorm.defaults). exact Hn. }
    destruct (IH (set_user_accounts db (user_accounts db ++ map Gorm.defaults nodes))
                ltac:(lia) Hnew)
      as (rows & Hrun & Hrows).
    exists rows. split; [|exact Hrows].
    cbn [merkelise].
    unfold bind, gets, GetAccountsAtDepth, Gorm.FindAll, on_accounts, Gorm.BulkInsert.
    rewrite Hnext. exact Hrun.
Qed.

(** A tree built down to the root is what the store is meant to hold. *)
Lemma built_tree_well_formed (d : nat) (db : DB) :
  built_down_to prim d 0 (user_accounts db) -> well_formed_tree prim d db.
Proof.
  intros (Hnd & Hlv & Hps & Hlen & Hcomplete & _ & Hcons).
  split; [|split; [exact Hlv|split]].
  - intros q l r Hl Hr.
    apply GetAccountByPath_stored in Hl as [Hl Hlp].
    apply GetAccountByPath_stored in Hr as [Hr Hrp].
    destruct (Hcons q l r ltac:(lia) Hl Hlp Hr Hrp)
      as (nd & hl & hr & hn & Hin & Hpath & H1 & H2 & H3 & H4).
    exists nd, hl, hr, hn. split; [|auto].
    rewrite <- Hpath. apply GetAccountByPath_unique; assumption.
  - intros p Hbits Hp.
    destruct (Hcomplete (length p) p ltac:(lia) (bitpath_in_all_paths p Hbits))
      as (row & Hrow & <-).
    exists row. apply GetAccountByPath_unique; assumption.
  - intros p n Hn. apply GetAccountByPath_stored in Hn as [Hin <-].
    rewrite Forall_forall in Hlen, Hps. split; [apply Hlen; exact Hin|apply Hps; exact Hin].
Qed.

(** The run of [InitBalancesTree] on an empty table, when the path
    generator hands out the paths of the depth left to right. *)
Lemma InitBalancesTree_built (depth : Z) (coordinator : UserAccount)
    (others others' : list UserAccount) (db : DB) :
  hashes_render prim ->
  (forall l r, exists h, GetParent prim l r = Ok h) ->
  0 <= depth < 63 ->
  user_accounts db = [] ->
  assignPaths prim others (GenCoordinatorPath prim depth) = (others', None) ->
  GenCoordinatorPath prim depth :: map Path others' = all_paths (Z.to_nat depth) ->
  Forall (hash_parses prim) others ->
  exists rows,
    InitBalancesTree prim depth (coordinator :: others) db
    = (Return (None,
               Gorm.defaults
                 (set_Type (CreateAccountHash prim
                              (UpdatePath coordinator (GenCoordinatorPath prim depth)))
                    TYPE_TERMINAL) :: others'),
       set_user_accounts db rows) /\
    built_down_to prim (Z.to_nat depth) 0 rows.
Proof.
  intros Hprim Htotal Hdepth Hempty Hassign Hpaths Hparse.
  set (d := Z.to_nat depth) in *.
  set (c' := set_Type (CreateAccountHash prim
                         (UpdatePath coordinator (GenCoordinatorPath prim depth)))
                      TYPE_TERMINAL).
  assert (Hc'path : Path (Gorm.defaults c') = GenCoordinatorPath prim depth)
    by (destruct (defaults_keeps c') as (_ & -> & _); reflexivity).
  destruct (assignPaths_updates prim others (Path c')) as [_ Hall].
  change (Path c') with (GenCoordinatorPath prim depth) in Hall.
  rewrite Hassign in Hall. cbn [fst snd] in Hall. specialize (Hall eq_refl).
  assert (Hlen : length others' = length others)
    by (symmetry; exact (Forall2_length _ _ _ Hall)).
  assert (Hguard : (exp2_int depth =? Z.of_nat (length (coordinator :: others))) = true).
  { destruct (exp2_int depth =? _) eqn:Hg; [reflexivity|exfalso].
    assert (Hcount : Z.of_nat (length (coordinator :: others)) = 2 ^ depth).
    { cbn [length]. rewrite <- Hlen, <- (length_map Path others').
      change (S (length (map Path others')))
        with (length (GenCoordinatorPath prim depth :: map Path others')).
      rewrite Hpaths, all_paths_count, Nat2Z.inj_pow. unfold d.
      rewrite Z2Nat.id by lia. reflexivity. }
    apply exp2_int_mismatch in Hg; [contradiction|lia|].
    rewrite Hcount. unfold int_max. split; [lia|].
    assert (2 ^ depth <= 2 ^ 62) by (apply Z.pow_le_mono_r; lia). lia. }
  set (leaves := map Gorm.defaults (c' :: others')).
  assert (Hleaves : built_down_to prim d d leaves).
  { assert (Hmap : map Path leaves = all_paths d)
      by (unfold leaves; rewrite defaults_Path_map; exact Hpaths).
    assert (Hrow_len : forall row, row ∈ leaves -> length (Path row) = d).
    { intros row Hrow. apply all_paths_length. rewrite <- Hmap.
      apply list_elem_of_fmap_2. exact Hrow. }
    assert (Hlevels : Forall (fun row => Level row = Z.of_nat (length (Path row))) leaves).
    { apply defaults_Forall; [apply defaults_level|].
      constructor; [reflexivity|].
      clear -Hall. induction Hall as [|g s gs ss (p & ->) _ IH]; constructor; auto. }
    split; [|split; [|split; [|split; [|split; [|split]]]]].
    - rewrite Hmap. apply all_paths_NoDup.
    - exact Hlevels.
    - apply defaults_Forall; [apply defaults_hash_parses|]. constructor.
      + exists (Keccak256 prim (bytes_of (Data coordinator))). apply Hprim.
      + clear -Hall Hparse. induction Hall as [|g s gs ss (p & ->) _ IH]; [constructor|].
        apply Forall_cons in Hparse as [Hg Hgs]. constructor; [exact Hg|auto].
    - apply Forall_forall. intros row Hrow. rewrite (Hrow_len row Hrow). lia.
    - intros k p Hk Hp. assert (k = d) as -> by lia.
      rewrite <- Hmap in Hp. apply list_elem_of_fmap in Hp as (row & -> & Hrow). eauto.
    - rewrite filter_bool_all; [exact Hmap|].
      apply Forall_forall. intros row Hrow. unfold level_is.
      rewrite Forall_forall in Hlevels. rewrite (Hlevels row Hrow), (Hrow_len row Hrow).
      apply Z.eqb_refl.
    - intros q l r Hq Hl Hlp _ _. apply Hrow_len in Hl.
      rewrite Hlp, length_app in Hl. cbn in Hl. lia. }
  destruct (merkelise_builds Hprim Htotal d d
              (set_user_accounts db leaves) (le_n d) Hleaves)
    as (rows & Hrun & Hrows).
  exists rows. split; [|exact Hrows].
  unfold InitBalancesTree. rewrite Hguard. cbn [negb].
  unfold InsertCoordinatorAccounts, bind, on_accounts, gets, Gorm.Create, Gorm.BulkInsert, ret.
  cbn [user_accounts set_user_accounts fst snd]. fold c'.
  rewrite reload_created, Hc'path, Hassign, Hempty.
  cbn [app user_accounts set_user_accounts]. fold d.
  change (set_user_accounts (set_user_accounts db [Gorm.defaults c'])
            (Gorm.defaults c' :: map Gorm.defaults others'))
    with (set_user_accounts db leaves).
  rewrite Hrun. reflexivity.
Qed.

(** [InitBalancesTree] builds the tree.  On an empty table, for a depth
    below 63, when the path generator hands out the paths of that depth
    left to right and the hashes of the accounts after the first parse,
    [InitBalancesTree] returns [nil] and leaves a well-formed tree of
    that depth: a store that is root-consistent, in which every row's
    level is the length of its path, which holds a node whose hash parses
    at every path of at most [depth] bits and at no other -- the root
    among them, which [GetRoot] returns. *)
Theorem InitBalancesTree_builds_tree (depth : Z) (coordinator : UserAccount)
    (others others' : list UserAccount) (db : DB) :
  hashes_render prim ->
  (forall l r, exists h, GetParent prim l r = Ok h) ->
  0 <= depth < 63 ->
  user_accounts db = [] ->
  assignPaths prim others (GenCoordinatorPath prim depth) = (others', None) ->
  GenCoordinatorPath prim depth :: map Path others' = all_paths (Z.to_nat depth) ->
  Forall (hash_parses prim) others ->
  exists slice db',
    InitBalancesTree prim depth (coordinator :: others) db = (Return (None, slice), db') /\
    well_formed_tree prim (Z.to_nat depth) db' /\
    (exists rootNode, GetRoot db' = Ok rootNode /\ Path rootNode = []).
Proof.
  intros Hprim Htotal Hdepth Hempty Hassign Hpaths Hparse.
  destruct (InitBalancesTree_built depth coordinator others others' db
              Hprim Htotal Hdepth Hempty Hassign Hpaths Hparse) as (rows & Hrun & Hrows).
  pose proof (built_tree_well_formed _ (set_user_accounts db rows) Hrows) as Hwf.
  eexists _, (set_user_accounts db rows).
  split; [exact Hrun|]. split; [exact Hwf|].
  destruct Hwf as (_ & Hlevels & Hcomplete & _).
  destruct (Hcomplete [] ltac:(constructor) ltac:(cbn; lia)) as [rootNode Hroot].
  exists rootNode. split.
  - apply GetRoot_by_path; assumption.
  - exact (GetAccountByPath_Path _ _ _ Hroot).
Qed.

End BuildFacts.

(** ** Updates on a well-formed tree *)

Section TreeFacts.
Import Core.
Context (prim : Primitives).

Lemma GetAccountByPath_found_iff (p : pathstring) (db : DB) :
  (exists n, GetAccountByPath p db = Ok n) <-> p ∈ map Path (user_accounts db).
Proof.
  split.
  - intros [n Hn]. apply GetAccountByPath_stored in Hn as [Hin <-].
    apply list_elem_of_fmap_2. exact Hin.
  - intros Hin. apply list_elem_of_fmap in Hin as (row & -> & Hrow).
    unfold GetAccountByPath, Gorm.Find.
    destruct (last (filter (path_is (Path row)) (user_accounts db))) eqn:Hlast; [eauto|].
    exfalso. apply last_None in Hlast.
    assert (Hn : row ∈ filter (path_is (Path row)) (user_accounts db)).
    { apply list_elem_of_filter. split; [|exact Hrow].
      unfold path_is. apply bool_decide_pack. reflexivity. }
    rewrite Hlast in Hn. inversion Hn.
Qed.

Lemma GetSiblings_complete (db : DB) (p : pathstring) :
  is_bitpath p ->
  (forall x, is_bitpath x -> (length x <= length p)%nat ->
             exists n, GetAccountByPath x db = Ok n) ->
  exists siblings, GetSiblings p db = (siblings, None).
Proof.
  induction p as [|ch q IH] using rev_ind; intros Hbits Hfound.
  - exists []. reflexivity.
  - apply Forall_app in Hbits as [Hq Hch]. apply Forall_cons in Hch as [Hch _].
    rewrite GetSiblings_snoc.
    destruct (Hfound (q ++ [flip_char ch])) as [s Hs].
    { apply Forall_app. split; [exact Hq|]. constructor; [|constructor].
      destruct Hch as [-> | ->]; [right|left]; reflexivity. }
    { rewrite !length_app. reflexivity. }
    rewrite Hs. destruct IH as [rest Hrest]; [exact Hq| |].
    { intros x Hx Hlen. apply Hfound; [exact Hx|]. rewrite length_app. cbn. lia. }
    rewrite Hrest. eexists. reflexivity.
Qed.

(** On a well-formed tree [UpdateAccount] always works, and leaves a
    well-formed tree: for an account at a leaf path (a string of 0 and 1
    as long as the tree is deep) whose level is unset or fits the path,
    it returns [nil], and the store it leaves is a well-formed tree of
    the same depth -- so the next update works as well. *)
Theorem UpdateAccount_on_tree (d : nat) (account : UserAccount) (db : DB) :
  hashes_render prim ->
  (forall l r, exists h, GetParent prim l r = Ok h) ->
  well_formed_tree prim d db ->
  is_bitpath (Path account) ->
  length (Path account) = d ->
  level_fits account ->
  exists db',
    UpdateAccount prim account db = (Return None, db') /\
    well_formed_tree prim d db'.
Proof.
  intros Hprim Htotal (Hcons & Hlevels & Hcomplete & Hfound) Hbits Hlen Hfits.
  set (acc := CreateAccountHash prim account).
  set (leafHash := Keccak256 prim (bytes_of (Data account))).
  (* everything the call reads is there *)
  destruct (GetSiblings_complete db (Path account) Hbits) as [siblings Hsibs].
  { intros x Hx Hxlen. apply Hcomplete; [exact Hx|lia]. }
  assert (Hparses : Forall (hash_parses prim) siblings).
  { pose proof (GetSiblings_stored (Path account) db) as Hstored.
    rewrite Hsibs in Hstored. cbn [fst] in Hstored.
    eapply Forall_impl; [exact Hstored|]. intros s [x Hx]. exact (proj2 (Hfound x s Hx)). }
  assert (Habove : ancestors_stored (Path account) db).
  { intros x [k Hk] _. apply Hcomplete.
    - rewrite Hk in Hbits. apply Forall_app in Hbits as [Hx _]. exact Hx.
    - rewrite <- Hlen, Hk, length_app. lia. }
  destruct (StoreLeaf_loop_succeeds prim Hprim Htotal (Path account) [] acc leafHash
              siblings db Hbits eq_refl eq_refl (proj1 Hprim _) Hsibs Hparses Habove)
    as (top & db1 & Hloop).
  destruct (StoreLeaf_loop_spec prim Hprim (Path account) [] acc leafHash siblings db db1
              top Hbits eq_refl eq_refl (proj1 Hprim _) Hsibs Hloop)
    as (_ & (htop & _ & Hhash & Hhtop) & Hframe & Hself & Hup).
  rewrite app_nil_r in Hloop. cbn [length] in Hloop.
  set (t := mkUserAccount 0 None [] 0 0 (ByteArray_String prim htop) 0 EmptyString).
  assert (Hrun : UpdateAccount prim account db
                 = (Return None, snd (updateAccount t [] db1))).
  { unfold UpdateAccount, bind, gets. fold acc.
    change (Path acc) with (Path account). rewrite Hsibs.
    unfold StoreLeaf, bind, ret. rewrite Hloop.
    unfold HashToByteArray, UpdateRootNodeHashes. rewrite Hhash, (proj2 Hhtop).
    reflexivity. }
  exists (snd (updateAccount t [] db1)). split; [exact Hrun|].
  assert (Hdb' : snd (UpdateAccount prim account db) = snd (updateAccount t [] db1))
    by (rewrite Hrun; reflexivity).
  assert (Ht : Path t = [] \/ Path t = []) by (left; reflexivity).
  (* the paths that are found are the same *)
  assert (Hsame : forall p,
    (exists n, GetAccountByPath p (snd (updateAccount t [] db1)) = Ok n) <->
    (exists n, GetAccountByPath p db = Ok n)).
  { intros p. rewrite !GetAccountByPath_found_iff.
    destruct (UpdateAccount_paths_kept prim db account db) as [Hrows _]; [repeat split|].
    rewrite Hdb' in Hrows. rewrite Hrows. reflexivity. }
  split; [|split; [|split]].
  - apply (UpdateAccount_root_consistent prim account db); try assumption.
    intros (l & r & Hl & _). apply Hfound in Hl as [Hl _].
    rewrite length_app in Hl. cbn in Hl. lia.
  - rewrite <- Hdb'.
    apply (UpdateAccount_invariant prim levels_match level_fits).
    + apply updateAccount_levels_match.
    + intros q h. left. reflexivity.
    + apply stored_level_fits.
    + exact Hlevels.
    + exact Hfits.
  - intros p Hp Hplen. apply Hsame. apply Hcomplete; assumption.
  - intros p n Hn.
    assert (Hold : exists old, GetAccountByPath p db = Ok old) by (apply Hsame; eauto).
    destruct Hold as [old Hold]. split; [exact (proj1 (Hfound p old Hold))|].
    destruct (decide (p = [])) as [->|Hnil].
    + rewrite GetAccountByPath_update_same in Hn by exact Ht.
      destruct (GetAccountByPath [] db1) as [r|]; [|discriminate].
      injection Hn as <-. exists htop.
      rewrite assign_Hash by (cbn; apply Hhtop). apply Hhtop.
    + rewrite GetAccountByPath_update_other in Hn by auto.
      destruct (decide (p = Path account)) as [->|Hleaf].
      * destruct (Hself Hnil) as [Hwritten _]. rewrite Hwritten, Hold in Hn.
        injection Hn as <-. exists leafHash.
        rewrite assign_Hash by (cbn; apply Hprim). apply Hprim.
      * destruct (decide (p `prefix_of` Path account)) as [Hpre|Hoff].
        -- destruct (Hup p Hpre Hleaf) as (hx & Hhx & Hlook).
           rewrite Hlook, Hold in Hn. injection Hn as <-. exists hx.
           rewrite assign_Hash by (cbn; apply Hhx). apply Hhx.
        -- rewrite (Hframe p Hoff) in Hn. exact (proj2 (Hfound p n Hn)).
Qed.

End TreeFacts.

Section TreeDemoFacts.
Import Core Listener Demo.

Lemma InitBalancesTree_builds_tree_witness :
  exists slice db',
    InitBalancesTree demoPrim 2 genesisAccounts emptyDB = (Return (None, slice), db') /\
    well_formed_tree demoPrim 2 db' /\
    (exists rootNode, GetRoot db' = Ok rootNode /\ Path rootNode = []).
Proof.
  apply (InitBalancesTree_builds_tree demoPrim 2 (genesisAccount 1 100)
           [genesisAccount 2 0; genesisAccount 3 0; genesisAccount 4 0]
           (fst (assignPaths demoPrim
                   [genesisAccount 2 0; genesisAccount 3 0; genesisAccount 4 0]
                   (GenCoordinatorPath demoPrim 2)))
           emptyDB).
  - exact demoPrim_hashes_render.
  - exact demoPrim_GetParent_total.
  - lia.
  - reflexivity.
  - vm_compute. reflexivity.
  - vm_compute. reflexivity.
  - repeat constructor; eexists; vm_compute; reflexivity.
Defined.

Lemma genesisDB_well_formed : well_formed_tree demoPrim 2 genesisDB.
Proof.
  destruct (InitBalancesTree_built demoPrim 2 (genesisAccount 1 100)
              [genesisAccount 2 0; genesisAccount 3 0; genesisAccount 4 0]
              (fst (assignPaths demoPrim
                      [genesisAccount 2 0; genesisAccount 3 0; genesisAccount 4 0]
                      (GenCoordinatorPath demoPrim 2)))
              emptyDB) as (rows & Hrun & Hrows).
  - exact demoPrim_hashes_render.
  - exact demoPrim_GetParent_total.
  - lia.
  - reflexivity.
  - vm_compute. reflexivity.
  - vm_compute. reflexivity.
  - repeat constructor; eexists; vm_compute; reflexivity.
  - unfold genesisDB, genesisAccounts. rewrite Hrun. cbn [snd].
    apply built_tree_well_formed. exact Hrows.
Qed.

Lemma UpdateAccount_on_tree_witness :
  well_formed_tree demoPrim 2 afterUpdate.
Proof.
  destruct (UpdateAccount_on_tree demoPrim 2 updatedSender genesisDB) as (db' & Hrun & Hwf).
  - exact demoPrim_hashes_render.
  - exact demoPrim_GetParent_total.
  - exact genesisDB_well_formed.
  - exact updatedSender_bitpath.
  - reflexivity.
  - right. reflexivity.
  - unfold afterUpdate. rewrite Hrun. exact Hwf.
Defined.

End TreeDemoFacts.
